(** * The dam (checkers) rules engine of [server.js]

    A shallow embedding of the game logic of [src/server.js] (the complete
    engine) and of [src/unnamed/part_000] (its predecessor), followed by
    the properties the specification states about them.

    The functions keep their names and the order of their tests.  A call
    yields a value or a [TypeError].  [applyMove] changes the game in
    place: it yields the game it leaves together with the way the call
    ended.

    [from] and [to] arrive from a client.  The engine comes first for
    payloads whose [row] and [col] are integers or are missing, where the
    squares it computes are pairs of integers; the module [Raw] then
    follows it on numbers and strings alike, with the conversions of
    JavaScript, and the two are shown to coincide on integers and missing
    fields ([raw_isValidMove], [raw_applyMove], [raw_makeMove]).  What is stated of [isValidMove],
    [applyMove] and [makeMove] without the prefix [Raw] is stated of
    requests of the first kind.

    The object [rooms] and the five socket handlers follow in the module
    [Session]: a handler takes the state of the server and yields the state
    it leaves together with what it sends. *)

From Stdlib Require Import ZArith Bool List Lia Ascii.
From stdpp Require Import base option list strings gmap pretty.

Local Open Scope Z_scope.

(** ** JavaScript values that occur in the engine *)

(** The four strings stored in the board: ["b"], ["w"], ["B"], ["W"].
    Player colours are the strings ["w"] and ["b"]. *)
Inductive sym : Set := Sb | Sw | SB | SW.

#[global] Instance sym_eq_dec : EqDecision sym.
Proof. solve_decision. Defined.

(** [s.toLowerCase()] *)
Definition toLowerCase (s : sym) : sym :=
  match s with
  | Sb | SB => Sb
  | Sw | SW => Sw
  end.

(** [s.toUpperCase()] *)
Definition toUpperCase (s : sym) : sym :=
  match s with
  | Sb | SB => SB
  | Sw | SW => SW
  end.

(** A board cell is [null] or one of the four strings. *)
Inductive cell : Set := Null | Str (s : sym).

#[global] Instance cell_eq_dec : EqDecision cell.
Proof. solve_decision. Defined.

(** The value of [game.status]. *)
Inductive Status : Set := waiting | playing | finished.

#[global] Instance Status_eq_dec : EqDecision Status.
Proof. solve_decision. Defined.

(** A [row] or [col] field of a payload that is an integer, or [undefined]
    when the field is absent.  (A client can also send a string or any
    other value: those are the values of [Raw.value] below.) *)
Inductive coord : Set := Int (z : Z) | Missing.

#[global] Instance coord_eq_dec : EqDecision coord.
Proof. solve_decision. Defined.

Coercion Int : Z >-> coord.

(** [{ row, col }] *)
Record Pos : Set := mkPos { row : coord; col : coord }.

#[global] Instance Pos_eq_dec : EqDecision Pos.
Proof. solve_decision. Defined.

(** [a === b] on coordinates ([undefined === undefined] is true). *)
Definition strictEq (a b : coord) : bool := bool_decide (a = b).

(** [a < n] and [a >= n] for a number [n]: [undefined] becomes [NaN], and
    every comparison with [NaN] is false. *)
Definition jsLt (a : coord) (n : Z) : bool :=
  match a with Int z => bool_decide (z < n) | Missing => false end.

Definition jsGe (a : coord) (n : Z) : bool :=
  match a with Int z => bool_decide (n ≤ z) | Missing => false end.

(** ** Results of a call *)

(** A call returns a value, throws a [TypeError] (a property read on
    [undefined] or [null]), or is cut off when the fuel of a
    [while (true)] loop runs out. *)
Inductive res (A : Type) : Type :=
  | Ok (a : A)
  | TypeError
  | OutOfFuel.

Arguments Ok {A} a.
Arguments TypeError {A}.
Arguments OutOfFuel {A}.

#[global] Instance res_ret : MRet res := λ A a, Ok a.
#[global] Instance res_bind : MBind res := λ A B f m,
  match m with
  | Ok a => f a
  | TypeError => TypeError
  | OutOfFuel => OutOfFuel
  end.

(** A loop whose body either leaves with [true] ([return true], or
    [found = true; break]) or goes on to the next element. *)
Fixpoint anyM {A : Type} (f : A → res bool) (l : list A) : res bool :=
  match l with
  | [] => Ok false
  | x :: l' =>
      r ← f x;
      if (r : bool) then Ok true else anyM f l'
  end.

(** ** The board *)

(** [board] is an array of eight rows, and no statement of the program adds
    or removes a row: [board[r]] is a row exactly when [0 <= r < 8].  A row
    is a JavaScript array, that is an object from integer keys to values;
    [createInitialBoard] fills the keys 0 to 7, and an assignment
    [board[r][c] = v] sets key [c] whatever integer [c] is.  The board is
    the finite map from the pairs (row, key) to their cells; a pair that is
    not in the map reads as [undefined]. *)
Abbreviation Board := (gmap (Z * Z) cell).

Definition hasRow (r : Z) : bool := bool_decide (0 ≤ r < 8).

(** [board[r]] for a key that is an integer or [undefined]: the row as a
    function from such a key to the value read ([None] is [undefined]), or
    [None] when [board[r]] is [undefined].  (Keys that are strings are
    looked up by [Raw.get].) *)
Definition rowAt (board : Board) (r : coord) : option (coord → option cell) :=
  match r with
  | Int zr =>
      if hasRow zr
      then Some (λ c, match c with Int zc => board !! (zr, zc) | Missing => None end)
      else None
  | Missing => None
  end.

(** [board[r][c]]: a [TypeError] when [board[r]] is [undefined]. *)
Definition get (board : Board) (r c : coord) : res (option cell) :=
  match rowAt board r with
  | Some cells => Ok (cells c)
  | None => TypeError
  end.

(** [board[r]?.[c]] *)
Definition getOpt (board : Board) (r c : coord) : option cell :=
  match rowAt board r with
  | Some cells => cells c
  | None => None
  end.

(** [board[r][c] = v]: a [TypeError] when [board[r]] is [undefined]. *)
Definition setCell (board : Board) (r c : Z) (v : cell) : res Board :=
  if hasRow r then Ok (<[(r, c) := v]> board) else TypeError.

(** The string in a value when the value is truthy: [undefined] and [null]
    are falsy, the four strings are truthy. *)
Definition truthy (v : option cell) : option sym :=
  match v with
  | Some (Str s) => Some s
  | _ => None
  end.

(** [v === null] *)
Definition isNull (v : option cell) : bool := bool_decide (v = Some Null).

(** [v.toLowerCase()]: a [TypeError] on [undefined] and on [null]. *)
Definition lower (v : option cell) : res sym :=
  match v with
  | Some (Str s) => Ok (toLowerCase s)
  | _ => TypeError
  end.

(** [piece === piece.toUpperCase()] *)
Definition isUpper (piece : sym) : bool := bool_decide (piece = toUpperCase piece).

(** The values of a [for (let i = lo; i < hi; i++)] loop. *)
Definition range (lo hi : Z) : list Z :=
  map (λ k, lo + Z.of_nat k) (seq 0 (Z.to_nat (hi - lo))).

(** ** The game *)

Record Game : Type := mkGame {
  board : Board;
  currentPlayer : sym;
  status : Status;
  winner : option sym;
  mustContinueFrom : option (Z * Z);
}.

(** [createInitialBoard]: eight rows of eight [null]s, then black men on the
    dark squares of rows 0 to 2 and white men on those of rows 5 to 7. *)
Definition fillRows (s : sym) (rows : list Z) (size : Z) (board : Board) : Board :=
  foldl (λ bd r,
    foldl (λ bd c,
      if bool_decide ((r + c) `mod` 2 = 1) then <[(r, c) := Str s]> bd else bd)
      bd (range 0 size))
    board rows.

Definition createInitialBoard : Board :=
  let size := 8 in
  let board : Board :=
    foldl (λ bd r, foldl (λ bd c, <[(r, c) := Null]> bd) bd (range 0 size))
      ∅ (range 0 size) in
  let board := fillRows Sb (range 0 3) size board in
  let board := fillRows Sw (range (size - 3) size) size board in
  board.

Definition createNewGame : Game :=
  {| board := createInitialBoard;
     currentPlayer := Sw;
     status := waiting;
     winner := None;
     mustContinueFrom := None |}.

(** ** Capture scanner *)

(** The four diagonal directions, as pairs [(dr, dc)]. *)
Definition directions : list (Z * Z) := [(-1, -1); (-1, 1); (1, -1); (1, 1)].

(** [x < 0 || x >= 8] *)
Definition offBoard (x : Z) : bool := bool_decide (x < 0) || bool_decide (8 ≤ x).

Definition hasRegularCaptureFrom (game : Game) (row col : Z) : res bool :=
  let board := game.(board) in
  piece ← get board row col;
  anyM (λ '(dr, dc),
    let midR := row + dr in
    let midC := col + dc in
    let landR := row + 2 * dr in
    let landC := col + 2 * dc in
    if offBoard landR || offBoard landC || offBoard midR || offBoard midC
    then Ok false
    else
      midPiece ← get board midR midC;
      landPiece ← get board landR landC;
      if negb (bool_decide (is_Some (truthy midPiece))) || negb (isNull landPiece)
      then Ok false
      else
        m ← lower midPiece;
        p ← lower piece;
        if bool_decide (m = p) then Ok false else Ok true)
    directions.

(** The [while (true)] loop of [hasKingCaptureFrom] for one direction:
    [Ok true] is its [return true], [Ok false] one of its [break]s.  Each
    unit of fuel pays for one iteration. *)
Fixpoint kingScan (fuel : nat) (board : Board) (piece : option cell)
    (row col dr dc distance : Z) (foundEnemy : bool) : res bool :=
  match fuel with
  | O => OutOfFuel
  | S fuel' =>
      let checkR := row + dr * distance in
      let checkC := col + dc * distance in
      if offBoard checkR || offBoard checkC then Ok false
      else
        checkPiece ← get board checkR checkC;
        if isNull checkPiece then
          if foundEnemy then Ok true
          else kingScan fuel' board piece row col dr dc (distance + 1) foundEnemy
        else
          c ← lower checkPiece;
          p ← lower piece;
          if bool_decide (c = p) then Ok false
          else if foundEnemy then Ok false
          else kingScan fuel' board piece row col dr dc (distance + 1) true
  end.

(** A scan starts on the board and leaves it after at most seven squares:
    eight iterations end every scan ([kingScan_fuel] below). *)
Definition scanFuel : nat := 8.

Definition hasKingCaptureFrom (game : Game) (row col : Z) : res bool :=
  let board := game.(board) in
  piece ← get board row col;
  anyM (λ '(dr, dc), kingScan scanFuel board piece row col dr dc 1 false)
    directions.

Definition hasCaptureFrom (game : Game) (row col : Z) : res bool :=
  let board := game.(board) in
  match truthy (getOpt board row col) with
  | None => Ok false
  | Some piece =>
      let isKing := isUpper piece in
      if isKing then hasKingCaptureFrom game row col
      else hasRegularCaptureFrom game row col
  end.

(** The accumulating loops of [getAllPlayerPieces]. *)
Fixpoint collectM {A B : Type} (f : A → res (list B)) (l : list A) : res (list B) :=
  match l with
  | [] => Ok []
  | x :: l' =>
      ys ← f x;
      zs ← collectM f l';
      Ok (ys ++ zs)
  end.

Definition getAllPlayerPieces (board : Board) (color : sym) : res (list (Z * Z * sym)) :=
  collectM (λ row : Z,
    collectM (λ col : Z,
      piece ← get board row col;
      Ok (match truthy piece with
          | Some p =>
              if bool_decide (toLowerCase p = color) then [(row, col, p)] else []
          | None => []
          end))
      (range 0 8))
    (range 0 8).

Definition playerHasAnyCapture (game : Game) (playerColor : sym) : res bool :=
  let board := game.(board) in
  match game.(mustContinueFrom) with
  | Some (r, c) => hasCaptureFrom game r c
  | None =>
      pieces ← getAllPlayerPieces board playerColor;
      anyM (λ '(row, col, _), hasCaptureFrom game row col) pieces
  end.

(** ** Move legality *)

(** [x > 0 ? 1 : -1] *)
Definition dirOf (x : Z) : Z := if bool_decide (0 < x) then 1 else -1.

(** The [while (distance < absDr)] loop of [isValidKingMove]: [Ok None] is
    one of its [return false]s, [Ok (Some foundEnemy)] the end of the loop.
    ([enemyRow] and [enemyCol] are written there and never read.) *)
Fixpoint kingPath (board : Board) (piece : sym) (fr fc dirR dirC : Z)
    (foundEnemy : bool) (distances : list Z) : res (option bool) :=
  match distances with
  | [] => Ok (Some foundEnemy)
  | distance :: rest =>
      let checkR := fr + dirR * distance in
      let checkC := fc + dirC * distance in
      checkPiece ← get board checkR checkC;
      if isNull checkPiece then kingPath board piece fr fc dirR dirC foundEnemy rest
      else
        c ← lower checkPiece;
        if bool_decide (c = toLowerCase piece) then Ok None
        else if foundEnemy then Ok None
        else kingPath board piece fr fc dirR dirC true rest
  end.

Definition isValidKingMove (game : Game) (from to : Z * Z) (piece : sym)
    (mustContinueFrom : option (Z * Z)) : res bool :=
  let board := game.(board) in
  let '(fr, fc) := from in
  let '(tr, tc) := to in
  let dr := tr - fr in
  let dc := tc - fc in
  let absDr := Z.abs dr in
  let absDc := Z.abs dc in
  if negb (bool_decide (absDr = absDc)) then Ok false else
  if bool_decide (absDr < 1) then Ok false else
  let dirR := dirOf dr in
  let dirC := dirOf dc in
  scanned ← kingPath board piece fr fc dirR dirC false (range 1 absDr);
  match scanned with
  | None => Ok false
  | Some foundEnemy =>
      dest ← get board tr tc;
      if negb (isNull dest) then Ok false
      else if (foundEnemy : bool) then Ok true
      else if bool_decide (is_Some mustContinueFrom) then Ok false
      else Ok true
  end.

(** The value of [isCapture] (lines 253 to 269 of [isValidMove]). *)
Definition isCaptureMove (board : Board) (piece : sym) (from to : Z * Z) : res bool :=
  let '(fr, fc) := from in
  let '(tr, tc) := to in
  let dr := tr - fr in
  let dc := tc - fc in
  let absDr := Z.abs dr in
  let absDc := Z.abs dc in
  let isKing := isUpper piece in
  if isKing then
    let dirR := dirOf dr in
    let dirC := dirOf dc in
    anyM (λ dist,
      let checkR := fr + dirR * dist in
      let checkC := fc + dirC * dist in
      checkPiece ← get board checkR checkC;
      Ok (match truthy checkPiece with
          | Some c => negb (bool_decide (toLowerCase c = toLowerCase piece))
          | None => false
          end))
      (range 1 absDr)
  else Ok (bool_decide (absDr = 2) && bool_decide (absDc = 2)).

(** Lines 276 to 304 of [isValidMove]: the rules of the piece, once the
    mandatory capture rule has let the move through.  In [fr + dr / 2] the
    difference [dr] is 2 or -2, so that the division is exact. *)
Definition moveRules (game : Game) (from to : Z * Z) (piece : sym) (isCapture : bool)
    : res bool :=
  let board := game.(board) in
  let mustContinueFrom := game.(mustContinueFrom) in
  let '(fr, fc) := from in
  let '(tr, tc) := to in
  let dr := tr - fr in
  let dc := tc - fc in
  let absDr := Z.abs dr in
  let absDc := Z.abs dc in
  let isWhite := bool_decide (toLowerCase piece = Sw) in
  let isKing := isUpper piece in
  if isKing then isValidKingMove game from to piece mustContinueFrom else
  let isSimpleMove := bool_decide (absDr = 1) && bool_decide (absDc = 1) in
  if negb isCapture && negb isSimpleMove then Ok false else
  if isCapture then
    let midR := fr + dr / 2 in
    let midC := fc + dc / 2 in
    match truthy (getOpt board midR midC) with
    | None => Ok false
    | Some midPiece =>
        if bool_decide (toLowerCase midPiece = toLowerCase piece) then Ok false
        else Ok true
    end
  else
  if bool_decide (is_Some mustContinueFrom) then Ok false else
  if isWhite && bool_decide (0 ≤ dr) then Ok false else
  if negb isWhite && bool_decide (dr ≤ 0) then Ok false else
  Ok true.

(** [mustContinueFrom.row !== fr || mustContinueFrom.col !== fc] *)
Definition notAt (m : Z * Z) (fr fc : coord) : bool :=
  negb (strictEq (Int m.1) fr) || negb (strictEq (Int m.2) fc).

Definition isValidMove (game : Game) (from to : Pos) (playerColor : sym) : res bool :=
  let board := game.(board) in
  let currentPlayer := game.(currentPlayer) in
  let status := game.(status) in
  let mustContinueFrom := game.(mustContinueFrom) in
  if negb (bool_decide (status = playing)) then Ok false else
  if negb (bool_decide (currentPlayer = playerColor)) then Ok false else
  let fr := from.(row) in
  let fc := from.(col) in
  let tr := to.(row) in
  let tc := to.(col) in
  if strictEq fr tr && strictEq fc tc then Ok false else
  if jsLt tr 0 || jsGe tr 8 || jsLt tc 0 || jsGe tc 8 then Ok false else
  match truthy (getOpt board fr fc) with
  | None => Ok false
  | Some piece =>
      if negb (bool_decide (toLowerCase piece = playerColor)) then Ok false else
      if match mustContinueFrom with
         | Some m => notAt m fr fc
         | None => false
         end
      then Ok false else
      dest ← get board tr tc;
      if negb (isNull dest) then Ok false else
      match fr, fc, tr, tc with
      | Int fr, Int fc, Int tr, Int tc =>
          isCapture ← isCaptureMove board piece (fr, fc) (tr, tc);
          (* [!isCapture && playerHasAnyCapture(game, playerColor)] *)
          forced ← (if negb isCapture then playerHasAnyCapture game playerColor
                    else Ok false);
          if (forced : bool) then Ok false
          else moveRules game (fr, fc) (tr, tc) piece isCapture
      | _, _, _, _ =>
          (* not reached: [board[fr]?.[fc]] is a string and [board[tr][tc]]
             is [null], so that none of the four keys is missing
             ([isValidMove_reads_integers] below) *)
          Ok false
      end
  end.

(** ** Move executor *)

Definition withBoard (game : Game) (bd : Board) : Game :=
  {| board := bd;
     currentPlayer := game.(currentPlayer);
     status := game.(status);
     winner := game.(winner);
     mustContinueFrom := game.(mustContinueFrom) |}.

(** The [for] loop of the king branch of [applyMove]: the board it leaves,
    and the value of [didCapture] or the error that stopped it. *)
Fixpoint kingCapture (board : Board) (piece : sym) (fr fc dirR dirC : Z)
    (distances : list Z) : Board * res bool :=
  match distances with
  | [] => (board, Ok false)
  | dist :: rest =>
      let checkR := fr + dirR * dist in
      let checkC := fc + dirC * dist in
      match get board checkR checkC with
      | Ok checkPiece =>
          match truthy checkPiece with
          | Some c =>
              if negb (bool_decide (toLowerCase c = toLowerCase piece))
              then (<[(checkR, checkC) := Null]> board, Ok true)
              else kingCapture board piece fr fc dirR dirC rest
          | None => kingCapture board piece fr fc dirR dirC rest
          end
      | TypeError => (board, TypeError)
      | OutOfFuel => (board, OutOfFuel)
      end
  end.

(** [game.currentPlayer === "w" ? "b" : "w"] *)
Definition nextPlayer (currentPlayer : sym) : sym :=
  if bool_decide (currentPlayer = Sw) then Sb else Sw.

(** [applyMove] changes [game] in place and returns nothing: the result is
    the game it leaves and how the call ended, [Ok ()] or the error thrown
    (the assignments made before a throw stay).  This is [applyMove] on
    integer coordinates; [Raw.applyMove] is the same on any payload. *)
Definition applyMove (game : Game) (from to : Z * Z) : Game * res () :=
  let board := game.(board) in
  let '(fr, fc) := from in
  let '(tr, tc) := to in
  match get board fr fc with
  | TypeError => (game, TypeError)
  | OutOfFuel => (game, OutOfFuel)
  | Ok piece =>
  (* [board[fr][fc] = null] *)
  let board := <[(fr, fc) := Null]> board in
  let dr := tr - fr in
  let dc := tc - fc in
  let absDr := Z.abs dr in
  match piece with
  | None | Some Null =>
      (* [piece.toUpperCase()] *)
      (withBoard game board, TypeError)
  | Some (Str piece) =>
  let isKing := isUpper piece in
  let '(board, captured) :=
    if isKing then
      let dirR := dirOf dr in
      let dirC := dirOf dc in
      kingCapture board piece fr fc dirR dirC (range 1 absDr)
    else
      let absDc := Z.abs (tc - fc) in
      if bool_decide (absDr = 2) && bool_decide (absDc = 2) then
        let mr := fr + dr / 2 in
        let mc := fc + dc / 2 in
        match setCell board mr mc Null with
        | Ok board' => (board', Ok true)
        | TypeError => (board, TypeError)
        | OutOfFuel => (board, OutOfFuel)
        end
      else (board, Ok false) in
  match captured with
  | TypeError => (withBoard game board, TypeError)
  | OutOfFuel => (withBoard game board, OutOfFuel)
  | Ok didCapture =>
  match setCell board tr tc (Str piece) with
  | TypeError => (withBoard game board, TypeError)
  | OutOfFuel => (withBoard game board, OutOfFuel)
  | Ok board =>
  let board :=
    if bool_decide (piece = Sw) && bool_decide (tr = 0)
    then <[(tr, tc) := Str SW]> board else board in
  let board :=
    if bool_decide (piece = Sb) && bool_decide (tr = 7)
    then <[(tr, tc) := Str SB]> board else board in
  let game := withBoard game board in
  (* [didCapture && hasCaptureFrom(game, tr, tc)] *)
  match (if didCapture then hasCaptureFrom game tr tc else Ok false) with
  | TypeError => (game, TypeError)
  | OutOfFuel => (game, OutOfFuel)
  | Ok true =>
      ({| board := board;
          currentPlayer := game.(currentPlayer);
          status := game.(status);
          winner := game.(winner);
          mustContinueFrom := Some (tr, tc) |}, Ok ())
  | Ok false =>
      ({| board := board;
          currentPlayer := nextPlayer game.(currentPlayer);
          status := game.(status);
          winner := game.(winner);
          mustContinueFrom := None |}, Ok ())
  end end end end end.

(** ** The [makeMove] handler *)

(** What the handler emits. *)
Inductive Event : Set := mustCapture | invalidMove | gameUpdate.

#[global] Instance Event_eq_dec : EqDecision Event.
Proof. solve_decision. Defined.

(** The value of [isSimpleMoveAttempt] (lines 498 to 533), for the string
    [piece] read at [from].  When a coordinate of [to] is missing, [dr] or
    [dc] is [NaN], and [absDr === absDc], [absDr === 1] or [absDc === 1] is
    false. *)
Definition isSimpleMoveAttempt (game : Game) (piece : sym) (from to : Pos) : bool :=
  match from.(row), from.(col), to.(row), to.(col) with
  | Int fr, Int fc, Int tr, Int tc =>
      let dr := tr - fr in
      let dc := tc - fc in
      let absDr := Z.abs dr in
      let absDc := Z.abs dc in
      let isKing := isUpper piece in
      if isKing then
        if bool_decide (absDr = absDc) && bool_decide (0 < absDr) then
          let dirR := dirOf dr in
          let dirC := dirOf dc in
          let hasEnemyInPath :=
            existsb (λ dist,
              let checkR := fr + dirR * dist in
              let checkC := fc + dirC * dist in
              match truthy (getOpt game.(board) checkR checkC) with
              | Some c => negb (bool_decide (toLowerCase c = toLowerCase piece))
              | None => false
              end)
              (range 1 absDr) in
          negb hasEnemyInPath && isNull (getOpt game.(board) tr tc)
        else false
      else
        bool_decide (absDr = 1) && bool_decide (absDc = 1)
        && isNull (getOpt game.(board) tr tc)
  | _, _, _, _ => false
  end.

(** The integer square of a position. *)
Definition square (p : Pos) : option (Z * Z) :=
  match p.(row), p.(col) with
  | Int r, Int c => Some (r, c)
  | _, _ => None
  end.

(** The handler of [makeMove], for a room that exists, a socket that has a
    colour, and a payload whose coordinates are integers or are missing:
    the game it leaves, and the event it emits or the error that escapes
    it.  The handler passes [from] and [to] on to [applyMove] as they
    came, which are pairs of integers here ([Raw.makeMove] is the handler
    on any payload). *)
Definition makeMove (game : Game) (from to : Pos) (playerColor : sym)
    : Game * res Event :=
  match isValidMove game from to playerColor with
  | TypeError => (game, TypeError)
  | OutOfFuel => (game, OutOfFuel)
  | Ok false =>
      let fr := from.(row) in
      let fc := from.(col) in
      match truthy (getOpt game.(board) fr fc) with
      | Some piece =>
          if bool_decide (toLowerCase piece = playerColor) then
            (* [isSimpleMoveAttempt && playerHasAnyCapture(game, playerColor)] *)
            match (if isSimpleMoveAttempt game piece from to
                   then playerHasAnyCapture game playerColor else Ok false) with
            | Ok true => (game, Ok mustCapture)
            | Ok false => (game, Ok invalidMove)
            | TypeError => (game, TypeError)
            | OutOfFuel => (game, OutOfFuel)
            end
          else (game, Ok invalidMove)
      | None => (game, Ok invalidMove)
      end
  | Ok true =>
      match square from, square to with
      | Some f, Some t =>
          let '(game', r) := applyMove game f t in
          (game', r ≫= λ _, Ok gameUpdate)
      | _, _ =>
          (* not reached: no coordinate of an accepted move is missing
             ([isValidMove_true] below) *)
          (game, TypeError)
      end
  end.

(** ** The predecessor engine ([src/unnamed/part_000]) *)

Module Predecessor.

Definition isValidMove (game : Game) (from to : Pos) (playerColor : sym) : res bool :=
  let board := game.(board) in
  let currentPlayer := game.(currentPlayer) in
  let status := game.(status) in
  let mustContinueFrom := game.(mustContinueFrom) in
  if negb (bool_decide (status = playing)) then Ok false else
  if negb (bool_decide (currentPlayer = playerColor)) then Ok false else
  let fr := from.(row) in
  let fc := from.(col) in
  let tr := to.(row) in
  let tc := to.(col) in
  if strictEq fr tr && strictEq fc tc then Ok false else
  if jsLt tr 0 || jsGe tr 8 || jsLt tc 0 || jsGe tc 8 then Ok false else
  match truthy (getOpt board fr fc) with
  | None => Ok false
  | Some piece =>
      if negb (bool_decide (toLowerCase piece = playerColor)) then Ok false else
      if match mustContinueFrom with
         | Some m => notAt m fr fc
         | None => false
         end
      then Ok false else
      dest ← get board tr tc;
      if negb (isNull dest) then Ok false else
      match fr, fc, tr, tc with
      | Int fr, Int fc, Int tr, Int tc =>
          let dr := tr - fr in
          let dc := tc - fc in
          let absDr := Z.abs dr in
          let absDc := Z.abs dc in
          let isWhite := bool_decide (toLowerCase piece = Sw) in
          let isKing := isUpper piece in
          let isCapture := bool_decide (absDr = 2) && bool_decide (absDc = 2) in
          let isSimpleMove := bool_decide (absDr = 1) && bool_decide (absDc = 1) in
          if negb isCapture && negb isSimpleMove then Ok false else
          if isCapture then
            let midR := fr + dr / 2 in
            let midC := fc + dc / 2 in
            match truthy (getOpt board midR midC) with
            | None => Ok false
            | Some midPiece =>
                if bool_decide (toLowerCase midPiece = toLowerCase piece) then Ok false
                else Ok true
            end
          else
          if bool_decide (is_Some mustContinueFrom) then Ok false else
          if negb isKing && isWhite && bool_decide (0 ≤ dr) then Ok false else
          if negb isKing && negb isWhite && bool_decide (dr ≤ 0) then Ok false else
          Ok true
      | _, _, _, _ =>
          (* not reached, as in the complete engine *)
          Ok false
      end
  end.

(** [hasCaptureFrom] of the predecessor: every piece, man or king, is
    scanned for a jump over an adjacent enemy piece. *)
Definition hasCaptureFrom (game : Game) (row col : Z) : res bool :=
  let board := game.(board) in
  match truthy (getOpt board row col) with
  | None => Ok false
  | Some piece =>
      anyM (λ '(dr, dc),
        let midR := row + dr in
        let midC := col + dc in
        let landR := row + 2 * dr in
        let landC := col + 2 * dc in
        if offBoard landR || offBoard landC || offBoard midR || offBoard midC
        then Ok false
        else
          midPiece ← get board midR midC;
          landPiece ← get board landR landC;
          if negb (bool_decide (is_Some (truthy midPiece))) || negb (isNull landPiece)
          then Ok false
          else
            m ← lower midPiece;
            if bool_decide (m = toLowerCase piece) then Ok false else Ok true)
        directions
  end.

(** [board[r][c] = v] for a value [v] that may be [undefined]: a key that
    holds [undefined] reads as a key that is not there. *)
Definition setValue (board : Board) (r c : Z) (v : option cell) : res Board :=
  if hasRow r
  then Ok (match v with Some x => <[(r, c) := x]> board | None => delete (r, c) board end)
  else TypeError.

(** [applyMove] of the predecessor: the same steps without the king
    branch.  It reads no property of [piece], and does not throw when the
    square [from] is empty. *)
Definition applyMove (game : Game) (from to : Z * Z) : Game * res () :=
  let board := game.(board) in
  let '(fr, fc) := from in
  let '(tr, tc) := to in
  match get board fr fc with
  | TypeError => (game, TypeError)
  | OutOfFuel => (game, OutOfFuel)
  | Ok piece =>
  (* [board[fr][fc] = null] *)
  let board := <[(fr, fc) := Null]> board in
  let dr := tr - fr in
  let dc := tc - fc in
  let absDr := Z.abs dr in
  let absDc := Z.abs dc in
  let '(board, captured) :=
    if bool_decide (absDr = 2) && bool_decide (absDc = 2) then
      let mr := fr + dr / 2 in
      let mc := fc + dc / 2 in
      match setCell board mr mc Null with
      | Ok board' => (board', Ok true)
      | TypeError => (board, TypeError)
      | OutOfFuel => (board, OutOfFuel)
      end
    else (board, Ok false) in
  match captured with
  | TypeError => (withBoard game board, TypeError)
  | OutOfFuel => (withBoard game board, OutOfFuel)
  | Ok didCapture =>
  match setValue board tr tc piece with
  | TypeError => (withBoard game board, TypeError)
  | OutOfFuel => (withBoard game board, OutOfFuel)
  | Ok board =>
  let board :=
    if bool_decide (piece = Some (Str Sw)) && bool_decide (tr = 0)
    then <[(tr, tc) := Str SW]> board else board in
  let board :=
    if bool_decide (piece = Some (Str Sb)) && bool_decide (tr = 7)
    then <[(tr, tc) := Str SB]> board else board in
  let game := withBoard game board in
  (* [didCapture && hasCaptureFrom(game, tr, tc)] *)
  match (if didCapture then hasCaptureFrom game tr tc else Ok false) with
  | TypeError => (game, TypeError)
  | OutOfFuel => (game, OutOfFuel)
  | Ok true =>
      ({| board := board;
          currentPlayer := game.(currentPlayer);
          status := game.(status);
          winner := game.(winner);
          mustContinueFrom := Some (tr, tc) |}, Ok ())
  | Ok false =>
      ({| board := board;
          currentPlayer := nextPlayer game.(currentPlayer);
          status := game.(status);
          winner := game.(winner);
          mustContinueFrom := None |}, Ok ())
  end end end end.

End Predecessor.

(** ** Boards and games used in the examples *)

(** Eight rows of eight [null]s. *)
Definition emptyBoard : Board :=
  foldl (λ bd r, foldl (λ bd c, <[(r, c) := Null]> bd) bd (range 0 8)) ∅ (range 0 8).

Definition placePieces (pieces : list (Z * Z * sym)) (bd : Board) : Board :=
  foldl (λ bd '(r, c, s), <[(r, c) := Str s]> bd) bd pieces.

(** A game in progress: [status] is ["playing"], as the [joinRoom] handler
    sets it when the second player arrives. *)
Definition playingGame (bd : Board) (player : sym) (chain : option (Z * Z)) : Game :=
  {| board := bd;
     currentPlayer := player;
     status := playing;
     winner := None;
     mustContinueFrom := chain |}.

(** The fresh game, started. *)
Definition startedGame : Game := playingGame createInitialBoard Sw None.

(** Scenario B of the specification: a black man at (3,3), a white man at
    (4,4), white to move. *)
Definition scenarioB : Game :=
  playingGame (placePieces [(3, 3, Sb); (4, 4, Sw)] emptyBoard) Sw None.

(** Scenario C: a white king at (4,4), black men at (2,2) and (0,0). *)
Definition scenarioC : Game :=
  playingGame (placePieces [(4, 4, SW); (2, 2, Sb); (0, 0, Sb)] emptyBoard) Sw None.

(** A white man one step from its far row, white to move. *)
Definition promotionGame : Game :=
  playingGame (placePieces [(1, 2, Sw); (6, 5, Sb)] emptyBoard) Sw None.

(** ** Well-formed boards *)

(** The keys of the board are the squares of the 8 by 8 grid, each holding
    [null] or a string, as [createInitialBoard] leaves it. *)
Definition onBoard (sq : Z * Z) : Prop := 0 ≤ sq.1 < 8 ∧ 0 ≤ sq.2 < 8.

Definition wfBoard (bd : Board) : Prop :=
  ∀ sq : Z * Z, is_Some (bd !! sq) ↔ onBoard sq.

Definition wfBoardb (bd : Board) : bool :=
  forallb (λ r, forallb (λ c, bool_decide (is_Some (bd !! (r, c)))) (range 0 8))
    (range 0 8)
  && forallb (λ kv : Z * Z * cell, bool_decide (onBoard kv.1)) (map_to_list bd).

(** ** The session layer and the runs of the engine *)

(** [room.game.status = "playing"], the assignment of the [joinRoom]
    handler when the second player arrives (and of [resetResponse]). *)
Definition startPlaying (game : Game) : Game :=
  {| board := game.(board);
     currentPlayer := game.(currentPlayer);
     status := playing;
     winner := game.(winner);
     mustContinueFrom := game.(mustContinueFrom) |}.

(** The games that a fresh game becomes by moves between squares, given
    by integer coordinates, that [isValidMove] accepts and [applyMove] then
    applies. *)
Inductive reachable : Game → Prop :=
  | reach_new : reachable createNewGame
  | reach_join game : reachable game → reachable (startPlaying game)
  | reach_move game from to color f t game' :
      reachable game →
      isValidMove game from to color = Ok true →
      square from = Some f → square to = Some t →
      applyMove game f t = (game', Ok ()) →
      reachable game'.

(** The games that a fresh game becomes by any calls of the engine, whether
    the moves are legal or not and whether the calls return or throw
    ([isValidMove] only returns a boolean and leaves the game as it is). *)
Inductive engineRun : Game → Prop :=
  | run_new : engineRun createNewGame
  | run_join game : engineRun game → engineRun (startPlaying game)
  | run_applyMove game from to :
      engineRun game → engineRun (applyMove game from to).1
  | run_makeMove game from to color :
      engineRun game → engineRun (makeMove game from to color).1.

(** ** Auxiliary notions *)

(** The test that [isCaptureMove], [applyMove] and the handler make on the
    square at distance [d] of a king's path: it holds a string of the other
    colour. *)
Definition enemyOnPath (bd : Board) (piece : sym) (fr fc dirR dirC d : Z) : bool :=
  match truthy (bd !! (fr + dirR * d, fc + dirC * d)) with
  | Some c => negb (bool_decide (toLowerCase c = toLowerCase piece))
  | None => false
  end.

(** The string that [applyMove] leaves on the landing square, lines 421 to
    425: the piece, or its king when a man lands on its far row. *)
Definition landed (piece : sym) (tr : Z) : sym :=
  if bool_decide (piece = Sw) && bool_decide (tr = 0) then SW
  else if bool_decide (piece = Sb) && bool_decide (tr = 7) then SB
  else piece.

(** The cell at distance [d] of a king's path, and the condition that the
    path stays on the rows of the board. *)
Definition pathCell (bd : Board) (fr fc dirR dirC d : Z) : option cell :=
  bd !! (fr + dirR * d, fc + dirC * d).

Definition pathRows (fr dirR : Z) (distances : list Z) : Prop :=
  ∀ d, d ∈ distances → 0 ≤ fr + dirR * d < 8.

(** ** The notions of the specification *)

(** The preconditions 1 to 6 of section 4.3 for a move of [piece] from
    [from] to [to] by the player [color]: the game is being played, it is
    the player's turn, [to] differs from [from] and is on the board, [from]
    holds [piece], which belongs to the player, an active chain starts at
    [from], and [to] is empty. *)
Definition preconditions (game : Game) (from to : Z * Z) (color piece : sym) : Prop :=
  game.(status) = playing ∧
  game.(currentPlayer) = color ∧
  from ≠ to ∧ onBoard to ∧
  (0 ≤ from.1 < 8 ∧ game.(board) !! from = Some (Str piece)) ∧
  toLowerCase piece = color ∧
  (∀ m, game.(mustContinueFrom) = Some m → m = from) ∧
  game.(board) !! to = Some Null.

(** The squares strictly between [from] and [to] on their diagonal, from
    the nearest to [from] on. *)
Definition traversed (from to : Z * Z) : list (Z * Z) :=
  map (λ d, (from.1 + Z.sgn (to.1 - from.1) * d, from.2 + Z.sgn (to.2 - from.2) * d))
    (range 1 (Z.abs (to.1 - from.1))).

(** [sq] holds a piece of the colour opposed to that of [piece]. *)
Definition enemyAt (bd : Board) (piece : sym) (sq : Z * Z) : Prop :=
  ∃ e, bd !! sq = Some (Str e) ∧ toLowerCase e ≠ toLowerCase piece.

(** The shape of a king capture: a diagonal line whose traversed squares
    hold exactly one enemy piece and are otherwise empty (so that none of
    them holds a piece of the king's colour). *)
Definition kingCaptureShape (bd : Board) (piece : sym) (from to : Z * Z) : Prop :=
  Z.abs (to.1 - from.1) = Z.abs (to.2 - from.2) ∧
  ∃ e, e ∈ traversed from to ∧ enemyAt bd piece e ∧
       ∀ sq, sq ∈ traversed from to → sq ≠ e → bd !! sq = Some Null.

(** The move captured a piece: a square that held a piece of the colour
    that is not to move is empty afterwards. *)
Definition capturedPiece (game game' : Game) : Prop :=
  ∃ sq e, game.(board) !! sq = Some (Str e) ∧
          toLowerCase e ≠ game.(currentPlayer) ∧
          game'.(board) !! sq = Some Null.

(** Outcome (a) of the turn invariant: the same player continues, from the
    landing square. *)
Definition chainContinues (game game' : Game) (to : Z * Z) : Prop :=
  game'.(currentPlayer) = game.(currentPlayer) ∧
  game'.(mustContinueFrom) = Some to.

(** Outcome (b): the turn passes to the other colour and the chain is
    cleared. *)
Definition turnPasses (game game' : Game) : Prop :=
  ((game.(currentPlayer) = Sw ∧ game'.(currentPlayer) = Sb) ∨
   (game.(currentPlayer) = Sb ∧ game'.(currentPlayer) = Sw)) ∧
  game'.(mustContinueFrom) = None.

(** Every occupied square [(r, c)] of the board has [r + c] odd. *)
Definition darkBoard (bd : Board) : Prop :=
  ∀ (r c : Z) (s : sym), bd !! (r, c) = Some (Str s) → (r + c) `mod` 2 = 1.

(** The shape of a man's capture: a jump of two rows and two columns over
    an enemy piece. *)
Definition manCaptureShape (bd : Board) (piece : sym) (from to : Z * Z) : Prop :=
  Z.abs (to.1 - from.1) = 2 ∧ Z.abs (to.2 - from.2) = 2 ∧
  enemyAt bd piece (from.1 + (to.1 - from.1) `div` 2, from.2 + (to.2 - from.2) `div` 2).

(** The classification of section 4.3: the move is a capture. *)
Definition captureShape (bd : Board) (piece : sym) (from to : Z * Z) : Prop :=
  if isUpper piece then kingCaptureShape bd piece from to
  else manCaptureShape bd piece from to.




(** ** Further boards and notions *)

(** A white king alone on its diagonals, white to move. *)
Definition kingGame : Game :=
  playingGame (placePieces [(4, 4, SW); (0, 1, Sb)] emptyBoard) Sw None.

(** A value read from the board is a piece of the colour [color]: the test
    [piece && piece.toLowerCase() === color] of [getAllPlayerPieces]. *)
Definition holds (color : sym) (v : option cell) : bool :=
  match truthy v with
  | Some p => bool_decide (toLowerCase p = color)
  | None => false
  end.

(** The entries that [getAllPlayerPieces] pushes for one square. *)
Definition pieceEntry (bd : Board) (color : sym) (row col : Z) : list (Z * Z * sym) :=
  match truthy (bd !! (row, col)) with
  | Some p => if bool_decide (toLowerCase p = color) then [(row, col, p)] else []
  | None => []
  end.

(** The pieces of a colour on the 8 by 8 grid, row by row. *)
Definition piecesOf (bd : Board) (color : sym) : list (Z * Z * sym) :=
  flat_map (λ row, flat_map (λ col, pieceEntry bd color row col) (range 0 8))
    (range 0 8).

(** The colour that is not [color]. *)
Definition otherColor (color : sym) : sym :=
  match toLowerCase color with Sw => Sb | _ => Sw end.

(** The number of pieces of a colour on the grid. *)
Definition countPieces (bd : Board) (color : sym) : nat := length (piecesOf bd color).

(** A sequence of moves played by the players in turn, each accepted by
    [isValidMove] and applied by [applyMove]; [None] when one of them is
    refused or throws. *)
Fixpoint playAll (game : Game) (moves : list ((Z * Z) * (Z * Z))) : option Game :=
  match moves with
  | [] => Some game
  | (f, t) :: rest =>
      match isValidMove game (mkPos f.1 f.2) (mkPos t.1 t.2) game.(currentPlayer) with
      | Ok true =>
          match applyMove game f t with
          | (game', Ok _) => playAll game' rest
          | _ => None
          end
      | _ => None
      end
  end.

(** A game in the middle of a capture chain: after these five moves the
    white man that captured at (3,4) stands on (2,3) and can capture again
    at (3,2). *)
Definition chainGame : Game :=
  default startedGame
    (playAll startedGame
       [((5, 6), (4, 5)); ((2, 1), (3, 2)); ((6, 7), (5, 6));
        ((2, 3), (3, 4)); ((4, 5), (2, 3))]).

(** ** The rooms and the socket handlers *)

(** The three ways in which the [makeMove] handler ends. *)
Definition eventCase {A : Type} (ev : Event) (a b c : A) : A :=
  match ev with
  | mustCapture => a
  | invalidMove => b
  | gameUpdate => c
  end.

Module Session.

(** A player of a room: [{ name, color }]. *)
Record Player : Type := mkPlayer { name : string; color : sym }.

(** A room: [{ game, players }], the players by socket id.  Socket ids are
    made by the server, one for each connection, and are no property names
    of [Object.prototype]; they are numbers here. *)
Record Room : Type := mkRoom { game : Game; players : gmap nat Player }.

(** The state of the server: the own properties of [rooms], and whether
    [Object.prototype] has been given a property [game] (by the assignment
    [room.game = createNewGame()] of the [resetResponse] handler, for the
    room id ["__proto__"]).  Of that property only the effect on the reads
    of [rooms] is followed. *)
Record Server : Type := mkServer { rooms : gmap string Room; polluted : bool }.

(** [const rooms = {}] *)
Definition initial : Server := mkServer ∅ false.

(** The property names that an object made by [{}] inherits from
    [Object.prototype]; each of them reads as a truthy value, a function or
    [Object.prototype] itself. *)
Definition prototypeKeys : list string :=
  ["constructor"; "__defineGetter__"; "__defineSetter__"; "hasOwnProperty";
   "__lookupGetter__"; "__lookupSetter__"; "isPrototypeOf";
   "propertyIsEnumerable"; "toString"; "valueOf"; "__proto__";
   "toLocaleString"]%string.

Definition isInherited (st : Server) (key : string) : bool :=
  bool_decide (key ∈ prototypeKeys)
  || (st.(polluted) && bool_decide (key = "game"%string)).

(** What [rooms[roomId]] reads: a room, an object of the prototype chain
    (truthy, without [players]), or [undefined]. *)
Inductive Found : Type :=
  | own (room : Room)
  | inherited
  | absent.

Definition lookupRoom (st : Server) (key : string) : Found :=
  match st.(rooms) !! key with
  | Some room => own room
  | None => if isInherited st key then inherited else absent
  end.

(** The room id of a payload is a string or is missing; as a property name
    a missing id reads ["undefined"]. *)
Definition keyOf (roomId : option string) : string :=
  default "undefined"%string roomId.

(** [rooms[roomId] = room] *)
Definition withRoom (st : Server) (key : string) (room : Room) : Server :=
  mkServer (<[key := room]> st.(rooms)) st.(polluted).

Definition getRoom (st : Server) (roomId : string) : Server * Found :=
  match lookupRoom st roomId with
  | absent =>
      let room := mkRoom createNewGame ∅ in
      (withRoom st roomId room, own room)
  | found => (st, found)
  end.

Definition countPlayers (room : Room) : nat := size room.(players).

(** [room.players[socketId]?.color] *)
Definition getPlayerColor (room : Room) (socketId : nat) : option sym :=
  color <$> room.(players) !! socketId.

(** ** What the handlers send *)

Inductive Message : Type :=
  | roomFull
  | joinedRoom (roomId : string) (playerColor : sym) (gameState : Game)
      (players : gmap nat Player)
  | playerJoined (socketId : nat) (name : option string) (color : sym)
      (gameState : Game) (players : gmap nat Player)
  | gameUpdate (game : Game)
  | mustCapture
  | invalidMove
  | resetRequest (fromPlayer : sym) (requesterId : nat)
  | resetConfirmed
  | resetDeclined
  | playerLeft (socketId : nat).

(** [socket.emit], [socket.to(room).emit] and [io.to(room).emit]. *)
Inductive Target : Type :=
  | toSocket
  | toOthers (roomId : option string)
  | toAll (roomId : option string).

(** [socket.join(roomId)] and the emissions, in the order of the calls. *)
Inductive Action : Type :=
  | join (roomId : string)
  | emit (target : Target) (message : Message).

(** [name || "Player"] *)
Definition playerName (name : option string) : string :=
  match name with
  | Some n => if bool_decide (n = EmptyString) then "Player"%string else n
  | None => "Player"%string
  end.

(** ** The handlers

    A handler yields the state it leaves and the actions it made, or the
    error that escapes it; no handler acts before it throws.  A payload is
    an object; its room id, name and requester id are strings or are
    missing, [from] and [to] are objects whose coordinates are integers or
    are missing, and [accepted] counts by its truth value. *)

Definition onJoinRoom (st : Server) (socket : nat) (roomId name : option string)
    : Server * res (list Action) :=
  match roomId with
  | None => (st, Ok [])
  | Some id =>
      if bool_decide (id = EmptyString) then (st, Ok []) else
      match getRoom st id with
      | (st, own room) =>
          let playersCount := countPlayers room in
          if bool_decide (2 ≤ playersCount)%nat
          then (st, Ok [emit toSocket roomFull])
          else
            let color := if bool_decide (playersCount = 0%nat) then Sw else Sb in
            let players :=
              <[socket := mkPlayer (playerName name) color]> room.(players) in
            let game :=
              if bool_decide (size players = 2%nat)
              then startPlaying room.(game) else room.(game) in
            (withRoom st id (mkRoom game players),
             Ok [join id;
                 emit toSocket (joinedRoom id color game players);
                 emit (toOthers (Some id)) (playerJoined socket name color game players);
                 emit (toAll (Some id)) (gameUpdate game)])
      | (st, _) =>
          (* [getRoom] returned an object of the prototype chain:
             [Object.keys(room.players)] with [room.players] undefined *)
          (st, TypeError)
      end
  end.

Definition onMakeMove (st : Server) (socket : nat) (roomId : option string)
    (from to : Pos) : Server * res (list Action) :=
  let key := keyOf roomId in
  match lookupRoom st key with
  | absent => (st, Ok [])
  | inherited =>
      (* [room.players[socketId]] with [room.players] undefined *)
      (st, TypeError)
  | own room =>
      match getPlayerColor room socket with
      | None => (st, Ok [])
      | Some playerColor =>
          let '(game', r) := makeMove room.(game) from to playerColor in
          (withRoom st key (mkRoom game' room.(players)),
           ev ← r;
           Ok [eventCase ev
                 (emit toSocket mustCapture)
                 (emit toSocket invalidMove)
                 (emit (toAll roomId) (gameUpdate game'))])
      end
  end.

Definition onResetGame (st : Server) (socket : nat) (roomId : option string)
    : Server * res (list Action) :=
  match lookupRoom st (keyOf roomId) with
  | absent => (st, Ok [])
  | inherited => (st, TypeError)
  | own room =>
      match getPlayerColor room socket with
      | None => (st, Ok [])
      | Some playerColor =>
          (st, Ok [emit (toOthers roomId) (resetRequest playerColor socket)])
      end
  end.

Definition onResetResponse (st : Server) (socket : nat) (roomId : option string)
    (accepted : bool) (requesterId : option string) : Server * res (list Action) :=
  let key := keyOf roomId in
  match lookupRoom st key with
  | absent => (st, Ok [])
  | inherited =>
      if accepted then
        (* [room.game = createNewGame()] on an object of the prototype
           chain, then [Object.keys(room.players)] *)
        (mkServer st.(rooms)
           (st.(polluted) || bool_decide (key = "__proto__"%string)),
         TypeError)
      else (st, Ok [emit (toAll requesterId) resetDeclined])
  | own room =>
      if accepted then
        let game := createNewGame in
        let game :=
          if bool_decide (countPlayers room = 2%nat)
          then startPlaying game else game in
        (withRoom st key (mkRoom game room.(players)),
         Ok [emit (toAll roomId) (gameUpdate game);
             emit (toAll roomId) resetConfirmed])
      else (st, Ok [emit (toAll requesterId) resetDeclined])
  end.

(** The body of the loop of the [disconnect] handler for one room: the room
    it leaves ([None] when the room is deleted) and what it sends to the
    room. *)
Definition leave (socket : nat) (room : Room) : option Room * list Message :=
  match room.(players) !! socket with
  | None => (Some room, [])
  | Some _ =>
      let players := delete socket room.(players) in
      if bool_decide (size players = 0%nat)
      then (None, [playerLeft socket])
      else (Some (mkRoom createNewGame players),
            [playerLeft socket; gameUpdate createNewGame])
  end.

(** The [disconnect] handler: the state it leaves and, for each room, what
    it sends to that room (the order between two rooms, that of
    [Object.entries], is not followed). *)
Definition onDisconnect (st : Server) (socket : nat)
    : Server * gmap string (list Message) :=
  (mkServer (omap (λ room, (leave socket room).1) st.(rooms)) st.(polluted),
   (λ room, (leave socket room).2) <$> st.(rooms)).

(** The states of the server: those that the handlers leave, called in any
    order, by any socket and with any payload of this shape, whether they
    return or throw. *)
Inductive served : Server → Prop :=
  | served_initial : served initial
  | served_joinRoom st socket roomId name :
      served st → served (onJoinRoom st socket roomId name).1
  | served_makeMove st socket roomId from to :
      served st → served (onMakeMove st socket roomId from to).1
  | served_resetGame st socket roomId :
      served st → served (onResetGame st socket roomId).1
  | served_resetResponse st socket roomId accepted requesterId :
      served st → served (onResetResponse st socket roomId accepted requesterId).1
  | served_disconnect st socket :
      served st → served (onDisconnect st socket).1.

(** Every player of the room is black. *)
Definition allBlack (room : Room) : Prop :=
  ∀ s p, room.(players) !! s = Some p → p.(color) = Sb.

(** The invariant of a room. *)
Definition roomInv (room : Room) : Prop :=
  reachable room.(game) ∧
  (1 ≤ countPlayers room ≤ 2)%nat ∧
  (room.(game).(status) = playing ↔ countPlayers room = 2%nat) ∧
  (countPlayers room = 1%nat → room.(game) = createNewGame) ∧
  (∀ s p, room.(players) !! s = Some p → p.(color) = Sw ∨ p.(color) = Sb) ∧
  (∀ s1 s2 p1 p2, room.(players) !! s1 = Some p1 → room.(players) !! s2 = Some p2 →
                  p1.(color) = Sw → p2.(color) = Sw → s1 = s2) ∧
  (allBlack room →
   room.(game) = createNewGame ∨ room.(game) = startPlaying createNewGame).

Definition serverInv (st : Server) : Prop :=
  ∀ key room, st.(rooms) !! key = Some room →
    key ≠ EmptyString ∧ ¬ (key ∈ prototypeKeys) ∧ roomInv room.

(** Three sockets and a room: the first two join, the first leaves, the
    third joins. *)
Definition twoBlack : Server :=
  let st := (onJoinRoom initial 1%nat (Some "r"%string) None).1 in
  let st := (onJoinRoom st 2%nat (Some "r"%string) None).1 in
  let st := (onDisconnect st 1%nat).1 in
  (onJoinRoom st 3%nat (Some "r"%string) None).1.

End Session.

(** The room ["r"] of [Session.twoBlack]: both players are black, and the
    game waits for white. *)
Definition twoBlackRoom : Session.Room :=
  Session.mkRoom (startPlaying createNewGame)
    (<[3%nat := Session.mkPlayer "Player" Sb]>
       (<[2%nat := Session.mkPlayer "Player" Sb]> ∅)).

(** ** The engine on the values a client sends *)

(** [from] and [to] are the fields of a payload that the [makeMove]
    handler hands on as it received them: a [row] or a [col] can be a
    number, a string, or missing.  The definitions above are the engine
    where each of them is an integer or is missing.  The module [Raw]
    follows the same lines of [server.js] on numbers and strings alike,
    with the operators of JavaScript: [<], [>=] and [-] turn a string into
    a number, [===] compares without conversion, [+] appends to a string,
    and [board[r][c]] looks up the property whose name is the string of the
    key. *)
Module Raw.

(** A [row] or a [col] of a payload, or one of the values that the engine
    computes from them with [+]: a number (an integer), a string,
    [undefined], or [NaN].  Of the other values that a payload can carry
    (numbers that are no integers, booleans, [null], arrays, objects) none
    is followed here.  A string counts in three ways.  As the name of a
    property every string is followed, except that the members that every
    array has besides its cells (["length"] and the methods) read as
    [undefined] here.  As an operand of [+] and of [===] every string is
    followed.  As an operand of [<], [>=] and [-] the strings of digits,
    with or without a minus sign, are followed, such as ["2"] and ["2-1"];
    a string with a fraction, an exponent or blanks counts as [NaN]
    here. *)
Inductive value : Set := Num (z : Z) | Text (s : string) | Absent | NaN.

#[global] Instance value_eq_dec : EqDecision value.
Proof. solve_decision. Defined.

(** [{ row, col }] *)
Record Pos : Set := mkPos { row : value; col : value }.

(** The result of [-] and of [Math.abs]: an integer, or [None] for [NaN]. *)
Definition number : Set := option Z.

(** The value of a decimal digit. *)
Definition digit (a : ascii) : option Z :=
  let n := Z.of_N (N_of_ascii a) in
  if bool_decide (48 ≤ n ≤ 57) then Some (n - 48) else None.

(** The number that a string of digits denotes, after the digits that
    denote [acc]. *)
Fixpoint digits (acc : Z) (s : string) : option Z :=
  match s with
  | EmptyString => Some acc
  | String a s' =>
      match digit a with
      | Some d => digits (10 * acc + d) s'
      | None => None
      end
  end.

(** The conversion to a number that [<], [>=] and [-] apply: the empty
    string is 0, a string of digits with or without a minus sign is its
    number, any other string counts as [NaN], and [undefined] is [NaN]. *)
Definition toNumber (v : value) : number :=
  match v with
  | Num z => Some z
  | Text EmptyString => Some 0
  | Text (String "-"%char EmptyString) => None
  | Text (String "-"%char s) => Z.opp <$> digits 0 s
  | Text s => digits 0 s
  | Absent | NaN => None
  end.

(** The string of a number ([String(-1)] is ["-1"]). *)
Definition numeral (n : number) : string :=
  match n with
  | Some z => pretty z
  | None => "NaN"
  end.

(** [v + n] for a number [n]: the sum when [v] is a number, the string [v]
    followed by the numeral of [n] when [v] is a string, and [NaN] when [v]
    is [undefined] or [NaN]. *)
Definition plus (v : value) (n : number) : value :=
  match v with
  | Num z =>
      match n with
      | Some k => Num (z + k)
      | None => NaN
      end
  | Text s => Text (s +:+ numeral n)
  | Absent | NaN => NaN
  end.

(** [a - b] *)
Definition minus (a b : value) : number :=
  match toNumber a, toNumber b with
  | Some x, Some y => Some (x - y)
  | _, _ => None
  end.

(** [Math.abs(n)] *)
Definition abs (n : number) : number := Z.abs <$> n.

(** [n / 2]; the engine divides differences that are 2 or -2 only, so that
    the division is exact. *)
Definition half (n : number) : number := (λ z, z `div` 2) <$> n.

(** [a === b] on values: no conversion, and [NaN] equals nothing. *)
Definition strictEq (a b : value) : bool :=
  match a, b with
  | Num x, Num y => bool_decide (x = y)
  | Text s, Text t => bool_decide (s = t)
  | Absent, Absent => true
  | _, _ => false
  end.

(** [m === n] on numbers. *)
Definition numEq (m n : number) : bool :=
  match m, n with
  | Some x, Some y => bool_decide (x = y)
  | _, _ => false
  end.

(** [m < k], [m > k], [m <= k] and [m >= k] for a number [m] and an
    integer [k]: false when [m] is [NaN]. *)
Definition numLt (m : number) (k : Z) : bool :=
  match m with Some x => bool_decide (x < k) | None => false end.

Definition numGt (m : number) (k : Z) : bool :=
  match m with Some x => bool_decide (k < x) | None => false end.

Definition numLe (m : number) (k : Z) : bool :=
  match m with Some x => bool_decide (x ≤ k) | None => false end.

Definition numGe (m : number) (k : Z) : bool :=
  match m with Some x => bool_decide (k ≤ x) | None => false end.

(** [x < 0 || x >= 8] on a value. *)
Definition offBoard (x : value) : bool :=
  numLt (toNumber x) 0 || numGe (toNumber x) 8.

(** [n > 0 ? 1 : -1] *)
Definition dirOf (n : number) : Z := if numGt n 0 then 1 else -1.

(** The values of [dist] in [for (let dist = 1; dist < n; dist++)]: none
    when [n] is [NaN]. *)
Definition upTo (n : number) : list Z :=
  match n with
  | Some hi => range 1 hi
  | None => []
  end.

(** The name of the property that a key selects. *)
Definition key (v : value) : string :=
  match v with
  | Num z => pretty z
  | Text s => s
  | Absent => "undefined"
  | NaN => "NaN"
  end.

(** The board: eight rows, numbered 0 to 7, each an object from the names
    of its properties to their values.  [createInitialBoard] gives every
    row the properties ["0"] to ["7"]. *)
Abbreviation Board := (gmap (Z * string) cell).

(** The row that [board[r]] selects: that of the number 0 to 7 whose
    numeral is the name [k], if any. *)
Definition rowOf (k : string) : option Z :=
  find (λ z, bool_decide (pretty z = k)) (range 0 8).

(** [board[r][c]]: a [TypeError] when [board[r]] is [undefined]. *)
Definition get (board : Board) (r c : value) : res (option cell) :=
  match rowOf (key r) with
  | Some zr => Ok (board !! (zr, key c))
  | None => TypeError
  end.

(** [board[r]?.[c]] *)
Definition getOpt (board : Board) (r c : value) : option cell :=
  match rowOf (key r) with
  | Some zr => board !! (zr, key c)
  | None => None
  end.

(** [board[r][c] = v]: a [TypeError] when [board[r]] is [undefined]. *)
Definition setCell (board : Board) (r c : value) (v : cell) : res Board :=
  match rowOf (key r) with
  | Some zr => Ok (<[(zr, key c) := v]> board)
  | None => TypeError
  end.

Record Game : Type := mkGame {
  board : Board;
  currentPlayer : sym;
  status : Status;
  winner : option sym;
  mustContinueFrom : option (value * value);
}.

(** *** Capture scanner *)

Definition hasRegularCaptureFrom (game : Game) (row col : value) : res bool :=
  let board := game.(board) in
  piece ← get board row col;
  anyM (λ '(dr, dc),
    let midR := plus row (Some dr) in
    let midC := plus col (Some dc) in
    let landR := plus row (Some (2 * dr)) in
    let landC := plus col (Some (2 * dc)) in
    if offBoard landR || offBoard landC || offBoard midR || offBoard midC
    then Ok false
    else
      midPiece ← get board midR midC;
      landPiece ← get board landR landC;
      if negb (bool_decide (is_Some (truthy midPiece))) || negb (isNull landPiece)
      then Ok false
      else
        m ← lower midPiece;
        p ← lower piece;
        if bool_decide (m = p) then Ok false else Ok true)
    directions.

Fixpoint kingScan (fuel : nat) (board : Board) (piece : option cell)
    (row col : value) (dr dc distance : Z) (foundEnemy : bool) : res bool :=
  match fuel with
  | O => OutOfFuel
  | S fuel' =>
      let checkR := plus row (Some (dr * distance)) in
      let checkC := plus col (Some (dc * distance)) in
      if offBoard checkR || offBoard checkC then Ok false
      else
        checkPiece ← get board checkR checkC;
        if isNull checkPiece then
          if foundEnemy then Ok true
          else kingScan fuel' board piece row col dr dc (distance + 1) foundEnemy
        else
          c ← lower checkPiece;
          p ← lower piece;
          if bool_decide (c = p) then Ok false
          else if foundEnemy then Ok false
          else kingScan fuel' board piece row col dr dc (distance + 1) true
  end.

Definition hasKingCaptureFrom (game : Game) (row col : value) : res bool :=
  let board := game.(board) in
  piece ← get board row col;
  anyM (λ '(dr, dc), kingScan scanFuel board piece row col dr dc 1 false)
    directions.

Definition hasCaptureFrom (game : Game) (row col : value) : res bool :=
  let board := game.(board) in
  match truthy (getOpt board row col) with
  | None => Ok false
  | Some piece =>
      let isKing := isUpper piece in
      if isKing then hasKingCaptureFrom game row col
      else hasRegularCaptureFrom game row col
  end.

Definition getAllPlayerPieces (board : Board) (color : sym) : res (list (Z * Z * sym)) :=
  collectM (λ row : Z,
    collectM (λ col : Z,
      piece ← get board (Num row) (Num col);
      Ok (match truthy piece with
          | Some p =>
              if bool_decide (toLowerCase p = color) then [(row, col, p)] else []
          | None => []
          end))
      (range 0 8))
    (range 0 8).

Definition playerHasAnyCapture (game : Game) (playerColor : sym) : res bool :=
  let board := game.(board) in
  match game.(mustContinueFrom) with
  | Some (r, c) => hasCaptureFrom game r c
  | None =>
      pieces ← getAllPlayerPieces board playerColor;
      anyM (λ '(row, col, _), hasCaptureFrom game (Num row) (Num col)) pieces
  end.

(** *** Move legality *)

Fixpoint kingPath (board : Board) (piece : sym) (fr fc : value) (dirR dirC : Z)
    (foundEnemy : bool) (distances : list Z) : res (option bool) :=
  match distances with
  | [] => Ok (Some foundEnemy)
  | distance :: rest =>
      let checkR := plus fr (Some (dirR * distance)) in
      let checkC := plus fc (Some (dirC * distance)) in
      checkPiece ← get board checkR checkC;
      if isNull checkPiece then kingPath board piece fr fc dirR dirC foundEnemy rest
      else
        c ← lower checkPiece;
        if bool_decide (c = toLowerCase piece) then Ok None
        else if foundEnemy then Ok None
        else kingPath board piece fr fc dirR dirC true rest
  end.

Definition isValidKingMove (game : Game) (from to : Pos) (piece : sym)
    (mustContinueFrom : option (value * value)) : res bool :=
  let board := game.(board) in
  let fr := from.(row) in
  let fc := from.(col) in
  let tr := to.(row) in
  let tc := to.(col) in
  let dr := minus tr fr in
  let dc := minus tc fc in
  let absDr := abs dr in
  let absDc := abs dc in
  if negb (numEq absDr absDc) then Ok false else
  if numLt absDr 1 then Ok false else
  let dirR := dirOf dr in
  let dirC := dirOf dc in
  scanned ← kingPath board piece fr fc dirR dirC false (upTo absDr);
  match scanned with
  | None => Ok false
  | Some foundEnemy =>
      dest ← get board tr tc;
      if negb (isNull dest) then Ok false
      else if (foundEnemy : bool) then Ok true
      else if bool_decide (is_Some mustContinueFrom) then Ok false
      else Ok true
  end.

(** The value of [isCapture] (lines 253 to 269 of [isValidMove]). *)
Definition isCaptureMove (board : Board) (piece : sym) (from to : Pos) : res bool :=
  let fr := from.(row) in
  let fc := from.(col) in
  let tr := to.(row) in
  let tc := to.(col) in
  let dr := minus tr fr in
  let dc := minus tc fc in
  let absDr := abs dr in
  let absDc := abs dc in
  let isKing := isUpper piece in
  if isKing then
    let dirR := dirOf dr in
    let dirC := dirOf dc in
    anyM (λ dist,
      let checkR := plus fr (Some (dirR * dist)) in
      let checkC := plus fc (Some (dirC * dist)) in
      checkPiece ← get board checkR checkC;
      Ok (match truthy checkPiece with
          | Some c => negb (bool_decide (toLowerCase c = toLowerCase piece))
          | None => false
          end))
      (upTo absDr)
  else Ok (numEq absDr (Some 2) && numEq absDc (Some 2)).

(** Lines 276 to 304 of [isValidMove]. *)
Definition moveRules (game : Game) (from to : Pos) (piece : sym) (isCapture : bool)
    : res bool :=
  let board := game.(board) in
  let mustContinueFrom := game.(mustContinueFrom) in
  let fr := from.(row) in
  let fc := from.(col) in
  let tr := to.(row) in
  let tc := to.(col) in
  let dr := minus tr fr in
  let dc := minus tc fc in
  let absDr := abs dr in
  let absDc := abs dc in
  let isWhite := bool_decide (toLowerCase piece = Sw) in
  let isKing := isUpper piece in
  if isKing then isValidKingMove game from to piece mustContinueFrom else
  let isSimpleMove := numEq absDr (Some 1) && numEq absDc (Some 1) in
  if negb isCapture && negb isSimpleMove then Ok false else
  if isCapture then
    let midR := plus fr (half dr) in
    let midC := plus fc (half dc) in
    match truthy (getOpt board midR midC) with
    | None => Ok false
    | Some midPiece =>
        if bool_decide (toLowerCase midPiece = toLowerCase piece) then Ok false
        else Ok true
    end
  else
  if bool_decide (is_Some mustContinueFrom) then Ok false else
  if isWhite && numGe dr 0 then Ok false else
  if negb isWhite && numLe dr 0 then Ok false else
  Ok true.

(** [mustContinueFrom.row !== fr || mustContinueFrom.col !== fc] *)
Definition notAt (m : value * value) (fr fc : value) : bool :=
  negb (strictEq m.1 fr) || negb (strictEq m.2 fc).

Definition isValidMove (game : Game) (from to : Pos) (playerColor : sym) : res bool :=
  let board := game.(board) in
  let currentPlayer := game.(currentPlayer) in
  let status := game.(status) in
  let mustContinueFrom := game.(mustContinueFrom) in
  if negb (bool_decide (status = playing)) then Ok false else
  if negb (bool_decide (currentPlayer = playerColor)) then Ok false else
  let fr := from.(row) in
  let fc := from.(col) in
  let tr := to.(row) in
  let tc := to.(col) in
  if strictEq fr tr && strictEq fc tc then Ok false else
  if offBoard tr || offBoard tc then Ok false else
  match truthy (getOpt board fr fc) with
  | None => Ok false
  | Some piece =>
      if negb (bool_decide (toLowerCase piece = playerColor)) then Ok false else
      if match mustContinueFrom with
         | Some m => notAt m fr fc
         | None => false
         end
      then Ok false else
      dest ← get board tr tc;
      if negb (isNull dest) then Ok false else
      isCapture ← isCaptureMove board piece from to;
      (* [!isCapture && playerHasAnyCapture(game, playerColor)] *)
      forced ← (if negb isCapture then playerHasAnyCapture game playerColor
                else Ok false);
      if (forced : bool) then Ok false
      else moveRules game from to piece isCapture
  end.

(** *** Move executor *)

Definition withBoard (game : Game) (bd : Board) : Game :=
  {| board := bd;
     currentPlayer := game.(currentPlayer);
     status := game.(status);
     winner := game.(winner);
     mustContinueFrom := game.(mustContinueFrom) |}.

(** The [for] loop of the king branch of [applyMove]. *)
Fixpoint kingCapture (board : Board) (piece : sym) (fr fc : value) (dirR dirC : Z)
    (distances : list Z) : Board * res bool :=
  match distances with
  | [] => (board, Ok false)
  | dist :: rest =>
      let checkR := plus fr (Some (dirR * dist)) in
      let checkC := plus fc (Some (dirC * dist)) in
      match get board checkR checkC with
      | Ok checkPiece =>
          match truthy checkPiece with
          | Some c =>
              if negb (bool_decide (toLowerCase c = toLowerCase piece))
              then
                match setCell board checkR checkC Null with
                | Ok board' => (board', Ok true)
                | TypeError => (board, TypeError)
                | OutOfFuel => (board, OutOfFuel)
                end
              else kingCapture board piece fr fc dirR dirC rest
          | None => kingCapture board piece fr fc dirR dirC rest
          end
      | TypeError => (board, TypeError)
      | OutOfFuel => (board, OutOfFuel)
      end
  end.

(** [applyMove] with [from] and [to] as the handler passes them: the game
    it leaves and how the call ended (the assignments made before a throw
    stay). *)
Definition applyMove (game : Game) (from to : Pos) : Game * res () :=
  let board := game.(board) in
  let fr := from.(row) in
  let fc := from.(col) in
  let tr := to.(row) in
  let tc := to.(col) in
  match get board fr fc with
  | TypeError => (game, TypeError)
  | OutOfFuel => (game, OutOfFuel)
  | Ok piece =>
  (* [board[fr][fc] = null] *)
  match setCell board fr fc Null with
  | TypeError => (game, TypeError)
  | OutOfFuel => (game, OutOfFuel)
  | Ok board =>
  let dr := minus tr fr in
  let dc := minus tc fc in
  let absDr := abs dr in
  match piece with
  | None | Some Null =>
      (* [piece.toUpperCase()] *)
      (withBoard game board, TypeError)
  | Some (Str piece) =>
  let isKing := isUpper piece in
  let '(board, captured) :=
    if isKing then
      let dirR := dirOf dr in
      let dirC := dirOf dc in
      kingCapture board piece fr fc dirR dirC (upTo absDr)
    else
      let absDc := abs (minus tc fc) in
      if numEq absDr (Some 2) && numEq absDc (Some 2) then
        let mr := plus fr (half dr) in
        let mc := plus fc (half dc) in
        match setCell board mr mc Null with
        | Ok board' => (board', Ok true)
        | TypeError => (board, TypeError)
        | OutOfFuel => (board, OutOfFuel)
        end
      else (board, Ok false) in
  match captured with
  | TypeError => (withBoard game board, TypeError)
  | OutOfFuel => (withBoard game board, OutOfFuel)
  | Ok didCapture =>
  match setCell board tr tc (Str piece) with
  | TypeError => (withBoard game board, TypeError)
  | OutOfFuel => (withBoard game board, OutOfFuel)
  | Ok board =>
  (* [piece === "w" && tr === 0], [piece === "b" && tr === 7]: no
     conversion, a string [tr] equals neither number *)
  let board :=
    if bool_decide (piece = Sw) && strictEq tr (Num 0)
    then <[(0, key tc) := Str SW]> board else board in
  let board :=
    if bool_decide (piece = Sb) && strictEq tr (Num 7)
    then <[(7, key tc) := Str SB]> board else board in
  let game := withBoard game board in
  (* [didCapture && hasCaptureFrom(game, tr, tc)] *)
  match (if didCapture then hasCaptureFrom game tr tc else Ok false) with
  | TypeError => (game, TypeError)
  | OutOfFuel => (game, OutOfFuel)
  | Ok true =>
      ({| board := board;
          currentPlayer := game.(currentPlayer);
          status := game.(status);
          winner := game.(winner);
          mustContinueFrom := Some (tr, tc) |}, Ok ())
  | Ok false =>
      ({| board := board;
          currentPlayer := nextPlayer game.(currentPlayer);
          status := game.(status);
          winner := game.(winner);
          mustContinueFrom := None |}, Ok ())
  end end end end end end.

(** *** The [makeMove] handler *)

(** The value of [isSimpleMoveAttempt] (lines 498 to 533), for the string
    [piece] read at [from]. *)
Definition isSimpleMoveAttempt (game : Game) (piece : sym) (from to : Pos) : bool :=
  let fr := from.(row) in
  let fc := from.(col) in
  let tr := to.(row) in
  let tc := to.(col) in
  let dr := minus tr fr in
  let dc := minus tc fc in
  let absDr := abs dr in
  let absDc := abs dc in
  let isKing := isUpper piece in
  if isKing then
    if numEq absDr absDc && numGt absDr 0 then
      let dirR := dirOf dr in
      let dirC := dirOf dc in
      let hasEnemyInPath :=
        existsb (λ dist,
          let checkR := plus fr (Some (dirR * dist)) in
          let checkC := plus fc (Some (dirC * dist)) in
          match truthy (getOpt game.(board) checkR checkC) with
          | Some c => negb (bool_decide (toLowerCase c = toLowerCase piece))
          | None => false
          end)
          (upTo absDr) in
      negb hasEnemyInPath && isNull (getOpt game.(board) tr tc)
    else false
  else
    numEq absDr (Some 1) && numEq absDc (Some 1)
    && isNull (getOpt game.(board) tr tc).

(** The handler of [makeMove], for a room that exists and a socket that has
    a colour: [from] and [to] go to [isValidMove] and to [applyMove] as
    they came. *)
Definition makeMove (game : Game) (from to : Pos) (playerColor : sym)
    : Game * res Event :=
  match isValidMove game from to playerColor with
  | TypeError => (game, TypeError)
  | OutOfFuel => (game, OutOfFuel)
  | Ok false =>
      let fr := from.(row) in
      let fc := from.(col) in
      match truthy (getOpt game.(board) fr fc) with
      | Some piece =>
          if bool_decide (toLowerCase piece = playerColor) then
            (* [isSimpleMoveAttempt && playerHasAnyCapture(game, playerColor)] *)
            match (if isSimpleMoveAttempt game piece from to
                   then playerHasAnyCapture game playerColor else Ok false) with
            | Ok true => (game, Ok mustCapture)
            | Ok false => (game, Ok invalidMove)
            | TypeError => (game, TypeError)
            | OutOfFuel => (game, OutOfFuel)
            end
          else (game, Ok invalidMove)
      | None => (game, Ok invalidMove)
      end
  | Ok true =>
      let '(game', r) := applyMove game from to in
      (game', r ≫= λ _, Ok gameUpdate)
  end.

End Raw.

(** The integer engine is the engine of [Raw] on payloads whose fields are
    integers or are missing: the embedding of its coordinates, boards and
    games. *)
Definition rawValue (c : coord) : Raw.value :=
  match c with
  | Int z => Raw.Num z
  | Missing => Raw.Absent
  end.


Definition rawSquare (sq : Z * Z) : Raw.Pos :=
  Raw.mkPos (Raw.Num sq.1) (Raw.Num sq.2).

Definition rawBoard (bd : Board) : Raw.Board :=
  kmap (λ sq : Z * Z, (sq.1, pretty sq.2)) bd.

Definition rawChain (m : option (Z * Z)) : option (Raw.value * Raw.value) :=
  (λ m : Z * Z, (Raw.Num m.1, Raw.Num m.2)) <$> m.

Definition rawGame (game : Game) : Raw.Game :=
  {| Raw.board := rawBoard game.(board);
     Raw.currentPlayer := game.(currentPlayer);
     Raw.status := game.(status);
     Raw.winner := game.(winner);
     Raw.mustContinueFrom := rawChain game.(mustContinueFrom) |}.

(** The game before the last move of [chainGame]: the white man at (4,5)
    can jump over (3,4) to (2,3), and from there over (3,2) to (4,1). *)
Definition jumpGame : Game :=
  default startedGame
    (playAll startedGame
       [((5, 6), (4, 5)); ((2, 1), (3, 2)); ((6, 7), (5, 6)); ((2, 3), (3, 4))]).

(** A game in which a man has been crowned: after these eight moves the
    white man that set out from (5,2) has captured twice and stands on
    (0,5) as a king. *)
Definition crownedGame : Game :=
  default startedGame
    (playAll startedGame
       [((5, 6), (4, 5)); ((2, 3), (3, 4)); ((4, 5), (2, 3)); ((1, 4), (3, 2));
        ((5, 2), (4, 1)); ((0, 5), (1, 4)); ((4, 1), (2, 3)); ((2, 3), (0, 5))]).

(** The value [v] names the index [k] of a row or of a column: it is the
    number [k] or the numeral of [k]. *)
Definition names (v : Raw.value) (k : Z) : Prop :=
  v = Raw.Num k ∨ v = Raw.Text (pretty k).

(** Case analysis on the test that heads the goal. *)
Ltac head_case :=
  match goal with
  | |- (if ?c then _ else _) = _ => destruct c eqn:?
  | |- (match ?x with _ => _ end) = _ => destruct x eqn:?
  | |- (_ ≫= _) = _ => unfold mbind, res_bind
  end.

(** The eight cases of an index [k] of the board, with [0 ≤ k < 8] at hand. *)
Ltac each_index k :=
  let H := fresh in
  assert (k = 0 ∨ k = 1 ∨ k = 2 ∨ k = 3 ∨ k = 4 ∨ k = 5 ∨ k = 6 ∨ k = 7) as H by lia;
  destruct H as [->|[->|[->|[->|[->|[->|[->| ->]]]]]]].

(** * Properties *)

(** The functions of the engine are unfolded by name only. *)
#[local] Arguments get : simpl never.
#[local] Arguments getOpt : simpl never.
#[local] Arguments hasRegularCaptureFrom : simpl never.
#[local] Arguments hasKingCaptureFrom : simpl never.
#[local] Arguments hasCaptureFrom : simpl never.
#[local] Arguments getAllPlayerPieces : simpl never.
#[local] Arguments playerHasAnyCapture : simpl never.
#[local] Arguments isValidKingMove : simpl never.
#[local] Arguments isCaptureMove : simpl never.
#[local] Arguments moveRules : simpl never.
#[local] Arguments isValidMove : simpl never.
#[local] Arguments applyMove : simpl never.
#[local] Arguments isSimpleMoveAttempt : simpl never.
#[local] Arguments makeMove : simpl never.

(** ** Basic facts *)

Lemma elem_of_range (lo hi x : Z) : x ∈ range lo hi ↔ lo ≤ x < hi.
Proof.
  unfold range. rewrite list_elem_of_fmap. split.
  - intros (k & -> & Hk). apply elem_of_seq in Hk. lia.
  - intros H. exists (Z.to_nat (x - lo)). split; [lia|].
    apply elem_of_seq. lia.
Qed.

Lemma range_nil (lo hi : Z) : hi ≤ lo → range lo hi = [].
Proof.
  intros H. unfold range. replace (Z.to_nat (hi - lo)) with O by lia. reflexivity.
Qed.

Lemma range_cons (lo hi : Z) : lo < hi → range lo hi = lo :: range (lo + 1) hi.
Proof.
  intros H. unfold range.
  replace (Z.to_nat (hi - lo)) with (S (Z.to_nat (hi - (lo + 1)))) by lia.
  cbn [seq map]. f_equal; [lia|].
  rewrite <- seq_shift, map_map. apply map_ext. intros k. lia.
Qed.

Lemma wfBoardb_spec (bd : Board) : wfBoardb bd = true → wfBoard bd.
Proof.
  unfold wfBoardb, wfBoard. intros H [r c]. apply andb_true_iff in H as [H1 H2].
  split.
  - intros [v Hv]. rewrite forallb_forall in H2.
    apply elem_of_map_to_list, list_elem_of_In in Hv.
    specialize (H2 _ Hv). by apply bool_decide_eq_true in H2.
  - intros [Hr Hc]. cbn in Hr, Hc. rewrite forallb_forall in H1.
    assert (Hin : ∀ x, 0 ≤ x < 8 → In x (range 0 8)).
    { intros x Hx. apply list_elem_of_In, elem_of_range. lia. }
    specialize (H1 r (Hin r Hr)). rewrite forallb_forall in H1.
    specialize (H1 c (Hin c Hc)). by apply bool_decide_eq_true in H1.
Qed.

Lemma wfBoard_insert (bd : Board) (k : Z * Z) (v : cell) :
  onBoard k → wfBoard bd → wfBoard (<[k := v]> bd).
Proof.
  intros Hk H sq. destruct (decide (k = sq)) as [->|Hne].
  - rewrite lookup_insert_eq. split; eauto.
  - rewrite lookup_insert_ne by done. apply H.
Qed.

Lemma wfBoard_lookup (bd : Board) (r c : Z) :
  wfBoard bd → 0 ≤ r < 8 → 0 ≤ c < 8 → ∃ v, bd !! (r, c) = Some v.
Proof. intros H Hr Hc. by apply (H (r, c)). Qed.

Lemma wfBoard_onBoard (bd : Board) (r c : Z) (v : cell) :
  wfBoard bd → bd !! (r, c) = Some v → 0 ≤ r < 8 ∧ 0 ≤ c < 8.
Proof. intros H Hv. apply (H (r, c)). eauto. Qed.

Lemma createInitialBoard_wf : wfBoard createInitialBoard.
Proof. apply wfBoardb_spec. vm_compute. reflexivity. Qed.

Lemma hasRow_true (r : Z) : hasRow r = true ↔ 0 ≤ r < 8.
Proof. unfold hasRow. apply bool_decide_eq_true. Qed.


Lemma offBoard_false (x : Z) : offBoard x = false ↔ 0 ≤ x < 8.
Proof.
  unfold offBoard. rewrite orb_false_iff, !bool_decide_eq_false. lia.
Qed.

Lemma get_int (bd : Board) (r c : Z) :
  0 ≤ r < 8 → get bd r c = Ok (bd !! (r, c)).
Proof.
  intros H. unfold get, rowAt. apply hasRow_true in H. by rewrite H.
Qed.

Lemma getOpt_int (bd : Board) (r c : Z) :
  0 ≤ r < 8 → getOpt bd r c = bd !! (r, c).
Proof.
  intros H. unfold getOpt, rowAt. apply hasRow_true in H. by rewrite H.
Qed.

(** A truthy read comes from a row of the board, at integer keys. *)
Lemma getOpt_truthy (bd : Board) (r c : coord) (piece : sym) :
  truthy (getOpt bd r c) = Some piece →
  ∃ zr zc : Z, r = Int zr ∧ c = Int zc ∧ 0 ≤ zr < 8 ∧ bd !! (zr, zc) = Some (Str piece).
Proof.
  unfold getOpt, rowAt. destruct r as [zr|]; [|done].
  destruct (hasRow zr) eqn:Hr; [|done]. apply hasRow_true in Hr.
  destruct c as [zc|]; [|done]. intros H. exists zr, zc.
  destruct (bd !! (zr, zc)) as [[|s]|] eqn:E; simplify_eq/=. done.
Qed.

(** A read that gives [null] comes from a row of the board, at integer keys. *)
Lemma get_null (bd : Board) (r c : coord) (dest : option cell) :
  get bd r c = Ok dest → isNull dest = true →
  ∃ zr zc : Z, r = Int zr ∧ c = Int zc ∧ 0 ≤ zr < 8 ∧ bd !! (zr, zc) = Some Null.
Proof.
  unfold get, rowAt, isNull. destruct r as [zr|]; [|done].
  destruct (hasRow zr) eqn:Hr; [|done]. apply hasRow_true in Hr.
  intros [= <-] H. apply bool_decide_eq_true in H.
  destruct c as [zc|]; [|done]. by exists zr, zc.
Qed.

(** The last [match] of [isValidMove] is entered with integer coordinates:
    its other branch is never taken. *)
Lemma isValidMove_reads_integers (bd : Board) (fr fc tr tc : coord)
    (piece : sym) (dest : option cell) :
  truthy (getOpt bd fr fc) = Some piece →
  get bd tr tc = Ok dest → isNull dest = true →
  ∃ a b c d : Z, fr = Int a ∧ fc = Int b ∧ tr = Int c ∧ tc = Int d.
Proof.
  intros Hp Hd Hn.
  destruct (getOpt_truthy _ _ _ _ Hp) as (a & b & -> & -> & _).
  destruct (get_null _ _ _ _ Hd Hn) as (c & d & -> & -> & _).
  by exists a, b, c, d.
Qed.

(** ** Chain enforcement *)

(** C4. Once [mustContinueFrom] is set to a square, [isValidMove] returns
    false for every move whose [from] is not that square, whatever the
    colour and the shape of the move (and whatever coordinates it has). *)
Theorem chain_enforcement (game : Game) (from to : Pos) (playerColor : sym)
    (m : Z * Z) :
  game.(mustContinueFrom) = Some m →
  from ≠ {| row := m.1; col := m.2 |} →
  isValidMove game from to playerColor = Ok false.
Proof.
  intros Hm Hne. unfold isValidMove. rewrite Hm.
  assert (Hat : notAt m from.(row) from.(col) = true).
  { unfold notAt, strictEq. destruct from as [fr fc]. cbn.
    destruct (decide (Int m.1 = fr)) as [<-|H1];
      destruct (decide (Int m.2 = fc)) as [<-|H2];
      rewrite ?bool_decide_eq_true_2, ?bool_decide_eq_false_2 by done;
      try reflexivity.
    by destruct Hne. }
  rewrite Hat.
  repeat (first [reflexivity | head_case]).
Qed.

Lemma chain_enforcement_witness :
  isValidMove (playingGame createInitialBoard Sw (Some (5, 2)))
    {| row := 5; col := 0 |} {| row := 4; col := 1 |} Sw = Ok false.
Proof.
  apply (chain_enforcement _ _ _ _ (5, 2)); [reflexivity | discriminate].
Defined.

(** ** Malformed coordinates *)

(** C5, at the failing input. The game has started, white moves its man at
    (5,0), and the destination has no [row] and no [col]: the bounds test of
    line 230 lets [undefined] through, and [board[tr][tc]] at line 242
    throws a [TypeError], where the specification has every malformed input
    resolve to a boolean. *)
Theorem isValidMove_throws_on_missing_row :
  isValidMove startedGame {| row := 5; col := 0 |}
    {| row := Missing; col := Missing |} Sw = TypeError.
Proof. vm_compute. reflexivity. Qed.

(** The error escapes the handler as well. *)
Lemma makeMove_throws_on_missing_row :
  (makeMove startedGame {| row := 5; col := 0 |}
     {| row := Missing; col := Missing |} Sw).2 = TypeError.
Proof. vm_compute. reflexivity. Qed.

(** The throw needs a missing destination row: whenever the destination row
    is an integer, the tests before the mandatory capture rule return
    without an error. *)
Lemma get_checked (bd : Board) (tr tc : coord) :
  tr ≠ Missing →
  (jsLt tr 0 || jsGe tr 8 || jsLt tc 0 || jsGe tc 8) = false →
  ∃ dest, get bd tr tc = Ok dest.
Proof.
  intros Htr H. destruct tr as [ztr|]; [|done].
  rewrite !orb_false_iff in H. destruct H as [[[H1 H2] _] _].
  cbn in H1, H2. apply bool_decide_eq_false in H1, H2.
  unfold get, rowAt. replace (hasRow ztr) with true; [eauto|].
  symmetry. apply hasRow_true. lia.
Qed.

(** A request the handler rejects leaves the game as it was. *)
Lemma makeMove_reject_unchanged (game : Game) (from to : Pos) (playerColor : sym) :
  isValidMove game from to playerColor ≠ Ok true →
  (makeMove game from to playerColor).1 = game.
Proof.
  intros H. unfold makeMove.
  destruct (isValidMove game from to playerColor) as [[|]| |]; try done.
  repeat case_match; reflexivity.
Qed.

(** ** The engine returns on well-formed boards *)

Lemma anyM_total {A : Type} (f : A → res bool) (l : list A) :
  (∀ x, x ∈ l → ∃ b, f x = Ok b) → ∃ b, anyM f l = Ok b.
Proof.
  induction l as [|x l IH]; intros H; cbn; [eauto|].
  destruct (H x) as [b Hb]; [left|]. rewrite Hb. cbn.
  destruct b; [eauto|]. apply IH. intros y Hy. apply H. by right.
Qed.


(** A loop whose body does not fail computes [existsb]. *)
Lemma anyM_pure {A : Type} (f : A → res bool) (p : A → bool) (l : list A) :
  (∀ x, x ∈ l → f x = Ok (p x)) → anyM f l = Ok (existsb p l).
Proof.
  induction l as [|x l IH]; intros H; cbn; [done|].
  rewrite (H x) by left. cbn. destruct (p x); [done|].
  apply IH. intros y Hy. apply H. by right.
Qed.

Lemma collectM_total {A B : Type} (f : A → res (list B)) (l : list A) :
  (∀ x, x ∈ l → ∃ ys, f x = Ok ys) → ∃ zs, collectM f l = Ok zs.
Proof.
  induction l as [|x l IH]; intros H; cbn; [eauto|].
  destruct (H x) as [ys Hys]; [left|]. rewrite Hys. cbn.
  destruct IH as [zs Hzs]; [intros y Hy; apply H; by right|].
  rewrite Hzs. cbn. eauto.
Qed.

Lemma kingScan_S (n : nat) (board : Board) (piece : option cell)
    (row col dr dc distance : Z) (foundEnemy : bool) :
  kingScan (S n) board piece row col dr dc distance foundEnemy =
    let checkR := row + dr * distance in
    let checkC := col + dc * distance in
    if offBoard checkR || offBoard checkC then Ok false
    else
      checkPiece ← get board checkR checkC;
      if isNull checkPiece then
        if foundEnemy then Ok true
        else kingScan n board piece row col dr dc (distance + 1) foundEnemy
      else
        c ← lower checkPiece;
        p ← lower piece;
        if bool_decide (c = p) then Ok false
        else if foundEnemy then Ok false
        else kingScan n board piece row col dr dc (distance + 1) true.
Proof. reflexivity. Qed.

#[local] Arguments kingScan : simpl never.


Lemma in_directions (dr dc : Z) :
  (dr, dc) ∈ directions → (dr = 1 ∨ dr = -1) ∧ (dc = 1 ∨ dc = -1).
Proof.
  unfold directions. rewrite !elem_of_cons, elem_of_nil.
  intros [H|[H|[H|[H|[]]]]]; inversion H; lia.
Qed.


Lemma kingScan_total (bd : Board) (s : sym) (row col dr dc : Z) :
  wfBoard bd → 0 ≤ row < 8 → dr = 1 ∨ dr = -1 →
  ∀ (n : nat) (distance : Z) (foundEnemy : bool),
    1 ≤ distance → 8 ≤ distance + Z.of_nat n →
    ∃ b, kingScan (S n) bd (Some (Str s)) row col dr dc distance foundEnemy = Ok b.
Proof.
  intros Hwf Hrow Hdr n. induction n as [|n IH]; intros distance found Hd Hn;
    rewrite kingScan_S; cbn zeta.
  - destruct (offBoard (row + dr * distance)) eqn:E; [cbn; eauto|].
    apply offBoard_false in E. lia.
  - destruct (offBoard (row + dr * distance) || offBoard (col + dc * distance))
      eqn:E; [eauto|].
    apply orb_false_iff in E as [E1 E2]. apply offBoard_false in E1, E2.
    rewrite get_int by done.
    destruct (wfBoard_lookup bd _ _ Hwf E1 E2) as [v ->]. cbn.
    destruct v as [|c]; cbn.
    + destruct found; [eauto|]. apply IH; lia.
    + destruct (bool_decide (toLowerCase c = toLowerCase s)); [eauto|].
      destruct found; [eauto|]. apply IH; lia.
Qed.

Section Total.
Context (game : Game) (Hwf : wfBoard game.(board)).

Lemma hasKingCaptureFrom_total (row col : Z) (s : sym) :
  game.(board) !! (row, col) = Some (Str s) →
  ∃ b, hasKingCaptureFrom game row col = Ok b.
Proof using Hwf.
  intros Hs. destruct (wfBoard_onBoard _ _ _ _ Hwf Hs) as [Hr Hc].
  unfold hasKingCaptureFrom. rewrite get_int, Hs by done. cbn -[anyM].
  apply anyM_total. intros [dr dc] Hin. apply in_directions in Hin as [Hdr _].
  apply kingScan_total; [done..|lia|cbn; lia].
Qed.

Lemma hasRegularCaptureFrom_total (row col : Z) (s : sym) :
  game.(board) !! (row, col) = Some (Str s) →
  ∃ b, hasRegularCaptureFrom game row col = Ok b.
Proof using Hwf.
  intros Hs. destruct (wfBoard_onBoard _ _ _ _ Hwf Hs) as [Hr Hc].
  unfold hasRegularCaptureFrom. rewrite get_int, Hs by done. cbn -[anyM].
  apply anyM_total. intros [dr dc] _.
  destruct (_ || _) eqn:E; [eauto|].
  rewrite !orb_false_iff in E. destruct E as [[[E1 E2] E3] E4].
  apply offBoard_false in E1, E2, E3, E4.
  rewrite !get_int by done. cbn.
  destruct (game.(board) !! (row + dr, col + dc)) as [[|m]|]; cbn; eauto.
  destruct (isNull _); cbn; [|eauto].
  destruct (bool_decide _); eauto.
Qed.

Lemma hasCaptureFrom_total (row col : Z) :
  ∃ b, hasCaptureFrom game row col = Ok b.
Proof using Hwf.
  unfold hasCaptureFrom.
  destruct (truthy (getOpt game.(board) row col)) as [piece|] eqn:E; [|eauto].
  apply getOpt_truthy in E as (zr & zc & [= <-] & [= <-] & _ & Hs).
  destruct (isUpper piece);
    eauto using hasKingCaptureFrom_total, hasRegularCaptureFrom_total.
Qed.

Lemma getAllPlayerPieces_total (color : sym) :
  ∃ pieces, getAllPlayerPieces game.(board) color = Ok pieces.
Proof.
  unfold getAllPlayerPieces. apply collectM_total. intros row Hrow.
  apply elem_of_range in Hrow. apply collectM_total. intros col _.
  rewrite get_int by done. cbn. eauto.
Qed.

Lemma playerHasAnyCapture_total (playerColor : sym) :
  ∃ b, playerHasAnyCapture game playerColor = Ok b.
Proof using Hwf.
  unfold playerHasAnyCapture.
  destruct game.(mustContinueFrom) as [[r c]|]; [apply hasCaptureFrom_total|].
  destruct (getAllPlayerPieces_total playerColor) as [pieces ->]. cbn.
  apply anyM_total. intros [[row col] p] _. apply hasCaptureFrom_total.
Qed.
End Total.

(** ** What [isValidMove] decides *)

Lemma strictEq_int (a b : Z) : strictEq a b = bool_decide (a = b).
Proof.
  unfold strictEq. destruct (decide (a = b)) as [->|H].
  - by rewrite !bool_decide_eq_true_2.
  - rewrite !bool_decide_eq_false_2; [done..|]. intros [=]. done.
Qed.

Lemma bounds_int (tr tc : Z) :
  (jsLt tr 0 || jsGe tr 8 || jsLt tc 0 || jsGe tc 8) = false ↔ onBoard (tr, tc).
Proof.
  unfold onBoard. cbn. rewrite !orb_false_iff, !bool_decide_eq_false. lia.
Qed.

(** Under the preconditions, [isValidMove] is the mandatory capture rule
    followed by the rules of the piece. *)
Lemma isValidMove_pre (game : Game) (fr fc tr tc : Z) (color piece : sym) :
  preconditions game (fr, fc) (tr, tc) color piece →
  isValidMove game (mkPos fr fc) (mkPos tr tc) color =
    (isCapture ← isCaptureMove game.(board) piece (fr, fc) (tr, tc);
     forced ← (if negb isCapture then playerHasAnyCapture game color else Ok false);
     if (forced : bool) then Ok false
     else moveRules game (fr, fc) (tr, tc) piece isCapture).
Proof.
  intros (Hst & Hcp & Hne & Hto & [Hfr Hp] & Hlow & Hm & Hd).
  unfold isValidMove. cbn [row col].
  rewrite (bool_decide_eq_true_2 _ Hst), (bool_decide_eq_true_2 _ Hcp). cbn [negb].
  rewrite !strictEq_int.
  replace (bool_decide (fr = tr) && bool_decide (fc = tc)) with false; cycle 1.
  { symmetry. apply andb_false_iff.
    destruct (decide (fr = tr)) as [->|H1]; [right|left];
      apply bool_decide_eq_false; [|done]. intros ->. done. }
  apply bounds_int in Hto as Hto'. rewrite Hto'.
  cbn in Hfr. rewrite getOpt_int, Hp by done. cbn [truthy].
  rewrite (bool_decide_eq_true_2 _ Hlow). cbn [negb].
  replace (match mustContinueFrom game with Some m => _ | None => false end)
    with false; cycle 1.
  { destruct (mustContinueFrom game) as [m|] eqn:E; [|done].
    rewrite (Hm m eq_refl). unfold notAt. cbn.
    by rewrite !strictEq_int, !bool_decide_eq_true_2. }
  destruct Hto as [Htr Htc]. cbn in Htr, Htc.
  rewrite get_int, Hd by done. cbn. reflexivity.
Qed.

(** A move that [isValidMove] accepts has integer coordinates and meets
    the preconditions, the mandatory capture rule and the rules of the
    piece. *)
Lemma isValidMove_true (game : Game) (from to : Pos) (color : sym) :
  isValidMove game from to color = Ok true →
  ∃ (fr fc tr tc : Z) (piece : sym) (isCapture : bool),
    from = mkPos fr fc ∧ to = mkPos tr tc ∧
    preconditions game (fr, fc) (tr, tc) color piece ∧
    isCaptureMove game.(board) piece (fr, fc) (tr, tc) = Ok isCapture ∧
    (isCapture = false → playerHasAnyCapture game color = Ok false) ∧
    moveRules game (fr, fc) (tr, tc) piece isCapture = Ok true.
Proof.
  destruct from as [fr fc], to as [tr tc]. unfold isValidMove. cbn [row col].
  destruct (bool_decide (status game = playing)) eqn:Hst; cbn [negb]; [|done].
  destruct (bool_decide (currentPlayer game = color)) eqn:Hcp; cbn [negb]; [|done].
  destruct (strictEq fr tr && strictEq fc tc) eqn:Hne; [done|].
  destruct (jsLt tr 0 || jsGe tr 8 || jsLt tc 0 || jsGe tc 8) eqn:Hto; [done|].
  destruct (truthy (getOpt (board game) fr fc)) as [piece|] eqn:Hp; [|done].
  destruct (bool_decide (toLowerCase piece = color)) eqn:Hlow; cbn [negb]; [|done].
  destruct (match mustContinueFrom game with Some m => _ | None => false end)
    eqn:Hm; [done|].
  destruct (get (board game) tr tc) as [dest| |] eqn:Hd; cbn; [|done..].
  destruct (isNull dest) eqn:Hn; cbn [negb]; [|done].
  destruct (getOpt_truthy _ _ _ _ Hp) as (zfr & zfc & -> & -> & Hfr & Hpiece).
  destruct (get_null _ _ _ _ Hd Hn) as (ztr & ztc & -> & -> & Htr & Hdest).
  apply bool_decide_eq_true in Hst, Hcp, Hlow.
  rewrite !strictEq_int in Hne. apply bounds_int in Hto. cbv beta iota.
  destruct (isCaptureMove _ _ _ _) as [isCapture| |] eqn:Hcap; cbn; [|done..].
  intros H. exists zfr, zfc, ztr, ztc, piece, isCapture.
  split; [done|]. split; [done|]. split.
  { unfold preconditions. split_and!; try done; try (cbn; lia).
    - intros [= -> ->]. by rewrite !bool_decide_eq_true_2 in Hne.
    - intros m Hmm. rewrite Hmm in Hm. unfold notAt in Hm.
      rewrite !strictEq_int in Hm. apply orb_false_iff in Hm as [H1 H2].
      apply negb_false_iff, bool_decide_eq_true in H1, H2.
      destruct m; cbn in *; congruence. }
  split; [done|].
  destruct isCapture; cbn in H.
  - split; [done|]. done.
  - destruct (playerHasAnyCapture game color) as [[|]| |]; cbn in H; try done.
Qed.

(** For integer coordinates the converse holds as well. *)
Lemma isValidMove_true_iff (game : Game) (fr fc tr tc : Z) (color : sym) :
  isValidMove game (mkPos fr fc) (mkPos tr tc) color = Ok true ↔
  ∃ (piece : sym) (isCapture : bool),
    preconditions game (fr, fc) (tr, tc) color piece ∧
    isCaptureMove game.(board) piece (fr, fc) (tr, tc) = Ok isCapture ∧
    (isCapture = false → playerHasAnyCapture game color = Ok false) ∧
    moveRules game (fr, fc) (tr, tc) piece isCapture = Ok true.
Proof.
  split.
  - intros H. apply isValidMove_true in H
      as (a & b & c & d & piece & isCapture & [= <- <-] & [= <- <-] & H).
    by exists piece, isCapture.
  - intros (piece & isCapture & Hpre & Hcap & Hforced & Hrules).
    rewrite (isValidMove_pre _ _ _ _ _ _ _ Hpre), Hcap. cbn.
    destruct isCapture; cbn; [done|]. by rewrite Hforced.
Qed.

(** ** The classification of a move *)

(** The squares a king passes over lie between the rows of [from] and [to]. *)
Lemma between_rows (fr tr d : Z) :
  0 ≤ fr < 8 → 0 ≤ tr < 8 → 1 ≤ d < Z.abs (tr - fr) →
  0 ≤ fr + dirOf (tr - fr) * d < 8.
Proof. intros Hfr Htr Hd. unfold dirOf. case_bool_decide; lia. Qed.

Lemma isCaptureMove_king (bd : Board) (piece : sym) (fr fc tr tc : Z) :
  isUpper piece = true → 0 ≤ fr < 8 → 0 ≤ tr < 8 →
  isCaptureMove bd piece (fr, fc) (tr, tc) =
    Ok (existsb (enemyOnPath bd piece fr fc (dirOf (tr - fr)) (dirOf (tc - fc)))
          (range 1 (Z.abs (tr - fr)))).
Proof.
  intros Hk Hfr Htr. unfold isCaptureMove. rewrite Hk.
  apply anyM_pure. intros d Hd. apply elem_of_range in Hd.
  rewrite get_int by (by apply between_rows). reflexivity.
Qed.

Lemma isCaptureMove_man (bd : Board) (piece : sym) (fr fc tr tc : Z) :
  isUpper piece = false →
  isCaptureMove bd piece (fr, fc) (tr, tc) =
    Ok (bool_decide (Z.abs (tr - fr) = 2) && bool_decide (Z.abs (tc - fc) = 2)).
Proof. intros Hk. unfold isCaptureMove. by rewrite Hk. Qed.

Lemma isCaptureMove_total (bd : Board) (piece : sym) (fr fc tr tc : Z) :
  0 ≤ fr < 8 → 0 ≤ tr < 8 → ∃ b, isCaptureMove bd piece (fr, fc) (tr, tc) = Ok b.
Proof.
  intros Hfr Htr. destruct (isUpper piece) eqn:Hk.
  - rewrite isCaptureMove_king by done. eauto.
  - rewrite isCaptureMove_man by done. eauto.
Qed.

(** ** What [applyMove] changes *)

Lemma kingCapture_frame (bd : Board) (piece : sym) (fr fc dirR dirC : Z)
    (distances : list Z) (bd' : Board) (r : res bool) :
  kingCapture bd piece fr fc dirR dirC distances = (bd', r) →
  ∀ sq, bd' !! sq = bd !! sq ∨ bd' !! sq = Some Null.
Proof.
  induction distances as [|d rest IH]; cbn; intros H sq.
  - left. congruence.
  - destruct (get bd _ _) as [v| |]; [|left; congruence..].
    destruct (truthy v) as [c|]; [|by apply IH].
    destruct (negb _); [|by apply IH].
    injection H as <- <-.
    destruct (decide ((fr + dirR * d, fc + dirC * d) = sq)) as [<-|Hne].
    + right. apply lookup_insert_eq.
    + left. by apply lookup_insert_ne.
Qed.

(** [applyMove] never touches [status] and [winner]. *)
Lemma applyMove_status_winner (game : Game) (from to : Z * Z) :
  (applyMove game from to).1.(status) = game.(status) ∧
  (applyMove game from to).1.(winner) = game.(winner).
Proof.
  unfold applyMove. destruct from as [fr fc], to as [tr tc].
  repeat case_match; done.
Qed.

Lemma makeMove_status_winner (game : Game) (from to : Pos) (color : sym) :
  (makeMove game from to color).1.(status) = game.(status) ∧
  (makeMove game from to color).1.(winner) = game.(winner).
Proof.
  unfold makeMove.
  destruct (isValidMove game from to color) as [[|]| |]; try done.
  - destruct (square from) as [f|]; [|done]. destruct (square to) as [t|]; [|done].
    pose proof (applyMove_status_winner game f t) as H.
    by destruct (applyMove game f t).
  - repeat case_match; done.
Qed.

(** ** Winner never set *)

(** C9. Starting from [createNewGame], no sequence of calls of the engine
    assigns a winner or sets [status] to ["finished"]: [winner] stays
    [null], and [status] is ["waiting"] or, once the session layer has set
    it, ["playing"]. *)
Theorem winner_never_set (game : Game) :
  engineRun game → game.(winner) = None ∧ game.(status) ≠ finished.
Proof.
  induction 1 as [|g _ [IHw IHs]|g from to _ [IHw IHs]|g from to color _ [IHw IHs]].
  - done.
  - done.
  - destruct (applyMove_status_winner g from to) as [-> ->]. done.
  - destruct (makeMove_status_winner g from to color) as [-> ->]. done.
Qed.

Lemma winner_never_set_witness :
  let game := (applyMove (startPlaying createNewGame) (5, 0) (4, 1)).1 in
  game.(winner) = None ∧ game.(status) ≠ finished.
Proof.
  apply winner_never_set. apply run_applyMove, run_join, run_new.
Defined.

(** The king branch of [applyMove] removes the first enemy piece on the
    path, if there is one. *)
Lemma kingCapture_spec (bd : Board) (piece : sym) (fr fc dirR dirC : Z)
    (distances : list Z) :
  (∀ d, d ∈ distances → 0 ≤ fr + dirR * d < 8) →
  (existsb (enemyOnPath bd piece fr fc dirR dirC) distances = false ∧
   kingCapture bd piece fr fc dirR dirC distances = (bd, Ok false)) ∨
  (∃ d0, d0 ∈ distances ∧ enemyOnPath bd piece fr fc dirR dirC d0 = true ∧
         existsb (enemyOnPath bd piece fr fc dirR dirC) distances = true ∧
         kingCapture bd piece fr fc dirR dirC distances =
           (<[(fr + dirR * d0, fc + dirC * d0) := Null]> bd, Ok true)).
Proof.
  induction distances as [|d rest IH]; intros Hrows; cbn [kingCapture existsb].
  - by left.
  - rewrite get_int by (apply Hrows; left).
    destruct (enemyOnPath bd piece fr fc dirR dirC d) eqn:E.
    + right. exists d. split; [left|]. split; [done|]. split; [done|].
      unfold enemyOnPath in E.
      destruct (truthy (bd !! (fr + dirR * d, fc + dirC * d))) as [c|]; [|done].
      by rewrite E.
    + destruct IH as [[Hex Hk]|(d0 & Hin & Hen & Hex & Hk)].
      * intros d' Hd'. apply Hrows. by right.
      * left. split; [done|]. unfold enemyOnPath in E.
        destruct (truthy (bd !! (fr + dirR * d, fc + dirC * d))) as [c|];
          [by rewrite E|done].
      * right. exists d0. split; [by right|]. split; [done|]. split; [done|].
        unfold enemyOnPath in E.
        destruct (truthy (bd !! (fr + dirR * d, fc + dirC * d))) as [c|];
          [by rewrite E|done].
Qed.

Lemma hasCaptureFrom_board (g1 g2 : Game) (row col : Z) :
  g1.(board) = g2.(board) → hasCaptureFrom g1 row col = hasCaptureFrom g2 row col.
Proof.
  intros H. unfold hasCaptureFrom, hasKingCaptureFrom, hasRegularCaptureFrom.
  by rewrite H.
Qed.

Lemma landed_board (bd : Board) (tr tc : Z) (piece : sym) :
  (let board := <[(tr, tc) := Str piece]> bd in
   let board :=
     if bool_decide (piece = Sw) && bool_decide (tr = 0)
     then <[(tr, tc) := Str SW]> board else board in
   if bool_decide (piece = Sb) && bool_decide (tr = 7)
   then <[(tr, tc) := Str SB]> board else board)
  = <[(tr, tc) := Str (landed piece tr)]> bd.
Proof.
  unfold landed. cbv zeta.
  destruct (bool_decide (piece = Sw) && bool_decide (tr = 0)) eqn:E1;
    destruct (bool_decide (piece = Sb) && bool_decide (tr = 7)) eqn:E2;
    rewrite ?insert_insert_eq; try done.
  apply andb_true_iff in E1 as [E1 _], E2 as [E2 _].
  apply bool_decide_eq_true in E1, E2. congruence.
Qed.

(** The midpoint of a jump of two rows and two columns. *)
Lemma midpoint (f t : Z) :
  Z.abs (t - f) = 2 →
  f + (t - f) `div` 2 ≠ f ∧ f + (t - f) `div` 2 ≠ t ∧
  (0 ≤ f < 8 → 0 ≤ t < 8 → 0 ≤ f + (t - f) `div` 2 < 8).
Proof.
  intros H. assert (t - f = 2 ∨ t - f = -2) as [E|E] by lia; rewrite E.
  - change (2 `div` 2) with 1. lia.
  - change ((-2) `div` 2) with (-1). lia.
Qed.

(** The effect of [applyMove] on a move that [isValidMove] accepts, on a
    well-formed board: the call returns; the square [from] is emptied, one
    enemy piece is removed when [didCapture] is set, and the piece lands on
    [to]; the chain goes on when [didCapture] is set and a capture is
    available from [to], and the turn passes otherwise. *)
Lemma applyMove_valid (game : Game) (fr fc tr tc : Z) (color : sym) :
  wfBoard game.(board) →
  isValidMove game (mkPos fr fc) (mkPos tr tc) color = Ok true →
  ∃ (piece : sym) (bd1 : Board) (didCapture b : bool),
    preconditions game (fr, fc) (tr, tc) color piece ∧
    ((didCapture = true ∧
      ∃ e, enemyAt game.(board) piece e ∧ e ≠ (fr, fc) ∧ e ≠ (tr, tc) ∧
           bd1 = <[e := Null]> (<[(fr, fc) := Null]> game.(board)))
     ∨ (didCapture = false ∧ bd1 = <[(fr, fc) := Null]> game.(board))) ∧
    wfBoard (<[(tr, tc) := Str (landed piece tr)]> bd1) ∧
    hasCaptureFrom
      (withBoard game (<[(tr, tc) := Str (landed piece tr)]> bd1)) tr tc = Ok b ∧
    applyMove game (fr, fc) (tr, tc) =
      ({| board := <[(tr, tc) := Str (landed piece tr)]> bd1;
          currentPlayer :=
            if didCapture && b then game.(currentPlayer)
            else nextPlayer game.(currentPlayer);
          status := game.(status);
          winner := game.(winner);
          mustContinueFrom := if didCapture && b then Some (tr, tc) else None |},
       Ok ()).
Proof.
  intros Hwf Hvalid.
  apply isValidMove_true_iff in Hvalid
    as (piece & isCapture & Hpre & Hcap & Hforced & Hrules).
  pose proof Hpre as (Hst & Hcp & Hne & [Htr Htc] & [Hfr Hp] & Hlow & Hm & Hd).
  cbn in Htr, Htc, Hfr.
  destruct (wfBoard_onBoard _ _ _ _ Hwf Hp) as [_ Hfc].
  set (bd0 := <[(fr, fc) := Null]> (board game)).
  assert (Hwf0 : wfBoard bd0) by (apply wfBoard_insert; [split; cbn; lia|done]).
  (* the capture step *)
  assert (Hstep : ∃ (bd1 : Board) (didCapture : bool),
    ((didCapture = true ∧
      ∃ e, enemyAt game.(board) piece e ∧ e ≠ (fr, fc) ∧ e ≠ (tr, tc) ∧
           bd1 = <[e := Null]> bd0)
     ∨ (didCapture = false ∧ bd1 = bd0)) ∧
    (if isUpper piece then
       kingCapture bd0 piece fr fc (dirOf (tr - fr)) (dirOf (tc - fc))
         (range 1 (Z.abs (tr - fr)))
     else
       if bool_decide (Z.abs (tr - fr) = 2) && bool_decide (Z.abs (tc - fc) = 2)
       then
         match setCell bd0 (fr + (tr - fr) `div` 2) (fc + (tc - fc) `div` 2) Null with
         | Ok board' => (board', Ok true)
         | TypeError => (bd0, TypeError)
         | OutOfFuel => (bd0, OutOfFuel)
         end
       else (bd0, Ok false)) = (bd1, Ok didCapture)).
  { destruct (isUpper piece) eqn:Hk.
    - destruct (kingCapture_spec bd0 piece fr fc (dirOf (tr - fr)) (dirOf (tc - fc))
                  (range 1 (Z.abs (tr - fr))))
        as [[_ Hkc]|(d0 & Hin & Hen & _ & Hkc)].
      + intros d Hd'. apply elem_of_range in Hd'. by apply between_rows.
      + exists bd0, false. split; [by right|done].
      + eexists _, true. split; [|exact Hkc]. left. split; [done|].
        eexists. split_and!; [| | |reflexivity].
        * unfold enemyOnPath in Hen.
          destruct (bd0 !! _) as [[|c]|] eqn:Hc; cbn in Hen; try done.
          exists c. apply negb_true_iff, bool_decide_eq_false in Hen.
          split; [|done]. unfold bd0 in Hc.
          rewrite lookup_insert in Hc. by case_decide.
        * intros Heq. unfold enemyOnPath in Hen. rewrite Heq in Hen.
          unfold bd0 in Hen. by rewrite lookup_insert_eq in Hen.
        * intros Heq. unfold enemyOnPath in Hen. rewrite Heq in Hen.
          unfold bd0 in Hen. rewrite lookup_insert_ne, Hd in Hen; done.
    - rewrite isCaptureMove_man in Hcap by done. injection Hcap as <-.
      destruct (bool_decide (Z.abs (tr - fr) = 2) && bool_decide (Z.abs (tc - fc) = 2))
        eqn:Hjump.
      + apply andb_true_iff in Hjump as [Hjr Hjc].
        apply bool_decide_eq_true in Hjr, Hjc.
        destruct (midpoint fr tr Hjr) as (Hm1 & Hm2 & Hm3).
        unfold moveRules in Hrules. rewrite Hk in Hrules.
        cbn in Hrules.
        destruct (truthy (getOpt _ _ _)) as [midPiece|] eqn:Hmid; [|done].
        apply getOpt_truthy in Hmid as (a & c & [= <-] & [= <-] & Hmr & Hmp).
        destruct (bool_decide (toLowerCase midPiece = toLowerCase piece)) eqn:Hmc;
          [done|]. apply bool_decide_eq_false in Hmc.
        unfold setCell. replace (hasRow _) with true
          by (symmetry; by apply hasRow_true).
        eexists _, true. split; [|reflexivity]. left. split; [done|].
        eexists. split_and!; [| | |reflexivity].
        * by exists midPiece.
        * intros [= H1 H2]. done.
        * intros Heq. rewrite Heq in Hmp. congruence.
      + exists bd0, false. split; [by right|done]. }
  destruct Hstep as (bd1 & didCapture & Hbd1 & Hstep).
  assert (Hwf1 : wfBoard bd1).
  { destruct Hbd1 as [(_ & e & (c & He & _) & _ & _ & ->)|[_ ->]]; [|done].
    apply wfBoard_insert; [|done]. apply (Hwf e). eauto. }
  assert (Hwf2 : wfBoard (<[(tr, tc) := Str (landed piece tr)]> bd1))
    by (apply wfBoard_insert; [split; cbn; lia|done]).
  destruct (hasCaptureFrom_total
              (withBoard game (<[(tr, tc) := Str (landed piece tr)]> bd1))
              Hwf2 tr tc) as [b Hb].
  exists piece, bd1, didCapture, b.
  split; [done|]. split; [done|]. split; [done|]. split; [done|].
  unfold applyMove. rewrite get_int, Hp by done. fold bd0.
  cbv zeta. rewrite Hstep. unfold setCell.
  replace (hasRow tr) with true by (symmetry; by apply hasRow_true).
  pose proof (landed_board bd1 tr tc piece) as Hland. cbv zeta in Hland.
  rewrite Hland.
  destruct didCapture; cbn [andb].
  - rewrite Hb. by destruct b.
  - reflexivity.
Qed.

(** ** Turn invariant *)

Lemma lower_idem (s : sym) : toLowerCase s = Sw ∨ toLowerCase s = Sb.
Proof. destruct s; cbn; auto. Qed.

(** X23. The turn invariant for moves between squares: for every move with
    integer coordinates that [isValidMove] accepts on a full grid,
    [applyMove] returns and either (a) leaves [currentPlayer] unchanged and
    sets [mustContinueFrom] to the landing square, or (b) flips
    [currentPlayer] to the other colour and clears [mustContinueFrom];
    exactly one of the two holds, and (a) holds if and only if the move
    captured a piece and a further capture is available from the landing
    square.  (Not so when the destination is given by strings: see the
    moves of [Raw] further down.) *)
Theorem turn_invariant (game : Game) (fr fc tr tc : Z) (color : sym) :
  wfBoard game.(board) →
  isValidMove game (mkPos fr fc) (mkPos tr tc) color = Ok true →
  ∃ game',
    applyMove game (fr, fc) (tr, tc) = (game', Ok ()) ∧
    (chainContinues game game' (tr, tc) ∨ turnPasses game game') ∧
    ¬ (chainContinues game game' (tr, tc) ∧ turnPasses game game') ∧
    (chainContinues game game' (tr, tc) ↔
       capturedPiece game game' ∧ hasCaptureFrom game' tr tc = Ok true).
Proof.
  intros Hwf Hvalid.
  destruct (applyMove_valid _ _ _ _ _ _ Hwf Hvalid)
    as (piece & bd1 & didCapture & b & Hpre & Hbd1 & _ & Hb & Happly).
  destruct Hpre as (_ & Hcp & Hne & _ & [_ Hp] & Hlow & _ & Hd).
  eexists. split; [exact Happly|].
  set (game' := {| board := <[(tr, tc) := Str (landed piece tr)]> bd1 |}).
  assert (Hb' : hasCaptureFrom game' tr tc = Ok b).
  { rewrite <- Hb. by apply hasCaptureFrom_board. }
  assert (Hcaptured : capturedPiece game game' ↔ didCapture = true).
  { unfold capturedPiece. cbn [board game'].
    destruct Hbd1 as [(-> & e & (c & He & Hc) & Hef & Het & ->)|[-> ->]].
    - split; [done|]. intros _. exists e, c. split; [done|]. split; [congruence|].
      rewrite lookup_insert_ne by done. apply lookup_insert_eq.
    - split; [|done]. intros (sq & e & He & Hec & Hnull).
      destruct (decide ((tr, tc) = sq)) as [<-|Hto].
      { by rewrite lookup_insert_eq in Hnull. }
      rewrite lookup_insert_ne in Hnull by done.
      destruct (decide ((fr, fc) = sq)) as [<-|Hfrom].
      { rewrite Hp in He. injection He as <-. congruence. }
      rewrite lookup_insert_ne in Hnull by done. congruence. }
  assert (Hcont : chainContinues game game' (tr, tc) ↔ didCapture && b = true).
  { unfold chainContinues. cbn [currentPlayer mustContinueFrom game'].
    destruct (didCapture && b).
    - done.
    - split; [|done]. intros [_ [=]]. }
  assert (Hpass : didCapture && b = false → turnPasses game game').
  { intros E. unfold turnPasses. cbn [currentPlayer mustContinueFrom game'].
    rewrite E. split; [|done]. unfold nextPlayer.
    destruct (lower_idem piece) as [Hw|Hbk].
    - left. split; [congruence|]. rewrite bool_decide_eq_true_2; congruence.
    - right. split; [congruence|]. rewrite bool_decide_eq_false_2; congruence. }
  split_and!.
  - destruct (didCapture && b) eqn:E; [left; by apply Hcont|right; by apply Hpass].
  - intros [[_ Hc] [_ Hn]]. congruence.
  - rewrite Hcont, Hcaptured, Hb', andb_true_iff.
    split; intros [H1 H2]; split; congruence.
Qed.

Lemma turn_invariant_witness :
  ∃ game',
    applyMove scenarioB (4, 4) (2, 2) = (game', Ok ()) ∧
    (chainContinues scenarioB game' (2, 2) ∨ turnPasses scenarioB game') ∧
    ¬ (chainContinues scenarioB game' (2, 2) ∧ turnPasses scenarioB game') ∧
    (chainContinues scenarioB game' (2, 2) ↔
       capturedPiece scenarioB game' ∧ hasCaptureFrom game' 2 2 = Ok true).
Proof.
  apply (turn_invariant scenarioB 4 4 2 2 Sw).
  - apply wfBoardb_spec. vm_compute. reflexivity.
  - vm_compute. reflexivity.
Defined.

(** ** The cells after [applyMove] *)

Lemma get_ok (bd : Board) (r c : Z) (v : option cell) :
  get bd r c = Ok v → 0 ≤ r < 8 ∧ v = bd !! (r, c).
Proof.
  unfold get, rowAt. destruct (hasRow r) eqn:H; [|done].
  apply hasRow_true in H. by intros [= <-].
Qed.

(** Whatever the move and however the call ends, a cell after [applyMove]
    is the cell before, or [null], or, on the landing square, the piece
    that stood on [from] (crowned when a man lands on its far row). *)
Lemma applyMove_cells (game : Game) (from to sq : Z * Z) :
  let game' := (applyMove game from to).1 in
  game'.(board) !! sq = game.(board) !! sq ∨
  game'.(board) !! sq = Some Null ∨
  (sq = to ∧ ∃ piece, game.(board) !! from = Some (Str piece) ∧
                       game'.(board) !! sq = Some (Str (landed piece to.1))).
Proof.
  destruct from as [fr fc], to as [tr tc]. cbv zeta. unfold applyMove.
  destruct (get (board game) fr fc) as [v| |] eqn:Hget; [|by left..].
  apply get_ok in Hget as [Hfr ->].
  set (bd0 := <[(fr, fc) := Null]> (board game)).
  assert (H0 : ∀ sq, bd0 !! sq = board game !! sq ∨ bd0 !! sq = Some Null).
  { intros sq'. unfold bd0. rewrite lookup_insert. case_decide; auto. }
  destruct (board game !! (fr, fc)) as [[|piece]|] eqn:Hp;
    [cbn; destruct (H0 sq); auto| |cbn; destruct (H0 sq); auto].
  match goal with
  | |- context [let '(_, _) := ?X in _] => destruct X as [bd1 captured] eqn:Hstep
  end.
  assert (H1 : ∀ sq, bd1 !! sq = board game !! sq ∨ bd1 !! sq = Some Null).
  { intros sq'. destruct (isUpper piece).
    - destruct (kingCapture_frame _ _ _ _ _ _ _ _ _ Hstep sq') as [->| ->]; auto.
    - destruct (_ && _).
      + unfold setCell in Hstep. destruct (hasRow _); injection Hstep as <- <-; auto.
        rewrite lookup_insert. case_decide; auto.
      + injection Hstep as <- <-. auto. }
  destruct captured as [didCapture| |]; [|cbn; destruct (H1 sq); auto..].
  unfold setCell. destruct (hasRow tr); [|cbn; destruct (H1 sq); auto].
  pose proof (landed_board bd1 tr tc piece) as Hland. cbv zeta in Hland.
  rewrite Hland.
  assert (H2 : <[(tr, tc) := Str (landed piece tr)]> bd1 !! sq = board game !! sq ∨
               <[(tr, tc) := Str (landed piece tr)]> bd1 !! sq = Some Null ∨
               (sq = (tr, tc) ∧ ∃ piece0, Some (Str piece) = Some (Str piece0) ∧
                  <[(tr, tc) := Str (landed piece tr)]> bd1 !! sq
                  = Some (Str (landed piece0 (tr, tc).1)))).
  { rewrite lookup_insert. destruct (decide ((tr, tc) = sq)) as [<-|Hsq].
    - right. right. split; [done|]. by exists piece.
    - destruct (H1 sq); auto. }
  destruct (if didCapture then _ else _) as [[|]| |]; exact H2.
Qed.

(** ** Promotion *)

(** After any call, every man on the board was a man before, on the same
    square or on [from]: no king is turned into a man. *)
Lemma applyMove_no_demotion (game : Game) (from to sq : Z * Z) (m : sym) :
  isUpper m = false →
  (applyMove game from to).1.(board) !! sq = Some (Str m) →
  game.(board) !! sq = Some (Str m) ∨
  (sq = to ∧ game.(board) !! from = Some (Str m)).
Proof.
  intros Hm H. destruct (applyMove_cells game from to sq)
    as [E|[E|(-> & piece & Hp & E)]].
  - left. congruence.
  - congruence.
  - right. split; [done|]. rewrite E in H. injection H as <-.
    rewrite Hp. f_equal. f_equal. unfold landed in *.
    repeat case_match; done.
Qed.

(** X24. Promotion for moves between squares: for every move with integer
    coordinates that [isValidMove] accepts on a full grid, a white man
    landing on row 0 and a black man landing on row 7 become kings in that
    call of [applyMove]; the landing square alone decides it, so that any
    other piece lands unchanged (a king stays a king, a man elsewhere stays
    a man); and no call of [applyMove] on integer coordinates, legal or
    not, turns a king into a man.  (A man that lands on the row ["0"],
    given as a string, is not promoted: see the moves of [Raw] further
    down.) *)
Theorem promotion_on_landing (game : Game) (fr fc tr tc : Z) (color : sym) :
  wfBoard game.(board) →
  isValidMove game (mkPos fr fc) (mkPos tr tc) color = Ok true →
  (∃ game' piece,
     applyMove game (fr, fc) (tr, tc) = (game', Ok ()) ∧
     game.(board) !! (fr, fc) = Some (Str piece) ∧
     (piece = Sw → tr = 0 → game'.(board) !! (tr, tc) = Some (Str SW)) ∧
     (piece = Sb → tr = 7 → game'.(board) !! (tr, tc) = Some (Str SB)) ∧
     (¬ (piece = Sw ∧ tr = 0) → ¬ (piece = Sb ∧ tr = 7) →
      game'.(board) !! (tr, tc) = Some (Str piece))) ∧
  (∀ (g : Game) (from to sq : Z * Z) (m : sym),
     isUpper m = false →
     (applyMove g from to).1.(board) !! sq = Some (Str m) →
     g.(board) !! sq = Some (Str m) ∨ (sq = to ∧ g.(board) !! from = Some (Str m))).
Proof.
  intros Hwf Hvalid. split; [|apply applyMove_no_demotion].
  destruct (applyMove_valid _ _ _ _ _ _ Hwf Hvalid)
    as (piece & bd1 & didCapture & b & Hpre & _ & _ & _ & Happly).
  destruct Hpre as (_ & _ & _ & _ & [_ Hp] & _).
  eexists _, piece. split; [exact Happly|]. split; [done|].
  cbn [board]. rewrite lookup_insert_eq. unfold landed.
  split_and!.
  - intros -> ->. done.
  - intros -> ->. done.
  - intros H1 H2. do 2 f_equal.
    destruct (bool_decide (piece = Sw) && bool_decide (tr = 0)) eqn:E1.
    { apply andb_true_iff in E1 as [E1 E1']. apply bool_decide_eq_true in E1, E1'.
      by destruct H1. }
    destruct (bool_decide (piece = Sb) && bool_decide (tr = 7)) eqn:E2; [|done].
    apply andb_true_iff in E2 as [E2 E2']. apply bool_decide_eq_true in E2, E2'.
    by destruct H2.
Qed.

Lemma promotion_on_landing_witness :
  ∃ game',
    applyMove promotionGame (1, 2) (0, 1) = (game', Ok ()) ∧
    game'.(board) !! (0, 1) = Some (Str SW).
Proof.
  destruct (promotion_on_landing promotionGame 1 2 0 1 Sw)
    as [(game' & piece & Happly & Hp & Hw & _) _].
  - apply wfBoardb_spec. vm_compute. reflexivity.
  - vm_compute. reflexivity.
  - exists game'. split; [exact Happly|]. apply Hw; [|reflexivity].
    vm_compute in Hp. by injection Hp as <-.
Defined.

(** ** Dark squares *)

(** An accepted move is diagonal. *)
Lemma moveRules_diagonal (game : Game) (fr fc tr tc : Z) (piece : sym)
    (isCapture : bool) :
  isCaptureMove game.(board) piece (fr, fc) (tr, tc) = Ok isCapture →
  moveRules game (fr, fc) (tr, tc) piece isCapture = Ok true →
  Z.abs (tr - fr) = Z.abs (tc - fc).
Proof.
  intros Hcap Hrules. unfold moveRules in Hrules.
  destruct (isUpper piece) eqn:Hk.
  - unfold isValidKingMove in Hrules.
    destruct (bool_decide (Z.abs (tr - fr) = Z.abs (tc - fc))) eqn:E;
      cbn [negb] in Hrules; [|done].
    by apply bool_decide_eq_true in E.
  - rewrite isCaptureMove_man in Hcap by done. injection Hcap as <-.
    destruct (bool_decide (Z.abs (tr - fr) = 2)) eqn:E2;
      destruct (bool_decide (Z.abs (tc - fc) = 2)) eqn:E2';
      destruct (bool_decide (Z.abs (tr - fr) = 1)) eqn:E1;
      destruct (bool_decide (Z.abs (tc - fc) = 1)) eqn:E1';
      cbn in Hrules; try done;
      repeat match goal with
             | H : bool_decide _ = true |- _ => apply bool_decide_eq_true in H
             end; congruence.
Qed.

Lemma createInitialBoard_dark : darkBoard createInitialBoard.
Proof.
  assert (H : forallb (λ kv : Z * Z * cell,
                bool_decide (kv.2 = Null) || bool_decide ((kv.1.1 + kv.1.2) `mod` 2 = 1))
                (map_to_list createInitialBoard) = true)
    by (vm_compute; reflexivity).
  intros r c s Hs. rewrite forallb_forall in H.
  apply elem_of_map_to_list, list_elem_of_In in Hs. specialize (H _ Hs).
  cbn in H. by apply bool_decide_eq_true in H.
Qed.

Lemma diagonal_parity (fr fc tr tc : Z) :
  Z.abs (tr - fr) = Z.abs (tc - fc) →
  (fr + fc) `mod` 2 = 1 → (tr + tc) `mod` 2 = 1.
Proof.
  intros Hd Hp.
  assert (tr + tc = fr + fc + 2 * (tr - fr) ∨ tr + tc = fr + fc + 2 * 0) as [-> | ->]
    by lia.
  - replace (fr + fc + 2 * (tr - fr)) with (fr + fc + (tr - fr) * 2) by lia.
    by rewrite Z_mod_plus_full.
  - by rewrite Z.add_0_r.
Qed.

(** C8. In every game reached from a fresh game by moves that
    [isValidMove] accepts and [applyMove] applies, every occupied square
    [(r, c)] has [r + c] odd. *)
Theorem dark_square_invariant (game : Game) :
  reachable game →
  ∀ (r c : Z) (s : sym), game.(board) !! (r, c) = Some (Str s) → (r + c) `mod` 2 = 1.
Proof.
  change (reachable game → darkBoard game.(board)).
  induction 1 as [|g _ IH|g from to color f t g' _ IH Hvalid Hf Ht Happly].
  - apply createInitialBoard_dark.
  - exact IH.
  - intros r c s Hs.
    apply isValidMove_true in Hvalid
      as (fr & fc & tr & tc & piece & isCapture & -> & -> & Hpre & Hcap & _ & Hrules).
    cbn in Hf, Ht. injection Hf as <-. injection Ht as <-.
    destruct Hpre as (_ & _ & _ & _ & [_ Hp] & _).
    pose proof (applyMove_cells g (fr, fc) (tr, tc) (r, c)) as Hcells.
    rewrite Happly in Hcells. cbn [fst] in Hcells.
    destruct Hcells as [E|[E|([= -> ->] & _)]].
    + apply (IH r c s). congruence.
    + congruence.
    + apply (diagonal_parity fr fc); [|by apply (IH fr fc piece)].
      by apply (moveRules_diagonal g _ _ _ _ piece isCapture).
Qed.

Lemma dark_square_invariant_witness :
  let game := (applyMove startedGame (5, 0) (4, 1)).1 in
  reachable game ∧ game.(board) !! (4, 1) = Some (Str Sw) ∧ (4 + 1) `mod` 2 = 1.
Proof.
  cbv zeta.
  assert (Hr : reachable (applyMove startedGame (5, 0) (4, 1)).1).
  { apply (reach_move startedGame (mkPos 5 0) (mkPos 4 1) Sw (5, 0) (4, 1)).
    - apply (reach_join createNewGame), reach_new.
    - vm_compute. reflexivity.
    - reflexivity.
    - reflexivity.
    - vm_compute. reflexivity. }
  split; [exact Hr|]. split; [vm_compute; reflexivity|].
  apply (dark_square_invariant _ Hr 4 1 Sw). vm_compute. reflexivity.
Defined.

(** ** The predecessor engine *)

(** C10. When no capture is available to the acting player and the piece
    at [from] is not a king, the predecessor engine and the complete engine
    give the same result for every [from], [to] and colour; and when the
    destination row is an integer, that result is a boolean. *)
Theorem predecessor_agrees (game : Game) (from to : Pos) (color : sym) :
  playerHasAnyCapture game color = Ok false →
  (∀ piece, truthy (getOpt game.(board) from.(row) from.(col)) = Some piece →
            isUpper piece = false) →
  Predecessor.isValidMove game from to color = isValidMove game from to color ∧
  (to.(row) ≠ Missing → ∃ b : bool, isValidMove game from to color = Ok b).
Proof.
  intros Hany Hman. destruct from as [fr fc], to as [tr tc].
  unfold Predecessor.isValidMove, isValidMove. cbn [row col] in *.
  destruct (bool_decide (status game = playing)); cbn [negb]; [|eauto].
  destruct (bool_decide (currentPlayer game = color)); cbn [negb]; [|eauto].
  destruct (strictEq fr tr && strictEq fc tc); [eauto|].
  destruct (jsLt tr 0 || jsGe tr 8 || jsLt tc 0 || jsGe tc 8) eqn:Hto; [eauto|].
  destruct (truthy (getOpt (board game) fr fc)) as [piece|] eqn:Hp; [|eauto].
  specialize (Hman piece eq_refl).
  destruct (bool_decide (toLowerCase piece = color)); cbn [negb]; [|eauto].
  destruct (match mustContinueFrom game with Some m => _ | None => false end);
    [eauto|].
  destruct (get (board game) tr tc) as [dest| |] eqn:Hd; cbn.
  2,3: split; [done|]; intros Htr;
    destruct (get_checked (board game) tr tc Htr Hto) as [dest Hd']; congruence.
  destruct (isNull dest); cbn [negb]; [|eauto].
  destruct fr as [fr|], fc as [fc|], tr as [tr|], tc as [tc|]; eauto.
  rewrite isCaptureMove_man by done. cbn.
  unfold moveRules. rewrite Hman. cbn [negb andb].
  destruct (bool_decide (Z.abs (tr - fr) = 2) && bool_decide (Z.abs (tc - fc) = 2));
    cbn [negb andb mbind res_bind].
  - repeat case_match; eauto.
  - rewrite Hany. cbn. repeat case_match; eauto.
Qed.

Lemma predecessor_agrees_witness :
  Predecessor.isValidMove startedGame (mkPos 5 0) (mkPos 4 1) Sw
  = isValidMove startedGame (mkPos 5 0) (mkPos 4 1) Sw.
Proof.
  apply (predecessor_agrees startedGame (mkPos 5 0) (mkPos 4 1) Sw).
  - vm_compute. reflexivity.
  - intros piece Hp. vm_compute in Hp. injection Hp as <-. reflexivity.
Defined.

(** ** The path of a king *)

Section KingPath.
Context (bd : Board) (piece : sym) (fr fc dirR dirC : Z).

Abbreviation at_ := (pathCell bd fr fc dirR dirC).
Abbreviation rowsOk := (pathRows fr dirR).

Lemma rowsOk_cons (d : Z) (rest : list Z) :
  rowsOk (d :: rest) → 0 ≤ fr + dirR * d < 8 ∧ rowsOk rest.
Proof.
  intros H. split; [apply H; left|]. intros d' Hd'. apply H. by right.
Qed.

(** Over empty squares the scan goes on as it was. *)
Lemma kingPath_clear (foundEnemy : bool) (distances : list Z) :
  rowsOk distances → (∀ d, d ∈ distances → at_ d = Some Null) →
  kingPath bd piece fr fc dirR dirC foundEnemy distances = Ok (Some foundEnemy).
Proof.
  induction distances as [|d rest IH]; intros Hrows Hnull; cbn [kingPath]; [done|].
  apply rowsOk_cons in Hrows as [Hd Hrows].
  rewrite get_int by done. cbn. unfold at_ in Hnull.
  rewrite (Hnull d) by left. cbn.
  apply IH; [done|]. intros d' Hd'. apply Hnull. by right.
Qed.

(** A scan that ends without having met an enemy has seen empty squares
    only; once an enemy is met, the remaining squares must be empty. *)
Lemma kingPath_end (foundEnemy b : bool) (distances : list Z) :
  rowsOk distances →
  kingPath bd piece fr fc dirR dirC foundEnemy distances = Ok (Some b) →
  (foundEnemy = true ∨ b = false) →
  b = foundEnemy ∧ ∀ d, d ∈ distances → at_ d = Some Null.
Proof.
  revert foundEnemy.
  induction distances as [|d rest IH]; intros found Hrows H Hcase;
    cbn [kingPath] in H.
  - injection H as <-. split; [done|]. intros d Hd. by apply elem_of_nil in Hd.
  - apply rowsOk_cons in Hrows as [Hd Hrows].
    rewrite get_int in H by done. cbn in H. fold (at_ d) in H.
    destruct (at_ d) as [[|c]|] eqn:Hc; cbn in H; [| |done].
    + destruct (IH found Hrows H Hcase) as [-> Hall]. split; [done|].
      intros d' Hd'. apply elem_of_cons in Hd' as [->|Hd']; auto.
    + destruct (bool_decide (toLowerCase c = toLowerCase piece)); [done|].
      destruct found; [done|].
      destruct Hcase as [?| ->]; [done|].
      destruct (IH true Hrows H) as [? _]; [by left|done].
Qed.

(** A scan that meets an enemy and ends: empty squares, one enemy, empty
    squares. *)
Lemma kingPath_true (distances : list Z) :
  rowsOk distances →
  kingPath bd piece fr fc dirR dirC false distances = Ok (Some true) →
  ∃ l1 d0 l2, distances = l1 ++ d0 :: l2 ∧
    (∀ d, d ∈ l1 → at_ d = Some Null) ∧
    (∃ e, at_ d0 = Some (Str e) ∧ toLowerCase e ≠ toLowerCase piece) ∧
    (∀ d, d ∈ l2 → at_ d = Some Null).
Proof.
  induction distances as [|d rest IH]; intros Hrows H; cbn [kingPath] in H;
    [done|].
  apply rowsOk_cons in Hrows as [Hd Hrows].
  rewrite get_int in H by done. cbn in H. fold (at_ d) in H.
  destruct (at_ d) as [[|c]|] eqn:Hc; cbn in H; [| |done].
  - destruct (IH Hrows H) as (l1 & d0 & l2 & -> & H1 & He & H2).
    exists (d :: l1), d0, l2. split; [done|]. split; [|done].
    intros d' Hd'. apply elem_of_cons in Hd' as [->|Hd']; auto.
  - destruct (bool_decide (toLowerCase c = toLowerCase piece)) eqn:E; [done|].
    apply bool_decide_eq_false in E.
    destruct (kingPath_end true true rest Hrows H) as [_ Hall]; [by left|].
    exists [], d, rest. split; [done|]. split.
    { intros d' Hd'. by apply elem_of_nil in Hd'. }
    split; [|done]. by exists c.
Qed.

Lemma kingPath_capture (l1 l2 : list Z) (d0 : Z) (e : sym) :
  rowsOk (l1 ++ d0 :: l2) →
  (∀ d, d ∈ l1 → at_ d = Some Null) →
  at_ d0 = Some (Str e) → toLowerCase e ≠ toLowerCase piece →
  (∀ d, d ∈ l2 → at_ d = Some Null) →
  kingPath bd piece fr fc dirR dirC false (l1 ++ d0 :: l2) = Ok (Some true).
Proof.
  induction l1 as [|d l1 IH]; intros Hrows H1 He Hne H2; cbn [app kingPath].
  - apply rowsOk_cons in Hrows as [Hd Hrows].
    rewrite get_int by done. cbn. fold (at_ d0). rewrite He. cbn.
    rewrite bool_decide_eq_false_2 by done.
    by apply kingPath_clear.
  - apply rowsOk_cons in Hrows as [Hd Hrows].
    rewrite get_int by done. cbn. fold (at_ d). rewrite (H1 d) by left. cbn.
    apply IH; try done. intros d' Hd'. apply H1. by right.
Qed.
End KingPath.

(** ** King capture rule *)

Lemma NoDup_range (lo hi : Z) : NoDup (range lo hi).
Proof.
  unfold range. apply NoDup_fmap_2; [|apply NoDup_seq].
  intros a b H. lia.
Qed.

(** On a diagonal, the squares the engine scans are the traversed squares. *)
Lemma traversed_dirOf (fr fc tr tc : Z) :
  Z.abs (tr - fr) = Z.abs (tc - fc) →
  traversed (fr, fc) (tr, tc) =
    map (λ d, (fr + dirOf (tr - fr) * d, fc + dirOf (tc - fc) * d))
      (range 1 (Z.abs (tr - fr))).
Proof.
  intros Hdiag. unfold traversed. cbn [fst snd].
  destruct (decide (Z.abs (tr - fr) ≤ 1)) as [Hle|Hgt].
  - rewrite range_nil by done. reflexivity.
  - apply map_ext. intros d. unfold dirOf.
    do 2 case_bool_decide; f_equal; lia.
Qed.

Lemma dirOf_unit (x : Z) : dirOf x = 1 ∨ dirOf x = -1.
Proof. unfold dirOf. case_bool_decide; auto. Qed.

(** Under the preconditions, a king's move is accepted and classified as a
    capture exactly when it has the shape of a king capture. *)
Lemma king_capture_iff (game : Game) (fr fc tr tc : Z) (color piece : sym) :
  preconditions game (fr, fc) (tr, tc) color piece →
  isUpper piece = true →
  (isValidMove game (mkPos fr fc) (mkPos tr tc) color = Ok true ∧
   isCaptureMove game.(board) piece (fr, fc) (tr, tc) = Ok true)
  ↔ kingCaptureShape game.(board) piece (fr, fc) (tr, tc).
Proof.
  intros Hpre Hk.
  pose proof Hpre as (_ & _ & _ & [Htr Htc] & [Hfr Hp] & _ & _ & Hd).
  cbn in Htr, Htc, Hfr.
  set (dirR := dirOf (tr - fr)). set (dirC := dirOf (tc - fc)).
  set (dists := range 1 (Z.abs (tr - fr))).
  assert (Hrows : ∀ d, d ∈ dists → 0 ≤ fr + dirR * d < 8).
  { intros d Hin. apply elem_of_range in Hin. by apply between_rows. }
  unfold kingCaptureShape. cbn [fst snd]. split.
  - intros [Hvalid Hcap].
    apply isValidMove_true_iff in Hvalid
      as (piece' & isCapture & Hpre' & Hcap' & _ & Hrules).
    destruct Hpre' as (_ & _ & _ & _ & [_ Hp'] & _).
    assert (piece' = piece) as -> by congruence.
    assert (isCapture = true) as -> by congruence.
    unfold moveRules in Hrules. rewrite Hk in Hrules.
    unfold isValidKingMove in Hrules.
    destruct (bool_decide (Z.abs (tr - fr) = Z.abs (tc - fc))) eqn:Hdiag;
      cbn [negb] in Hrules; [|done].
    apply bool_decide_eq_true in Hdiag. split; [done|].
    destruct (bool_decide (Z.abs (tr - fr) < 1)); [done|].
    fold dirR dirC dists in Hrules.
    destruct (kingPath _ _ _ _ _ _ _ _) as [[found|]| |] eqn:Hpath;
      cbn in Hrules; try done.
    rewrite isCaptureMove_king in Hcap by done. injection Hcap as Hcap.
    fold dirR dirC dists in Hcap.
    apply existsb_exists in Hcap as (d1 & Hd1 & Hen). apply list_elem_of_In in Hd1.
    destruct found.
    + apply kingPath_true in Hpath
        as (l1 & d0 & l2 & Hsplit & H1 & (e & He & Hne) & H2); [|done].
      exists (fr + dirR * d0, fc + dirC * d0).
      rewrite traversed_dirOf by done. fold dirR dirC dists. split_and!.
      * apply list_elem_of_fmap. exists d0. split; [done|].
        rewrite Hsplit. apply elem_of_app. right. left.
      * by exists e.
      * intros sq Hsq Hnot. apply list_elem_of_fmap in Hsq as (d & -> & Hin).
        rewrite Hsplit in Hin.
        apply elem_of_app in Hin as [Hin|Hin]; [by apply H1|].
        apply elem_of_cons in Hin as [->|Hin]; [done|by apply H2].
    + destruct (kingPath_end _ _ _ _ _ _ false false dists Hrows Hpath)
        as [_ Hall]; [by right|].
      unfold pathCell in Hall. unfold enemyOnPath in Hen. by rewrite (Hall d1 Hd1) in Hen.
  - intros (Hdiag & e & He & (c & Hc & Hne) & Hothers).
    rewrite traversed_dirOf in He, Hothers by done.
    fold dirR dirC dists in He, Hothers.
    apply list_elem_of_fmap in He as (d0 & -> & Hd0).
    destruct (list_elem_of_split _ _ Hd0) as (l1 & l2 & Hsplit).
    pose proof (NoDup_range 1 (Z.abs (tr - fr))) as Hnd. fold dists in Hnd.
    rewrite Hsplit in Hnd. apply NoDup_app in Hnd as (_ & Hl1 & Hnd).
    apply NoDup_cons in Hnd as [Hl2 _].
    assert (Hinj : ∀ d, d ≠ d0 → (fr + dirR * d, fc + dirC * d)
                                   ≠ (fr + dirR * d0, fc + dirC * d0)).
    { intros d Hdd [= H1 _]. destruct (dirOf_unit (tr - fr)) as [E|E];
        fold dirR in E; rewrite E in H1; lia. }
    assert (Hnull : ∀ d, d ∈ dists → d ≠ d0 →
                         board game !! (fr + dirR * d, fc + dirC * d) = Some Null).
    { intros d Hin Hdd. apply Hothers; [|by apply Hinj].
      apply list_elem_of_fmap. by exists d. }
    assert (Hpath : kingPath (board game) piece fr fc dirR dirC false dists
                    = Ok (Some true)).
    { rewrite Hsplit. apply (kingPath_capture _ _ _ _ _ _ l1 l2 d0 c); try done.
      - by rewrite <- Hsplit.
      - intros d Hin. apply Hnull.
        + rewrite Hsplit. apply elem_of_app. by left.
        + intros ->. apply (Hl1 d0 Hin). left.
      - intros d Hin. apply Hnull.
        + rewrite Hsplit. apply elem_of_app. right. by right.
        + intros ->. done. }
    assert (Hcap : isCaptureMove (board game) piece (fr, fc) (tr, tc) = Ok true).
    { rewrite isCaptureMove_king by done. f_equal. fold dirR dirC dists.
      apply existsb_exists. exists d0. split; [by apply list_elem_of_In|].
      unfold enemyOnPath. rewrite Hc. cbn.
      by rewrite bool_decide_eq_false_2. }
    split; [|done].
    apply isValidMove_true_iff. exists piece, true.
    split; [done|]. split; [done|]. split; [done|].
    unfold moveRules. rewrite Hk. unfold isValidKingMove.
    rewrite (bool_decide_eq_true_2 _ Hdiag). cbn [negb].
    apply elem_of_range in Hd0.
    rewrite bool_decide_eq_false_2 by lia.
    fold dirR dirC dists. rewrite Hpath. cbn.
    rewrite get_int, Hd by done. cbn. reflexivity.
Qed.

(** C2. Under the preconditions of section 4.3, a king's move is a legal
    capture (accepted by [isValidMove] and classified as a capture) if and
    only if it is diagonal and the traversed squares hold exactly one enemy
    piece and are otherwise empty, whatever the distance of the enemy and
    of the landing square beyond it.  In scenario C the move (4,4) to (1,1)
    is legal and the move (4,4) to (0,0) is illegal. *)
Theorem king_capture_rule (game : Game) (fr fc tr tc : Z) (color piece : sym) :
  preconditions game (fr, fc) (tr, tc) color piece →
  isUpper piece = true →
  ((isValidMove game (mkPos fr fc) (mkPos tr tc) color = Ok true ∧
    isCaptureMove game.(board) piece (fr, fc) (tr, tc) = Ok true)
   ↔ kingCaptureShape game.(board) piece (fr, fc) (tr, tc)) ∧
  isValidMove scenarioC (mkPos 4 4) (mkPos 1 1) Sw = Ok true ∧
  isValidMove scenarioC (mkPos 4 4) (mkPos 0 0) Sw = Ok false.
Proof.
  intros Hpre Hk. split; [by apply king_capture_iff|].
  split; vm_compute; reflexivity.
Qed.

Lemma king_capture_rule_witness :
  (isValidMove scenarioC (mkPos 4 4) (mkPos 1 1) Sw = Ok true ∧
   isCaptureMove scenarioC.(board) SW (4, 4) (1, 1) = Ok true)
  ↔ kingCaptureShape scenarioC.(board) SW (4, 4) (1, 1).
Proof.
  apply (king_capture_rule scenarioC 4 4 1 1 Sw SW).
  - unfold preconditions, onBoard. cbn [fst snd].
    split_and!; try done; try lia; try (vm_compute; reflexivity).
  - reflexivity.
Defined.

(** ** The forced capture notice *)










(** ** [isValidMove] returns when the destination row is an integer *)

Lemma kingPath_total (bd : Board) (piece : sym) (fr fc dirR dirC : Z)
    (foundEnemy : bool) (distances : list Z) :
  (∀ d, d ∈ distances →
        0 ≤ fr + dirR * d < 8 ∧ is_Some (bd !! (fr + dirR * d, fc + dirC * d))) →
  ∃ r, kingPath bd piece fr fc dirR dirC foundEnemy distances = Ok r.
Proof.
  revert foundEnemy. induction distances as [|d rest IH]; intros found H;
    cbn [kingPath]; [eauto|].
  destruct (H d) as [Hd [v Hv]]; [left|].
  assert (Hrest : ∀ d', d' ∈ rest →
            0 ≤ fr + dirR * d' < 8 ∧ is_Some (bd !! (fr + dirR * d', fc + dirC * d')))
    by (intros d' Hd'; apply H; by right).
  rewrite get_int, Hv by done. cbn.
  destruct v as [|c]; cbn; [by apply IH|].
  destruct (bool_decide _); [eauto|]. destruct found; [eauto|]. by apply IH.
Qed.

Lemma isValidKingMove_total (game : Game) (fr fc tr tc : Z) (piece : sym)
    (chain : option (Z * Z)) :
  wfBoard game.(board) →
  onBoard (fr, fc) → onBoard (tr, tc) →
  ∃ b, isValidKingMove game (fr, fc) (tr, tc) piece chain = Ok b.
Proof.
  intros Hwf [Hfr Hfc] [Htr Htc]. cbn in Hfr, Hfc, Htr, Htc.
  unfold isValidKingMove.
  destruct (bool_decide (Z.abs (tr - fr) = Z.abs (tc - fc))) eqn:Hdiag;
    cbn [negb]; [|eauto].
  apply bool_decide_eq_true in Hdiag.
  destruct (bool_decide (Z.abs (tr - fr) < 1)); [eauto|].
  destruct (kingPath_total (board game) piece fr fc (dirOf (tr - fr))
              (dirOf (tc - fc)) false (range 1 (Z.abs (tr - fr)))) as [r ->].
  { intros d Hd. apply elem_of_range in Hd.
    assert (0 ≤ fr + dirOf (tr - fr) * d < 8) by (by apply between_rows).
    assert (0 ≤ fc + dirOf (tc - fc) * d < 8)
      by (apply between_rows; [done..|lia]).
    split; [done|]. by apply (Hwf (_, _)). }
  cbn. destruct r as [found|]; [|eauto].
  rewrite get_int by done. cbn.
  destruct (negb _); [eauto|]. destruct found; [eauto|].
  destruct (bool_decide _); eauto.
Qed.

Lemma moveRules_total (game : Game) (fr fc tr tc : Z) (piece : sym)
    (isCapture : bool) :
  wfBoard game.(board) →
  onBoard (fr, fc) → onBoard (tr, tc) →
  ∃ b, moveRules game (fr, fc) (tr, tc) piece isCapture = Ok b.
Proof.
  intros Hwf Hf Ht. unfold moveRules.
  destruct (isUpper piece); [by apply isValidKingMove_total|].
  repeat case_match; eauto.
Qed.

(** On a well-formed board, with an integer destination row, [isValidMove]
    returns a boolean, whatever the other coordinates are. *)
Lemma isValidMove_total (game : Game) (from to : Pos) (color : sym) :
  wfBoard game.(board) → to.(row) ≠ Missing →
  ∃ b, isValidMove game from to color = Ok b.
Proof.
  intros Hwf Hrow. destruct from as [fr fc], to as [tr tc].
  unfold isValidMove. cbn [row col] in *.
  destruct (bool_decide (status game = playing)); cbn [negb]; [|eauto].
  destruct (bool_decide (currentPlayer game = color)); cbn [negb]; [|eauto].
  destruct (strictEq fr tr && strictEq fc tc); [eauto|].
  destruct (jsLt tr 0 || jsGe tr 8 || jsLt tc 0 || jsGe tc 8) eqn:Hto; [eauto|].
  destruct (truthy (getOpt (board game) fr fc)) as [piece|] eqn:Hp; [|eauto].
  destruct (bool_decide (toLowerCase piece = color)); cbn [negb]; [|eauto].
  destruct (match mustContinueFrom game with Some m => _ | None => false end);
    [eauto|].
  destruct (get_checked (board game) tr tc Hrow Hto) as [dest Hd]. rewrite Hd. cbn.
  destruct (isNull dest) eqn:Hn; cbn [negb]; [|eauto].
  apply getOpt_truthy in Hp as (zfr & zfc & -> & -> & Hfr & Hpiece).
  destruct (get_null _ _ _ _ Hd Hn) as (ztr & ztc & -> & -> & Htr & Hdest).
  cbv beta iota.
  destruct (wfBoard_onBoard _ _ _ _ Hwf Hpiece) as [_ Hfc].
  destruct (wfBoard_onBoard _ _ _ _ Hwf Hdest) as [_ Htc].
  destruct (isCaptureMove_total (board game) piece zfr zfc ztr ztc Hfr Htr)
    as [isCapture ->]. cbn.
  destruct (playerHasAnyCapture_total game Hwf color) as [any Hany].
  destruct (moveRules_total game zfr zfc ztr ztc piece isCapture Hwf)
    as [b Hb]; [done..|].
  destruct isCapture; cbn.
  - eauto.
  - rewrite Hany. cbn. destruct any; eauto.
Qed.

(** ** The fuel never runs out *)















(** ** Forced capture *)

(** An accepted move that is classified as a capture has the shape of a
    capture: it removes an enemy piece. *)
Lemma accepted_capture_shape (game : Game) (fr fc tr tc : Z) (color piece : sym) :
  preconditions game (fr, fc) (tr, tc) color piece →
  isCaptureMove game.(board) piece (fr, fc) (tr, tc) = Ok true →
  moveRules game (fr, fc) (tr, tc) piece true = Ok true →
  captureShape game.(board) piece (fr, fc) (tr, tc).
Proof.
  intros Hpre Hcap Hrules. unfold captureShape.
  destruct (isUpper piece) eqn:Hk.
  - apply (king_capture_iff game fr fc tr tc color piece Hpre Hk).
    split; [|done]. apply isValidMove_true_iff. by exists piece, true.
  - rewrite isCaptureMove_man in Hcap by done. injection Hcap as Hcap.
    apply andb_true_iff in Hcap as [Hr Hc]. apply bool_decide_eq_true in Hr, Hc.
    unfold manCaptureShape. cbn [fst snd]. split; [done|]. split; [done|].
    unfold moveRules in Hrules. rewrite Hk in Hrules. cbn in Hrules.
    destruct (truthy (getOpt _ _ _)) as [midPiece|] eqn:Hmid; [|done].
    apply getOpt_truthy in Hmid as (a & c & [= <-] & [= <-] & _ & Hmp).
    destruct (bool_decide (toLowerCase midPiece = toLowerCase piece)) eqn:E; [done|].
    apply bool_decide_eq_false in E. by exists midPiece.
Qed.

(** C1. When [playerHasAnyCapture(game, currentPlayer)] is true,
    [isValidMove] returns false for every move of the current player that
    is not a capture, whatever the shape of the move: both for the moves
    that [isValidMove] itself does not classify as captures (lines 253 to
    269) and, on a well-formed board, for the moves that are not captures
    in the sense of section 4.3. *)
Theorem forced_capture (game : Game) (fr fc tr tc : Z) :
  playerHasAnyCapture game game.(currentPlayer) = Ok true →
  ((∀ piece, truthy (getOpt game.(board) fr fc) = Some piece →
             isCaptureMove game.(board) piece (fr, fc) (tr, tc) ≠ Ok true) →
   isValidMove game (mkPos fr fc) (mkPos tr tc) game.(currentPlayer) = Ok false) ∧
  (wfBoard game.(board) →
   (∀ piece, game.(board) !! (fr, fc) = Some (Str piece) →
             ¬ captureShape game.(board) piece (fr, fc) (tr, tc)) →
   isValidMove game (mkPos fr fc) (mkPos tr tc) game.(currentPlayer) = Ok false).
Proof.
  intros Hany. split.
  - intros Hsimple. unfold isValidMove. cbn [row col].
    destruct (bool_decide (status game = playing)); cbn [negb]; [|done].
    destruct (bool_decide (currentPlayer game = currentPlayer game));
      cbn [negb]; [|done].
    destruct (strictEq fr tr && strictEq fc tc); [done|].
    destruct (jsLt tr 0 || jsGe tr 8 || jsLt tc 0 || jsGe tc 8) eqn:Hto; [done|].
    apply bounds_int in Hto as [Htr Htc]. cbn in Htr, Htc.
    destruct (truthy (getOpt (board game) fr fc)) as [piece|] eqn:Hp; [|done].
    destruct (bool_decide (toLowerCase piece = currentPlayer game));
      cbn [negb]; [|done].
    destruct (match mustContinueFrom game with Some m => _ | None => false end);
      [done|].
    rewrite get_int by done. cbn.
    destruct (isNull (board game !! (tr, tc))); cbn [negb]; [|done].
    apply getOpt_truthy in Hp as Hp'.
    destruct Hp' as (a & b & [= <-] & [= <-] & Hfr & _).
    destruct (isCaptureMove_total (board game) piece fr fc tr tc Hfr Htr)
      as [[|] Hcap].
    + by destruct (Hsimple piece eq_refl).
    + rewrite Hcap. cbn. rewrite Hany. reflexivity.
  - intros Hwf Hsimple.
    assert (∃ b, isValidMove game (mkPos fr fc) (mkPos tr tc)
                   game.(currentPlayer) = Ok b) as [[|] Hb]
      by (by apply isValidMove_total); [|done].
    apply isValidMove_true_iff in Hb
      as (piece & isCapture & Hpre & Hcap & Hforced & Hrules).
    destruct isCapture.
    + pose proof Hpre as (_ & _ & _ & _ & [_ Hp] & _).
      destruct (Hsimple piece Hp).
      by apply (accepted_capture_shape game fr fc tr tc game.(currentPlayer)).
    + rewrite Hforced in Hany by done. discriminate.
Qed.

Lemma forced_capture_witness :
  isValidMove scenarioB (mkPos 4 4) (mkPos 3 5) scenarioB.(currentPlayer) = Ok false.
Proof.
  destruct (forced_capture scenarioB 4 4 3 5) as [H _].
  - vm_compute. reflexivity.
  - apply H. intros piece Hp. vm_compute in Hp. injection Hp as <-.
    vm_compute. discriminate.
Defined.

(** ** Reachable games *)

(** Every reachable game has a well-formed board: the hypothesis of the
    theorems above holds throughout a game. *)
Lemma reachable_wf (game : Game) : reachable game → wfBoard game.(board).
Proof.
  induction 1 as [|g _ IH|g from to color f t g' _ IH Hvalid Hf Ht Happly].
  - apply createInitialBoard_wf.
  - exact IH.
  - apply isValidMove_true in Hvalid as Hints.
    destruct Hints as (fr & fc & tr & tc & _ & _ & -> & -> & _).
    cbn in Hf, Ht. injection Hf as <-. injection Ht as <-.
    destruct (applyMove_valid _ _ _ _ _ _ IH Hvalid)
      as (piece & bd1 & didCapture & b & _ & _ & Hwf & _ & Happly').
    rewrite Happly' in Happly. by injection Happly as <-.
Qed.

(** From a reachable game every accepted move can be applied, and leads to
    a reachable game. *)
Lemma reachable_step (game : Game) (from to : Pos) (color : sym) :
  reachable game →
  isValidMove game from to color = Ok true →
  ∃ f t game',
    square from = Some f ∧ square to = Some t ∧
    applyMove game f t = (game', Ok ()) ∧ reachable game'.
Proof.
  intros Hreach Hvalid. apply isValidMove_true in Hvalid as Hints.
  destruct Hints as (fr & fc & tr & tc & _ & _ & -> & -> & _).
  destruct (applyMove_valid _ _ _ _ _ _ (reachable_wf _ Hreach) Hvalid)
    as (piece & bd1 & didCapture & b & _ & _ & _ & _ & Happly).
  eexists (fr, fc), (tr, tc), _. split; [done|]. split; [done|].
  split; [exact Happly|].
  by apply (reach_move game (mkPos fr fc) (mkPos tr tc) color (fr, fc) (tr, tc)).
Qed.

(** For an accepted move the handler applies it: the last branch of
    [makeMove] is never taken. *)
Lemma makeMove_applies (game : Game) (from to : Pos) (color : sym) :
  isValidMove game from to color = Ok true →
  ∃ f t, square from = Some f ∧ square to = Some t ∧
         (makeMove game from to color).1 = (applyMove game f t).1.
Proof.
  intros Hvalid. apply isValidMove_true in Hvalid as Hints.
  destruct Hints as (fr & fc & tr & tc & _ & _ & -> & -> & _).
  exists (fr, fc), (tr, tc). split; [done|]. split; [done|].
  unfold makeMove. rewrite Hvalid. cbn.
  by destruct (applyMove game (fr, fc) (tr, tc)).
Qed.

(** ** The scenarios of the specification *)

(** Setup: twelve men of each colour, white to move, waiting. *)
Example setup_pieces :
  (pieces ← getAllPlayerPieces createNewGame.(board) Sw; Ok (length pieces))
    = Ok 12%nat ∧
  (pieces ← getAllPlayerPieces createNewGame.(board) Sb; Ok (length pieces))
    = Ok 12%nat.
Proof. split; vm_compute; reflexivity. Qed.

(** Scenario A: (5,0) to (4,1) is a legal simple move; black is to move
    next and no chain is active. *)
Example scenarioA :
  isValidMove startedGame (mkPos 5 0) (mkPos 4 1) Sw = Ok true ∧
  (let game' := (applyMove startedGame (5, 0) (4, 1)).1 in
   game'.(currentPlayer) = Sb ∧ game'.(mustContinueFrom) = None ∧
   game'.(board) !! (4, 1) = Some (Str Sw) ∧ game'.(board) !! (5, 0) = Some Null).
Proof. split; [|split_and!]; vm_compute; reflexivity. Qed.

(** Scenario B: the white man at (4,4) jumps to (2,2); the black man at
    (3,3) is removed and black is to move. *)
Example scenarioB_capture :
  isValidMove scenarioB (mkPos 4 4) (mkPos 2 2) Sw = Ok true ∧
  (let game' := (applyMove scenarioB (4, 4) (2, 2)).1 in
   game'.(board) !! (3, 3) = Some Null ∧ game'.(board) !! (2, 2) = Some (Str Sw) ∧
   game'.(currentPlayer) = Sb).
Proof. split; [|split_and!]; vm_compute; reflexivity. Qed.

(** Scenario D: a simple move while a capture is available is answered
    with [mustCapture], any other illegal move with [invalidMove]. *)
Example scenarioD :
  (makeMove scenarioB (mkPos 4 4) (mkPos 3 5) Sw).2 = Ok mustCapture ∧
  (makeMove scenarioB (mkPos 4 4) (mkPos 4 6) Sw).2 = Ok invalidMove.
Proof. split; vm_compute; reflexivity. Qed.

(** * The engine on the values a client sends *)

(** ** The engine of [Raw] and the engine on integers *)

(** On payloads whose fields are integers or are missing, the functions of
    [Raw] compute what the functions above compute. *)

#[local] Instance rawKey_inj : Inj (=) (=) (λ sq : Z * Z, (sq.1, pretty sq.2)).
Proof. intros [a b] [c d] [= -> ?%(inj pretty)]. by subst. Qed.

Lemma rowOf_numeral (z : Z) :
  Raw.rowOf (pretty z) = if hasRow z then Some z else None.
Proof.
  assert (z = 0 ∨ z = 1 ∨ z = 2 ∨ z = 3 ∨ z = 4 ∨ z = 5 ∨ z = 6 ∨ z = 7
          ∨ ¬ (0 ≤ z < 8)) as H by lia.
  destruct H as [->|[->|[->|[->|[->|[->|[->|[->|H]]]]]]]]; try (vm_compute; reflexivity).
  unfold hasRow. rewrite bool_decide_eq_false_2 by done.
  unfold Raw.rowOf. change (range 0 8) with [0; 1; 2; 3; 4; 5; 6; 7].
  cbn [find].
  rewrite !bool_decide_eq_false_2; [done|intros ?%(inj pretty); lia..].
Qed.

(** The numeral of an integer starts with a digit or a minus sign. *)
Lemma pretty_N_go_letter (x : N) (s s' : string) :
  s ≠ String "u"%char s' → pretty.pretty_N_go x s ≠ String "u"%char s'.
Proof.
  revert s. induction (N.lt_wf_0 x) as [x _ IH]; intros s ?.
  assert (x = 0 ∨ 0 < x)%N as [->|?] by lia.
  - by rewrite pretty.pretty_N_go_0.
  - rewrite pretty.pretty_N_go_step by done. apply IH.
    { by apply N.div_lt. }
    unfold pretty.pretty_N_char. by repeat case_match.
Qed.

Lemma numeral_not_undefined (z : Z) : pretty z ≠ "undefined".
Proof.
  destruct z as [|p|p]; [done| |done].
  unfold pretty, pretty_Z, pretty, pretty_positive, pretty, pretty_N.
  rewrite decide_False by done. by apply pretty_N_go_letter.
Qed.

Lemma rawBoard_lookup (bd : Board) (r c : Z) :
  rawBoard bd !! (r, pretty c) = bd !! (r, c).
Proof. apply (lookup_kmap (λ sq : Z * Z, (sq.1, pretty sq.2)) bd (r, c)). Qed.

Lemma rawBoard_undefined (bd : Board) (r : Z) :
  rawBoard bd !! (r, "undefined") = None.
Proof.
  apply (lookup_kmap_None (λ sq : Z * Z, (sq.1, pretty sq.2))).
  intros [a b] [= _ H]. by destruct (numeral_not_undefined b).
Qed.

Lemma rawBoard_insert (bd : Board) (r c : Z) (v : cell) :
  rawBoard (<[(r, c) := v]> bd) = <[(r, pretty c) := v]> (rawBoard bd).
Proof. apply (kmap_insert (λ sq : Z * Z, (sq.1, pretty sq.2)) bd (r, c)). Qed.

Lemma raw_get (bd : Board) (r c : coord) :
  Raw.get (rawBoard bd) (rawValue r) (rawValue c) = get bd r c.
Proof.
  unfold Raw.get, get, rowAt. destruct r as [zr|]; cbn [rawValue Raw.key].
  - rewrite rowOf_numeral. destruct (hasRow zr); [|done].
    destruct c as [zc|]; cbn [rawValue Raw.key].
    + by rewrite rawBoard_lookup.
    + by rewrite rawBoard_undefined.
  - reflexivity.
Qed.

Lemma raw_getOpt (bd : Board) (r c : coord) :
  Raw.getOpt (rawBoard bd) (rawValue r) (rawValue c) = getOpt bd r c.
Proof.
  unfold Raw.getOpt, getOpt, rowAt. destruct r as [zr|]; cbn [rawValue Raw.key].
  - rewrite rowOf_numeral. destruct (hasRow zr); [|done].
    destruct c as [zc|]; cbn [rawValue Raw.key].
    + by rewrite rawBoard_lookup.
    + by rewrite rawBoard_undefined.
  - reflexivity.
Qed.

Lemma raw_get_num (bd : Board) (r c : Z) :
  Raw.get (rawBoard bd) (Raw.Num r) (Raw.Num c) = get bd r c.
Proof. apply (raw_get bd (Int r) (Int c)). Qed.

Lemma raw_getOpt_num (bd : Board) (r c : Z) :
  Raw.getOpt (rawBoard bd) (Raw.Num r) (Raw.Num c) = getOpt bd r c.
Proof. apply (raw_getOpt bd (Int r) (Int c)). Qed.

Lemma raw_setCell (bd : Board) (r c : Z) (v : cell) :
  Raw.setCell (rawBoard bd) (Raw.Num r) (Raw.Num c) v =
  match setCell bd r c v with
  | Ok bd' => Ok (rawBoard bd')
  | TypeError => TypeError
  | OutOfFuel => OutOfFuel
  end.
Proof.
  unfold Raw.setCell, setCell. cbn [Raw.key]. rewrite rowOf_numeral.
  destruct (hasRow r); [|done]. by rewrite rawBoard_insert.
Qed.

Lemma anyM_ext {A : Type} (f g : A → res bool) (l : list A) :
  (∀ x, f x = g x) → anyM f l = anyM g l.
Proof. intros H. induction l as [|x l IH]; [done|]. cbn. by rewrite H, IH. Qed.

Lemma collectM_ext {A B : Type} (f g : A → res (list B)) (l : list A) :
  (∀ x, f x = g x) → collectM f l = collectM g l.
Proof. intros H. induction l as [|x l IH]; [done|]. cbn. by rewrite H, IH. Qed.

Lemma raw_offBoard (z : Z) : Raw.offBoard (Raw.Num z) = offBoard z.
Proof. reflexivity. Qed.

Lemma raw_hasRegularCaptureFrom (game : Game) (row col : Z) :
  Raw.hasRegularCaptureFrom (rawGame game) (Raw.Num row) (Raw.Num col)
  = hasRegularCaptureFrom game row col.
Proof.
  unfold Raw.hasRegularCaptureFrom, hasRegularCaptureFrom.
  cbn [Raw.board rawGame]. rewrite raw_get_num.
  destruct (get _ _ _) as [piece| |]; cbn [mbind res_bind]; [|done..].
  apply anyM_ext. intros [dr dc]. cbn [Raw.plus]. rewrite !raw_offBoard.
  head_case; [done|]. rewrite !raw_get_num. reflexivity.
Qed.

Lemma raw_kingScan (fuel : nat) (bd : Board) (piece : option cell)
    (row col dr dc distance : Z) (foundEnemy : bool) :
  Raw.kingScan fuel (rawBoard bd) piece (Raw.Num row) (Raw.Num col) dr dc distance
    foundEnemy
  = kingScan fuel bd piece row col dr dc distance foundEnemy.
Proof.
  revert distance foundEnemy.
  induction fuel as [|fuel IH]; intros distance foundEnemy; [done|].
  cbn [Raw.kingScan Raw.plus]. rewrite kingScan_S. cbv zeta.
  rewrite !raw_offBoard, raw_get_num.
  head_case; [done|].
  destruct (get _ _ _) as [checkPiece| |]; cbn [mbind res_bind]; [|done..].
  by rewrite !IH.
Qed.

Lemma raw_hasKingCaptureFrom (game : Game) (row col : Z) :
  Raw.hasKingCaptureFrom (rawGame game) (Raw.Num row) (Raw.Num col)
  = hasKingCaptureFrom game row col.
Proof.
  unfold Raw.hasKingCaptureFrom, hasKingCaptureFrom.
  cbn [Raw.board rawGame]. rewrite raw_get_num.
  destruct (get _ _ _) as [piece| |]; cbn [mbind res_bind]; [|done..].
  apply anyM_ext. intros [dr dc]. apply raw_kingScan.
Qed.

Lemma raw_hasCaptureFrom (game : Game) (row col : Z) :
  Raw.hasCaptureFrom (rawGame game) (Raw.Num row) (Raw.Num col)
  = hasCaptureFrom game row col.
Proof.
  unfold Raw.hasCaptureFrom, hasCaptureFrom.
  cbn [Raw.board rawGame]. rewrite raw_getOpt_num.
  destruct (truthy _) as [piece|]; [|done].
  by rewrite raw_hasKingCaptureFrom, raw_hasRegularCaptureFrom.
Qed.

Lemma raw_getAllPlayerPieces (bd : Board) (color : sym) :
  Raw.getAllPlayerPieces (rawBoard bd) color = getAllPlayerPieces bd color.
Proof.
  unfold Raw.getAllPlayerPieces, getAllPlayerPieces.
  apply collectM_ext. intros row. apply collectM_ext. intros col.
  by rewrite raw_get_num.
Qed.

Lemma raw_playerHasAnyCapture (game : Game) (color : sym) :
  Raw.playerHasAnyCapture (rawGame game) color = playerHasAnyCapture game color.
Proof.
  unfold Raw.playerHasAnyCapture, playerHasAnyCapture.
  cbn [Raw.board Raw.mustContinueFrom rawGame].
  destruct (mustContinueFrom game) as [[r c]|]; cbn [fmap option_fmap option_map fst snd].
  - apply raw_hasCaptureFrom.
  - rewrite raw_getAllPlayerPieces.
    destruct (getAllPlayerPieces _ _) as [pieces| |]; cbn [mbind res_bind]; [|done..].
    apply anyM_ext. intros [[row col] p]. apply raw_hasCaptureFrom.
Qed.

Lemma raw_kingPath (bd : Board) (piece : sym) (fr fc dirR dirC : Z)
    (foundEnemy : bool) (distances : list Z) :
  Raw.kingPath (rawBoard bd) piece (Raw.Num fr) (Raw.Num fc) dirR dirC foundEnemy
    distances
  = kingPath bd piece fr fc dirR dirC foundEnemy distances.
Proof.
  revert foundEnemy.
  induction distances as [|d rest IH]; intros foundEnemy; [done|].
  cbn [Raw.kingPath kingPath Raw.plus]. rewrite raw_get_num.
  destruct (get _ _ _) as [checkPiece| |]; cbn [mbind res_bind]; [|done..].
  by rewrite !IH.
Qed.

Lemma raw_isValidKingMove (game : Game) (from to : Z * Z) (piece : sym)
    (m : option (Z * Z)) :
  Raw.isValidKingMove (rawGame game) (rawSquare from) (rawSquare to) piece
    (rawChain m)
  = isValidKingMove game from to piece m.
Proof.
  destruct from as [fr fc], to as [tr tc].
  unfold Raw.isValidKingMove, isValidKingMove.
  cbn [Raw.board rawGame rawSquare Raw.row Raw.col fst snd Raw.minus Raw.toNumber
       Raw.abs fmap option_fmap option_map Raw.numEq Raw.numLt Raw.upTo].
  head_case; [done|]. head_case; [done|].
  change (Raw.dirOf (Some ?d)) with (dirOf d).
  rewrite raw_kingPath.
  destruct (kingPath _ _ _ _ _ _ _ _) as [[foundEnemy|]| |]; cbn [mbind res_bind];
    [|done..].
  rewrite raw_get_num.
  destruct (get _ _ _) as [dest| |]; cbn [mbind res_bind]; [|done..].
  by destruct m.
Qed.

Lemma raw_isCaptureMove (bd : Board) (piece : sym) (from to : Z * Z) :
  Raw.isCaptureMove (rawBoard bd) piece (rawSquare from) (rawSquare to)
  = isCaptureMove bd piece from to.
Proof.
  destruct from as [fr fc], to as [tr tc].
  unfold Raw.isCaptureMove, isCaptureMove.
  cbn [rawSquare Raw.row Raw.col fst snd Raw.minus Raw.toNumber
       Raw.abs fmap option_fmap option_map Raw.numEq Raw.upTo].
  head_case; [|done].
  change (Raw.dirOf (Some ?d)) with (dirOf d).
  apply anyM_ext. intros dist. cbn [Raw.plus]. by rewrite raw_get_num.
Qed.

Lemma raw_moveRules (game : Game) (from to : Z * Z) (piece : sym) (isCapture : bool) :
  Raw.moveRules (rawGame game) (rawSquare from) (rawSquare to) piece isCapture
  = moveRules game from to piece isCapture.
Proof.
  unfold Raw.moveRules, moveRules.
  change (Raw.mustContinueFrom (rawGame game)) with (rawChain (mustContinueFrom game)).
  rewrite raw_isValidKingMove.
  destruct from as [fr fc], to as [tr tc].
  cbn [Raw.board rawGame rawSquare Raw.row Raw.col fst snd Raw.minus Raw.toNumber
       Raw.abs Raw.half fmap option_fmap option_map Raw.numEq Raw.numGe Raw.numLe
       Raw.plus].
  rewrite raw_getOpt_num.
  by destruct (mustContinueFrom game).
Qed.





Lemma raw_kingCapture (bd : Board) (piece : sym) (fr fc dirR dirC : Z)
    (distances : list Z) :
  Raw.kingCapture (rawBoard bd) piece (Raw.Num fr) (Raw.Num fc) dirR dirC distances
  = let '(bd', r) := kingCapture bd piece fr fc dirR dirC distances in
    (rawBoard bd', r).
Proof.
  induction distances as [|d rest IH]; [done|].
  cbn [Raw.kingCapture kingCapture Raw.plus]. rewrite raw_get_num.
  destruct (get bd _ _) as [checkPiece| |] eqn:Hget; [|done..].
  destruct (truthy checkPiece) as [c|]; [|done].
  head_case; [|done].
  rewrite raw_setCell. unfold setCell.
  destruct (hasRow _) eqn:Hrow; [done|].
  unfold get, rowAt in Hget. by rewrite Hrow in Hget.
Qed.

Lemma raw_withBoard (game : Game) (bd : Board) :
  Raw.withBoard (rawGame game) (rawBoard bd) = rawGame (withBoard game bd).
Proof. reflexivity. Qed.

Lemma raw_applyMove (game : Game) (from to : Z * Z) :
  Raw.applyMove (rawGame game) (rawSquare from) (rawSquare to)
  = let '(game', r) := applyMove game from to in (rawGame game', r).
Proof.
  destruct from as [fr fc], to as [tr tc].
  unfold Raw.applyMove, applyMove.
  cbn [Raw.board rawGame rawSquare Raw.row Raw.col fst snd].
  rewrite raw_get_num.
  destruct (get (board game) fr fc) as [piece| |] eqn:Hget; [|done..].
  rewrite raw_setCell. unfold setCell at 1.
  assert (hasRow fr = true) as ->.
  { unfold get, rowAt in Hget. by destruct (hasRow fr). }
  destruct piece as [[|piece]|]; [done| |done].
  cbn [Raw.minus Raw.toNumber Raw.abs Raw.half fmap option_fmap option_map
       Raw.numEq Raw.upTo Raw.plus].
  change (Raw.dirOf (Some ?d)) with (dirOf d).
  rewrite raw_kingCapture, raw_setCell.
  set (start := <[(fr, fc) := Null]> (board game)).
  assert
    ((if isUpper piece
      then let '(bd', r) :=
             kingCapture start piece fr fc (dirOf (tr - fr)) (dirOf (tc - fc))
               (range 1 (Z.abs (tr - fr))) in (rawBoard bd', r)
      else if bool_decide (Z.abs (tr - fr) = 2) && bool_decide (Z.abs (tc - fc) = 2)
           then match
                  match setCell start (fr + (tr - fr) `div` 2)
                          (fc + (tc - fc) `div` 2) Null with
                  | Ok bd' => Ok (rawBoard bd')
                  | TypeError => TypeError
                  | OutOfFuel => OutOfFuel
                  end
                with
                | Ok board' => (board', Ok true)
                | TypeError => (rawBoard start, TypeError)
                | OutOfFuel => (rawBoard start, OutOfFuel)
                end
           else (rawBoard start, Ok false))
     = let '(bd', r) :=
         (if isUpper piece
          then kingCapture start piece fr fc (dirOf (tr - fr)) (dirOf (tc - fc))
                 (range 1 (Z.abs (tr - fr)))
          else if bool_decide (Z.abs (tr - fr) = 2)
                  && bool_decide (Z.abs (tc - fc) = 2)
               then match setCell start (fr + (tr - fr) / 2) (fc + (tc - fc) / 2)
                            Null with
                    | Ok board' => (board', Ok true)
                    | TypeError => (start, TypeError)
                    | OutOfFuel => (start, OutOfFuel)
                    end
               else (start, Ok false)) in
       (rawBoard bd', r)) as ->.
  { destruct (isUpper piece); [done|]. head_case; [|done].
    by destruct (setCell _ _ _ _). }
  destruct (if isUpper piece then _ else _) as [bd' captured].
  destruct captured as [didCapture| |]; [|done..].
  rewrite raw_setCell.
  destruct (setCell bd' tr tc (Str piece)) as [bd''| |] eqn:Hset; [|done..].
  cbn [Raw.strictEq Raw.key].
  assert (∀ k : Z,
    (if bool_decide (piece = Sw) && bool_decide (tr = k)
     then <[(k, pretty tc) := Str SW]> (rawBoard bd'') else rawBoard bd'')
    = rawBoard (if bool_decide (piece = Sw) && bool_decide (tr = k)
                then <[(tr, tc) := Str SW]> bd'' else bd'')) as Hw.
  { intros k. destruct (bool_decide (piece = Sw)); [|done].
    case_bool_decide; [|done]. subst k. cbn [andb]. by rewrite rawBoard_insert. }
  rewrite Hw. clear Hw.
  set (bdw := if bool_decide (piece = Sw) && bool_decide (tr = 0) then _ else bd'').
  assert (∀ k : Z,
    (if bool_decide (piece = Sb) && bool_decide (tr = k)
     then <[(k, pretty tc) := Str SB]> (rawBoard bdw) else rawBoard bdw)
    = rawBoard (if bool_decide (piece = Sb) && bool_decide (tr = k)
                then <[(tr, tc) := Str SB]> bdw else bdw)) as Hb.
  { intros k. destruct (bool_decide (piece = Sb)); [|done].
    case_bool_decide; [|done]. subst k. cbn [andb]. by rewrite rawBoard_insert. }
  rewrite Hb. clear Hb.
  set (bdb := if bool_decide (piece = Sb) && bool_decide (tr = 7) then _ else bdw).
  rewrite raw_withBoard, raw_hasCaptureFrom.
  destruct (if didCapture then _ else _) as [[|]| |]; reflexivity.
Qed.





(** ** What [isValidMove] accepts of a payload *)

(** The numeral of an index is one digit. *)
Lemma index_numeral (k : Z) : 0 ≤ k < 8 → ∃ a, pretty k = String a EmptyString.
Proof. intros H. each_index k; by eexists. Qed.

Lemma pretty_N_go_nonempty (x : N) (s : string) :
  s ≠ EmptyString → pretty.pretty_N_go x s ≠ EmptyString.
Proof.
  revert s. induction (N.lt_wf_0 x) as [x _ IH]; intros s ?.
  assert (x = 0 ∨ 0 < x)%N as [->|?] by lia.
  - by rewrite pretty.pretty_N_go_0.
  - rewrite pretty.pretty_N_go_step by done. apply IH; [|done].
    by apply N.div_lt.
Qed.

Lemma numeral_nonempty (z : Z) : pretty z ≠ EmptyString.
Proof.
  destruct z as [|p|p]; [done| |done].
  unfold pretty, pretty_Z, pretty, pretty_positive, pretty, pretty_N.
  rewrite decide_False by done.
  rewrite pretty.pretty_N_go_step by done. by apply pretty_N_go_nonempty.
Qed.

(** A numeral followed by a numeral is no numeral of an index. *)
Lemma appended_no_index (k n z : Z) :
  0 ≤ k < 8 → 0 ≤ z < 8 → pretty k +:+ pretty n ≠ pretty z.
Proof.
  intros Hk Hz.
  destruct (index_numeral k Hk) as [a ->], (index_numeral z Hz) as [b ->].
  cbn. intros [= _ H]. by destruct (numeral_nonempty n).
Qed.

Lemma rowOf_Some (s : string) (z : Z) :
  Raw.rowOf s = Some z → 0 ≤ z < 8 ∧ s = pretty z.
Proof.
  unfold Raw.rowOf. intros H. apply find_some in H as [Hin Heq].
  apply bool_decide_eq_true in Heq. split; [|done].
  apply list_elem_of_In, elem_of_range in Hin. lia.
Qed.

Lemma key_names (v : Raw.value) (k : Z) :
  0 ≤ k < 8 → Raw.key v = pretty k → names v k.
Proof.
  intros Hk. destruct v as [z|s| |]; cbn [Raw.key].
  - intros ->%(inj pretty). by left.
  - intros ->. by right.
  - intros H. symmetry in H. by destruct (numeral_not_undefined k).
  - intros H. each_index k; discriminate H.
Qed.

Lemma names_key (v : Raw.value) (k : Z) : names v k → Raw.key v = pretty k.
Proof. by intros [-> | ->]. Qed.

Lemma names_toNumber (v : Raw.value) (k : Z) :
  0 ≤ k < 8 → names v k → Raw.toNumber v = Some k.
Proof.
  intros Hk [-> | ->]; [done|]. each_index k; vm_compute; reflexivity.
Qed.

Lemma rawBoard_lookup_Some (bd : Board) (r : Z) (s : string) (v : cell) :
  wfBoard bd → rawBoard bd !! (r, s) = Some v →
  ∃ c, s = pretty c ∧ onBoard (r, c) ∧ bd !! (r, c) = Some v.
Proof.
  intros Hwf H. unfold rawBoard in H.
  apply (lookup_kmap_Some (λ sq : Z * Z, (sq.1, pretty sq.2))) in H
    as ([a b] & [= -> ->] & H).
  exists b. split; [done|]. split; [|done]. apply Hwf. by eexists.
Qed.

Lemma raw_getOpt_Some (bd : Board) (r c : Raw.value) (v : cell) :
  wfBoard bd → Raw.getOpt (rawBoard bd) r c = Some v →
  ∃ x y, names r x ∧ names c y ∧ onBoard (x, y) ∧ bd !! (x, y) = Some v.
Proof.
  intros Hwf. unfold Raw.getOpt.
  destruct (Raw.rowOf _) as [x|] eqn:Hrow; [|done].
  apply rowOf_Some in Hrow as [Hx Hr]. intros H.
  apply rawBoard_lookup_Some in H as (y & Hc & Hon & H); [|done].
  exists x, y. destruct Hon as [_ Hy]. cbn in Hy.
  split; [by apply key_names|]. split; [by apply key_names|]. done.
Qed.

Lemma raw_get_Some (bd : Board) (r c : Raw.value) (v : cell) :
  wfBoard bd → Raw.get (rawBoard bd) r c = Ok (Some v) →
  ∃ x y, names r x ∧ names c y ∧ onBoard (x, y) ∧ bd !! (x, y) = Some v.
Proof.
  intros Hwf H. apply (raw_getOpt_Some bd r c v Hwf).
  unfold Raw.get in H. unfold Raw.getOpt.
  destruct (Raw.rowOf _); [|done]. by injection H.
Qed.

(** A read depends on the names of its keys alone. *)
Lemma raw_get_names (bd : Board) (r c : Raw.value) (x y : Z) :
  names r x → names c y → Raw.get (rawBoard bd) r c = get bd x y.
Proof.
  intros Hr Hc. rewrite <- raw_get_num. unfold Raw.get.
  by rewrite (names_key r x Hr), (names_key c y Hc).
Qed.

Lemma names_minus (a b : Raw.value) (x y : Z) :
  0 ≤ x < 8 → 0 ≤ y < 8 → names a x → names b y → Raw.minus a b = Some (x - y).
Proof.
  intros Hx Hy Ha Hb. unfold Raw.minus.
  by rewrite (names_toNumber a x Hx Ha), (names_toNumber b y Hy Hb).
Qed.

Lemma names_minus_l (a b : Raw.value) (x : Z) :
  0 ≤ x < 8 → names a x → Raw.minus a b = Raw.minus (Raw.Num x) b.
Proof.
  intros Hx Ha. unfold Raw.minus. by rewrite (names_toNumber a x Hx Ha).
Qed.

Lemma names_minus_r (a b : Raw.value) (y : Z) :
  0 ≤ y < 8 → names b y → Raw.minus a b = Raw.minus a (Raw.Num y).
Proof.
  intros Hy Hb. unfold Raw.minus. by rewrite (names_toNumber b y Hy Hb).
Qed.

Lemma raw_get_key (bd : Raw.Board) (r c : Raw.value) (x y : Z) :
  names r x → names c y → Raw.get bd r c = Raw.get bd (Raw.Num x) (Raw.Num y).
Proof.
  intros Hr Hc. unfold Raw.get.
  by rewrite (names_key r x Hr), (names_key c y Hc).
Qed.

(** *** The destination: a numeral is as good as its number *)

Section Destination.

Context (vtr vtc : Raw.value) (tr tc : Z).
Hypothesis (Htr : 0 ≤ tr < 8) (Htc : 0 ≤ tc < 8).
Hypothesis (Hvtr : names vtr tr) (Hvtc : names vtc tc).

Lemma isCaptureMove_to (bd : Raw.Board) (piece : sym) (from : Raw.Pos) :
  Raw.isCaptureMove bd piece from (Raw.mkPos vtr vtc)
  = Raw.isCaptureMove bd piece from (rawSquare (tr, tc)).
Proof.
  unfold Raw.isCaptureMove. cbn [Raw.row Raw.col rawSquare fst snd].
  by rewrite (names_minus_l vtr _ tr), (names_minus_l vtc _ tc).
Qed.

Lemma isValidKingMove_to (game : Raw.Game) (piece : sym) (from : Raw.Pos)
    (m : option (Raw.value * Raw.value)) :
  Raw.isValidKingMove game from (Raw.mkPos vtr vtc) piece m
  = Raw.isValidKingMove game from (rawSquare (tr, tc)) piece m.
Proof.
  unfold Raw.isValidKingMove. cbn [Raw.row Raw.col rawSquare fst snd].
  by rewrite (names_minus_l vtr _ tr), (names_minus_l vtc _ tc),
    (raw_get_key _ vtr vtc tr tc).
Qed.

Lemma moveRules_to (game : Raw.Game) (piece : sym) (from : Raw.Pos) (isCapture : bool) :
  Raw.moveRules game from (Raw.mkPos vtr vtc) piece isCapture
  = Raw.moveRules game from (rawSquare (tr, tc)) piece isCapture.
Proof.
  unfold Raw.moveRules. rewrite isValidKingMove_to.
  cbn [Raw.row Raw.col rawSquare fst snd].
  by rewrite (names_minus_l vtr _ tr), (names_minus_l vtc _ tc).
Qed.

End Destination.

(** *** The origin: a numeral is as good as its number for a single step,
    and is refused or throws for a longer move *)

Section Origin.

Context (bd : Board) (vfr vfc : Raw.value) (fr fc tr tc : Z).
Hypothesis (Hwf : wfBoard bd).
Hypothesis (Hfr : 0 ≤ fr < 8) (Hfc : 0 ≤ fc < 8).
Hypothesis (Hvfr : names vfr fr) (Hvfc : names vfc fc).

Lemma isCaptureMove_from (b : Raw.Board) (piece : sym) :
  Z.abs (tr - fr) ≤ 1 →
  Raw.isCaptureMove b piece (Raw.mkPos vfr vfc) (rawSquare (tr, tc))
  = Raw.isCaptureMove b piece (rawSquare (fr, fc)) (rawSquare (tr, tc)).
Proof.
  intros Hd. unfold Raw.isCaptureMove. cbn [Raw.row Raw.col rawSquare fst snd].
  rewrite (names_minus_r _ vfr fr), (names_minus_r _ vfc fc) by done.
  cbn [Raw.minus Raw.toNumber Raw.abs fmap option_fmap option_map Raw.upTo].
  by rewrite range_nil.
Qed.

Lemma isValidKingMove_from (game : Raw.Game) (piece : sym)
    (m : option (Raw.value * Raw.value)) :
  Z.abs (tr - fr) ≤ 1 →
  Raw.isValidKingMove game (Raw.mkPos vfr vfc) (rawSquare (tr, tc)) piece m
  = Raw.isValidKingMove game (rawSquare (fr, fc)) (rawSquare (tr, tc)) piece m.
Proof.
  intros Hd. unfold Raw.isValidKingMove. cbn [Raw.row Raw.col rawSquare fst snd].
  rewrite (names_minus_r _ vfr fr), (names_minus_r _ vfc fc) by done.
  cbn [Raw.minus Raw.toNumber Raw.abs fmap option_fmap option_map Raw.upTo].
  by rewrite range_nil.
Qed.

Lemma moveRules_from (game : Raw.Game) (piece : sym) (isCapture : bool) :
  Z.abs (tr - fr) ≤ 1 → isUpper piece = true ∨ isCapture = false →
  Raw.moveRules game (Raw.mkPos vfr vfc) (rawSquare (tr, tc)) piece isCapture
  = Raw.moveRules game (rawSquare (fr, fc)) (rawSquare (tr, tc)) piece isCapture.
Proof.
  intros Hd Hkind. unfold Raw.moveRules. rewrite isValidKingMove_from by done.
  cbn [Raw.row Raw.col rawSquare fst snd].
  rewrite (names_minus_r _ vfr fr), (names_minus_r _ vfc fc) by done.
  destruct Hkind as [-> | ->]; [done|].
  destruct (isUpper piece); [done|]. cbn [negb andb].
  by destruct (negb _).
Qed.

Hypothesis (Htext : ¬ (vfr = Raw.Num fr ∧ vfc = Raw.Num fc)).

(** With a string in the origin, the squares that the engine computes from
    it with [+] are no squares. *)
Lemma text_row (n : Z) :
  vfr = Raw.Text (pretty fr) → Raw.rowOf (Raw.key (Raw.plus vfr (Some n))) = None.
Proof.
  intros ->. cbn [Raw.plus Raw.key Raw.numeral].
  destruct (Raw.rowOf _) as [z|] eqn:E; [|done].
  apply rowOf_Some in E as [Hz E]. by destruct (appended_no_index fr n z).
Qed.

Lemma text_col (r n : Z) :
  vfc = Raw.Text (pretty fc) →
  rawBoard bd !! (r, Raw.key (Raw.plus vfc (Some n))) = None.
Proof.
  intros ->. cbn [Raw.plus Raw.key Raw.numeral].
  destruct (rawBoard bd !! _) as [v|] eqn:E; [|done].
  apply rawBoard_lookup_Some in E as (c & E & [_ Hc] & _); [|done]. cbn in Hc.
  by destruct (appended_no_index fc n c).
Qed.

Lemma text_origin : vfr = Raw.Text (pretty fr) ∨ vfc = Raw.Text (pretty fc).
Proof.
  destruct Hvfr as [-> | ->]; [|by left].
  destruct Hvfc as [-> | ->]; [|by right]. by destruct Htext.
Qed.

Lemma text_get (n m : Z) :
  Raw.get (rawBoard bd) (Raw.plus vfr (Some n)) (Raw.plus vfc (Some m)) = TypeError ∨
  Raw.get (rawBoard bd) (Raw.plus vfr (Some n)) (Raw.plus vfc (Some m)) = Ok None.
Proof.
  unfold Raw.get. destruct text_origin as [H|H].
  - left. by rewrite text_row.
  - destruct (Raw.rowOf _); [|by left]. right. by rewrite text_col.
Qed.

Lemma text_getOpt (n m : Z) :
  Raw.getOpt (rawBoard bd) (Raw.plus vfr (Some n)) (Raw.plus vfc (Some m)) = None.
Proof.
  unfold Raw.getOpt. destruct text_origin as [H|H].
  - by rewrite text_row.
  - destruct (Raw.rowOf _); [|done]. by rewrite text_col.
Qed.

End Origin.

Lemma anyM_never {A : Type} (f : A → res bool) (l : list A) :
  (∀ x, f x = Ok false ∨ f x = TypeError) →
  anyM f l = Ok false ∨ anyM f l = TypeError.
Proof.
  intros H. induction l as [|x l IH]; [by left|].
  cbn. destruct (H x) as [-> | ->]; cbn; [done|by right].
Qed.

(** A move of two rows or more from an origin given by a string is not
    accepted: the squares passed over or jumped are no squares. *)
Lemma far_text_refused (game : Game) (vfr vfc : Raw.value) (fr fc tr tc : Z)
    (piece : sym) (others : res bool) :
  wfBoard game.(board) →
  0 ≤ fr < 8 → 0 ≤ fc < 8 → names vfr fr → names vfc fc →
  ¬ (vfr = Raw.Num fr ∧ vfc = Raw.Num fc) →
  2 ≤ Z.abs (tr - fr) →
  (isCapture ← Raw.isCaptureMove (rawBoard game.(board)) piece (Raw.mkPos vfr vfc)
                 (rawSquare (tr, tc));
   forced ← (if negb isCapture then others else Ok false);
   if (forced : bool) then Ok false
   else Raw.moveRules (rawGame game) (Raw.mkPos vfr vfc) (rawSquare (tr, tc)) piece
          isCapture) ≠ Ok true.
Proof.
  intros Hwf Hfr Hfc Hvfr Hvfc Htext Hd.
  pose proof (text_get game.(board) vfr vfc fr fc Hwf Hfr Hfc Hvfr Hvfc Htext) as Hget.
  pose proof (text_getOpt game.(board) vfr vfc fr fc Hwf Hfr Hfc Hvfr Hvfc Htext)
    as HgetOpt.
  unfold Raw.isCaptureMove, Raw.moveRules, Raw.isValidKingMove.
  cbn [Raw.row Raw.col rawSquare fst snd Raw.board rawGame].
  rewrite (names_minus_r _ vfr fr), (names_minus_r _ vfc fc) by done.
  cbn [Raw.minus Raw.toNumber Raw.abs Raw.half fmap option_fmap option_map Raw.upTo
       Raw.numEq Raw.numLt].
  destruct (isUpper piece).
  - set (scan := anyM _ _).
    assert (scan = Ok false ∨ scan = TypeError) as [-> | ->]; [|cbn|done].
    { apply anyM_never. intros dist.
      destruct (Hget (Raw.dirOf (Some (tr - fr)) * dist)
                     (Raw.dirOf (Some (tc - fc)) * dist)) as [-> | ->]; cbn; auto. }
    destruct others as [[|]| |]; cbn; try done.
    destruct (negb _); [done|]. destruct (bool_decide _); [done|].
    rewrite range_cons by lia. cbn [Raw.kingPath].
    by destruct (Hget (Raw.dirOf (Some (tr - fr)) * 1)
                      (Raw.dirOf (Some (tc - fc)) * 1)) as [-> | ->].
  - cbn [mbind res_bind].
    destruct (bool_decide (Z.abs (tr - fr) = 2) && bool_decide (Z.abs (tc - fc) = 2));
      cbn [negb mbind res_bind andb].
    + cbn [Raw.plus]. by rewrite HgetOpt.
    + destruct others as [[|]| |]; cbn; try done.
      by rewrite (bool_decide_eq_false_2 (Z.abs (tr - fr) = 1)) by lia.
Qed.

(** A request that [isValidMove] accepts on a full grid names a legal move
    between two squares; an origin given by a string moves one row. *)
Lemma raw_accepted (game : Game) (from to : Raw.Pos) (color : sym) :
  wfBoard game.(board) →
  Raw.isValidMove (rawGame game) from to color = Ok true →
  ∃ fr fc tr tc : Z,
    (0 ≤ fr < 8 ∧ 0 ≤ fc < 8) ∧
    names from.(Raw.row) fr ∧ names from.(Raw.col) fc ∧
    names to.(Raw.row) tr ∧ names to.(Raw.col) tc ∧
    isValidMove game (mkPos fr fc) (mkPos tr tc) color = Ok true ∧
    ((from.(Raw.row) = Raw.Num fr ∧ from.(Raw.col) = Raw.Num fc) ∨
     Z.abs (tr - fr) ≤ 1).
Proof.
  intros Hwf. destruct from as [vfr vfc], to as [vtr vtc].
  unfold Raw.isValidMove.
  cbn [Raw.board Raw.currentPlayer Raw.status Raw.mustContinueFrom rawGame
       Raw.row Raw.col].
  destruct (bool_decide (status game = playing)) eqn:Hst; cbn [negb]; [|done].
  destruct (bool_decide (currentPlayer game = color)) eqn:Hcp; cbn [negb]; [|done].
  destruct (Raw.strictEq vfr vtr && Raw.strictEq vfc vtc); [done|].
  destruct (Raw.offBoard vtr || Raw.offBoard vtc); [done|].
  destruct (truthy (Raw.getOpt (rawBoard (board game)) vfr vfc)) as [piece|] eqn:Hp;
    [|done].
  destruct (bool_decide (toLowerCase piece = color)) eqn:Hlow; cbn [negb]; [|done].
  destruct (match rawChain (mustContinueFrom game) with
            | Some m => Raw.notAt m vfr vfc
            | None => false
            end) eqn:Hm; [done|].
  destruct (Raw.get (rawBoard (board game)) vtr vtc) as [dest| |] eqn:Hd;
    cbn [mbind res_bind]; [|done..].
  destruct (isNull dest) eqn:Hn; cbn [negb]; [|done].
  assert (Raw.getOpt (rawBoard (board game)) vfr vfc = Some (Str piece)) as Hp'.
  { destruct (Raw.getOpt _ _ _) as [[|s]|]; simplify_eq/=; done. }
  apply raw_getOpt_Some in Hp' as (fr & fc & Hvfr & Hvfc & [Hfr Hfc] & Hpiece);
    [|done].
  apply bool_decide_eq_true in Hn, Hst, Hcp, Hlow. subst dest.
  apply raw_get_Some in Hd as (tr & tc & Hvtr & Hvtc & [Htr Htc] & Hdest); [|done].
  cbn [fst snd] in Hfr, Hfc, Htr, Htc.
  intros Hres. exists fr, fc, tr, tc. cbn [Raw.row Raw.col].
  split; [done|]. do 4 (split; [done|]).
  assert (Hchain : ∀ m, mustContinueFrom game = Some m →
                        vfr = Raw.Num fr ∧ vfc = Raw.Num fc ∧ m = (fr, fc)).
  { intros [mr mc] E. rewrite E in Hm. cbn in Hm.
    apply orb_false_iff in Hm as [H1 H2]. apply negb_false_iff in H1, H2.
    destruct Hvfr as [-> | ->]; [|done]. destruct Hvfc as [-> | ->]; [|done].
    cbn in H1, H2. apply bool_decide_eq_true in H1, H2. by subst. }
  assert (Hpre : preconditions game (fr, fc) (tr, tc) color piece).
  { unfold preconditions, onBoard. cbn [fst snd].
    split_and!; try done; try lia.
    - intros [= -> ->]. congruence.
    - intros m E. by destruct (Hchain m E) as (_ & _ & ->). }
  rewrite (isValidMove_pre _ _ _ _ _ _ _ Hpre).
  rewrite (isCaptureMove_to vtr vtc tr tc) in Hres by done.
  assert (Hsplit : ∀ P Q : Prop, Q → P → P ∧ Q) by tauto.
  assert (Hrules : ∀ isCapture,
    Raw.moveRules (rawGame game) (Raw.mkPos vfr vfc) (Raw.mkPos vtr vtc) piece isCapture
    = Raw.moveRules (rawGame game) (Raw.mkPos vfr vfc) (rawSquare (tr, tc)) piece
        isCapture).
  { intros isCapture. by apply moveRules_to. }
  destruct (decide (vfr = Raw.Num fr ∧ vfc = Raw.Num fc)) as [[-> ->]|Htext].
  - apply Hsplit; [by left|].
    change (Raw.mkPos (Raw.Num fr) (Raw.Num fc)) with (rawSquare (fr, fc)) in *.
    rewrite raw_isCaptureMove in Hres.
    destruct (isCaptureMove _ _ _ _) as [isCapture| |]; cbn [mbind res_bind] in *;
      [|done..].
    rewrite raw_playerHasAnyCapture in Hres.
    destruct (if negb isCapture then _ else _) as [[|]| |]; cbn [mbind res_bind] in *;
      try done.
    by rewrite Hrules, raw_moveRules in Hres.
  - destruct (decide (Z.abs (tr - fr) ≤ 1)) as [Hnear|Hfar].
    + apply Hsplit; [by right|].
      rewrite (isCaptureMove_from vfr vfc fr fc tr tc) in Hres by done.
      rewrite raw_isCaptureMove in Hres.
      destruct (isCaptureMove _ _ _ _) as [isCapture| |] eqn:Hcap;
        cbn [mbind res_bind] in *; [|done..].
      rewrite raw_playerHasAnyCapture in Hres.
      destruct (if negb isCapture then _ else _) as [[|]| |]; cbn [mbind res_bind] in *;
        try done.
      rewrite Hrules, (moveRules_from vfr vfc fr fc tr tc) in Hres; try done.
      * by rewrite raw_moveRules in Hres.
      * unfold isCaptureMove in Hcap. destruct (isUpper piece); [by left|right].
        injection Hcap as <-.
        by rewrite (bool_decide_eq_false_2 (Z.abs (tr - fr) = 2)) by lia.
    + exfalso. revert Hres.
      assert (Hsame : ∀ isCapture,
        Raw.moveRules (rawGame game) (Raw.mkPos vfr vfc) (Raw.mkPos vtr vtc) piece
          isCapture
        = Raw.moveRules (rawGame game) (Raw.mkPos vfr vfc) (rawSquare (tr, tc)) piece
            isCapture) by done.
      destruct (Raw.isCaptureMove _ _ _ _) as [isCapture| |] eqn:Hcap;
        cbn [mbind res_bind]; [|done..].
      pose proof (far_text_refused game vfr vfc fr fc tr tc piece
                    (Raw.playerHasAnyCapture (rawGame game) color)
                    Hwf Hfr Hfc Hvfr Hvfc Htext ltac:(lia)) as Hno.
      rewrite Hcap in Hno. cbn [mbind res_bind] in Hno.
      destruct (if negb isCapture then _ else _) as [[|]| |]; cbn [mbind res_bind] in *;
        try done.
      by rewrite Hsame.
Qed.

(** X26. [isValidMove] accepts no request that is not a legal move between
    two squares: on a full grid, when it accepts a request whose
    coordinates are integers or strings or are missing, each coordinate is
    an index of the board or the numeral of one, and [isValidMove] accepts
    the move between the squares so named.  (What goes wrong with a destination given by
    strings goes wrong after the move has been accepted.) *)
Theorem accepted_request_names_move (game : Game) (from to : Raw.Pos) (color : sym) :
  wfBoard game.(board) →
  Raw.isValidMove (rawGame game) from to color = Ok true →
  ∃ fr fc tr tc : Z,
    names from.(Raw.row) fr ∧ names from.(Raw.col) fc ∧
    names to.(Raw.row) tr ∧ names to.(Raw.col) tc ∧
    isValidMove game (mkPos fr fc) (mkPos tr tc) color = Ok true.
Proof.
  intros Hwf Hvalid.
  destruct (raw_accepted game from to color Hwf Hvalid)
    as (fr & fc & tr & tc & _ & Hfr & Hfc & Htr & Htc & Hint & _).
  by exists fr, fc, tr, tc.
Qed.

Lemma accepted_request_names_move_witness :
  ∃ fr fc tr tc : Z,
    names (Raw.Num 1) fr ∧ names (Raw.Num 2) fc ∧
    names (Raw.Text "0") tr ∧ names (Raw.Text "1") tc ∧
    isValidMove promotionGame (mkPos fr fc) (mkPos tr tc) Sw = Ok true.
Proof.
  apply (accepted_request_names_move promotionGame (rawSquare (1, 2))
           (Raw.mkPos (Raw.Text "0") (Raw.Text "1")) Sw).
  - apply wfBoardb_spec. vm_compute. reflexivity.
  - vm_compute. reflexivity.
Defined.

(** *** A destination given by numbers *)

Lemma raw_setCell_key (bd : Raw.Board) (r c : Raw.value) (x y : Z) (v : cell) :
  names r x → names c y →
  Raw.setCell bd r c v = Raw.setCell bd (Raw.Num x) (Raw.Num y) v.
Proof.
  intros Hr Hc. unfold Raw.setCell.
  by rewrite (names_key r x Hr), (names_key c y Hc).
Qed.

(** An origin given by numerals is as good as its numbers for a move of one
    row. *)
Lemma applyMove_from (game : Raw.Game) (vfr vfc : Raw.value) (fr fc tr tc : Z) :
  0 ≤ fr < 8 → 0 ≤ fc < 8 → names vfr fr → names vfc fc →
  Z.abs (tr - fr) ≤ 1 →
  Raw.applyMove game (Raw.mkPos vfr vfc) (rawSquare (tr, tc))
  = Raw.applyMove game (rawSquare (fr, fc)) (rawSquare (tr, tc)).
Proof.
  intros Hfr Hfc Hvfr Hvfc Hd. unfold Raw.applyMove.
  cbn [Raw.row Raw.col rawSquare fst snd].
  rewrite (raw_get_key _ vfr vfc fr fc), (raw_setCell_key _ vfr vfc fr fc) by done.
  destruct (Raw.get _ _ _) as [piece| |]; [|done..].
  destruct (Raw.setCell _ _ _ _) as [bd| |]; [|done..].
  rewrite (names_minus_r _ vfr fr), (names_minus_r _ vfc fc) by done.
  cbn [Raw.minus Raw.toNumber Raw.abs fmap option_fmap option_map Raw.upTo Raw.numEq].
  rewrite range_nil by lia.
  rewrite (bool_decide_eq_false_2 (Z.abs (tr - fr) = 2)) by lia.
  reflexivity.
Qed.

(** X27. What goes wrong is confined to destinations given by strings: on a
    full grid, when [isValidMove] accepts a request whose destination has
    integers for its row and its column, the origin names a square, by
    integers or by numerals, [isValidMove] accepts the move between the two
    squares, and [applyMove] leaves the game and ends as it does for that
    move given by integers. *)
Theorem numeric_destination_applied (game : Game) (from : Raw.Pos) (t : Z * Z)
    (color : sym) :
  wfBoard game.(board) →
  Raw.isValidMove (rawGame game) from (rawSquare t) color = Ok true →
  ∃ f : Z * Z,
    names from.(Raw.row) f.1 ∧ names from.(Raw.col) f.2 ∧
    isValidMove game (mkPos f.1 f.2) (mkPos t.1 t.2) color = Ok true ∧
    Raw.applyMove (rawGame game) from (rawSquare t)
      = (rawGame (applyMove game f t).1, (applyMove game f t).2).
Proof.
  intros Hwf Hvalid. destruct t as [tr tc], from as [vfr vfc].
  destruct (raw_accepted game _ _ color Hwf Hvalid)
    as (fr & fc & tr' & tc' & [Hfr Hfc] & Hvfr & Hvfc & Htr & Htc & Hint & Hkind).
  cbn [Raw.row Raw.col rawSquare fst snd] in *.
  destruct Htr as [[= <-]|[=]], Htc as [[= <-]|[=]].
  exists (fr, fc). cbn [fst snd]. split_and!; try done.
  assert (Raw.applyMove (rawGame game) (Raw.mkPos vfr vfc) (rawSquare (tr, tc))
          = Raw.applyMove (rawGame game) (rawSquare (fr, fc)) (rawSquare (tr, tc)))
    as ->.
  { destruct Hkind as [[-> ->]|Hnear]; [done|]. by apply applyMove_from. }
  rewrite raw_applyMove. by destruct (applyMove game (fr, fc) (tr, tc)).
Qed.

Lemma numeric_destination_applied_witness :
  ∃ f : Z * Z,
    names (Raw.Text "5") f.1 ∧ names (Raw.Text "0") f.2 ∧
    isValidMove startedGame (mkPos f.1 f.2) (mkPos 4 1) Sw = Ok true ∧
    Raw.applyMove (rawGame startedGame) (Raw.mkPos (Raw.Text "5") (Raw.Text "0"))
        (rawSquare (4, 1))
      = (rawGame (applyMove startedGame f (4, 1)).1,
         (applyMove startedGame f (4, 1)).2).
Proof.
  apply (numeric_destination_applied startedGame
           (Raw.mkPos (Raw.Text "5") (Raw.Text "0")) (4, 1) Sw).
  - apply wfBoardb_spec. vm_compute. reflexivity.
  - vm_compute. reflexivity.
Defined.

(** ** Moves whose destination is given by strings *)

(** [isValidMove] tests the coordinates of [to] with [<] and [>=] alone,
    which convert a string to its number, and reads [board[tr][tc]], where
    ["2"] selects the same row as 2: a destination given by numerals is
    accepted like the square it names.  [applyMove] and the capture scanner
    then compute with [+] and [===], which do not convert. *)

(** C3. The turn invariant fails for a move that [isValidMove] accepts.  In
    [jumpGame] the white man at (4,5) can jump over (3,4) to (2,3) and from
    there over (3,2).  With the destination [{ row: 2, col: "3" }] the jump
    is accepted and [applyMove] removes the captured piece; the scanner,
    called with the column ["3"], looks at the columns ["3-1"] and ["31"]
    and finds no capture, so that the turn passes to black although a
    further capture is available from the landing square: outcome (b) where
    (a) is due.  With the destination [{ row: "2", col: "2" }] in
    [scenarioB] the jump is accepted as well, and [applyMove] throws in the
    scanner (row ["2-1"]) after it has moved the man and removed the
    captured piece: neither (a) nor (b). *)
Theorem text_destination_breaks_turn :
  (Raw.isValidMove (rawGame jumpGame) (rawSquare (4, 5))
     (Raw.mkPos (Raw.Num 2) (Raw.Text "3")) Sw = Ok true ∧
   ∃ game',
     Raw.applyMove (rawGame jumpGame) (rawSquare (4, 5))
       (Raw.mkPos (Raw.Num 2) (Raw.Text "3")) = (game', Ok ()) ∧
     Raw.board (rawGame jumpGame) !! (3, "4") = Some (Str Sb) ∧
     Raw.board game' !! (3, "4") = Some Null ∧
     Raw.board game' !! (2, "3") = Some (Str Sw) ∧
     Raw.hasCaptureFrom game' (Raw.Num 2) (Raw.Num 3) = Ok true ∧
     Raw.currentPlayer game' = Sb ∧
     Raw.mustContinueFrom game' = None) ∧
  (Raw.isValidMove (rawGame scenarioB) (rawSquare (4, 4))
     (Raw.mkPos (Raw.Text "2") (Raw.Text "2")) Sw = Ok true ∧
   ∃ game',
     Raw.applyMove (rawGame scenarioB) (rawSquare (4, 4))
       (Raw.mkPos (Raw.Text "2") (Raw.Text "2")) = (game', TypeError) ∧
     Raw.board game' !! (4, "4") = Some Null ∧
     Raw.board game' !! (3, "3") = Some Null ∧
     Raw.board game' !! (2, "2") = Some (Str Sw) ∧
     Raw.currentPlayer game' = Sw ∧
     Raw.mustContinueFrom game' = None).
Proof.
  split.
  - split; [vm_compute; reflexivity|].
    exists (Raw.applyMove (rawGame jumpGame) (rawSquare (4, 5))
              (Raw.mkPos (Raw.Num 2) (Raw.Text "3"))).1.
    split_and!; vm_compute; reflexivity.
  - split; [vm_compute; reflexivity|].
    exists (Raw.applyMove (rawGame scenarioB) (rawSquare (4, 4))
              (Raw.mkPos (Raw.Text "2") (Raw.Text "2"))).1.
    split_and!; vm_compute; reflexivity.
Qed.

(** A king whose origin is given by strings makes [isValidMove] throw: in
    [scenarioC] the white king at [{ row: "4", col: "4" }] is found, and
    the loop of line 258 then reads [board["4-1"]], which is no row. *)
Example text_origin_of_king_throws :
  Raw.isValidMove (rawGame scenarioC) (Raw.mkPos (Raw.Text "4") (Raw.Text "4"))
    (rawSquare (1, 1)) Sw = TypeError ∧
  (Raw.makeMove (rawGame scenarioC) (Raw.mkPos (Raw.Text "4") (Raw.Text "4"))
     (rawSquare (1, 1)) Sw).2 = TypeError.
Proof. split; vm_compute; reflexivity. Qed.

(** A king that captures to a square whose column is given by a string
    makes the handler throw: in [scenarioC] the capture from (4,4) over
    (2,2) to [{ row: 1, col: "1" }] is accepted, and [hasKingCaptureFrom],
    called by [applyMove] with the column ["1"], reads the column ["1-1"]
    of row 0, finds [undefined] and calls [toLowerCase] on it. *)
Example king_capture_to_text_throws :
  Raw.isValidMove (rawGame scenarioC) (rawSquare (4, 4))
    (Raw.mkPos (Raw.Num 1) (Raw.Text "1")) Sw = Ok true ∧
  (Raw.makeMove (rawGame scenarioC) (rawSquare (4, 4))
     (Raw.mkPos (Raw.Num 1) (Raw.Text "1")) Sw).2 = TypeError.
Proof. split; vm_compute; reflexivity. Qed.

(** C7. A white man lands on row 0 and is not promoted.  In
    [promotionGame] the white man at (1,2) steps to [{ row: "0", col: "1" }]:
    [isValidMove] accepts the move, the handler applies it and announces
    the game, and since ["0" === 0] is false the test of line 424 does not
    crown the man: the square (0,1) holds ["w"] afterwards. *)
Theorem text_row_is_not_promoted :
  Raw.isValidMove (rawGame promotionGame) (rawSquare (1, 2))
    (Raw.mkPos (Raw.Text "0") (Raw.Text "1")) Sw = Ok true ∧
  ∃ game',
    Raw.makeMove (rawGame promotionGame) (rawSquare (1, 2))
      (Raw.mkPos (Raw.Text "0") (Raw.Text "1")) Sw = (game', Ok gameUpdate) ∧
    Raw.applyMove (rawGame promotionGame) (rawSquare (1, 2))
      (Raw.mkPos (Raw.Text "0") (Raw.Text "1")) = (game', Ok ()) ∧
    Raw.board (rawGame promotionGame) !! (1, "2") = Some (Str Sw) ∧
    Raw.board game' !! (1, "2") = Some Null ∧
    Raw.board game' !! (0, "1") = Some (Str Sw).
Proof.
  split; [vm_compute; reflexivity|].
  exists (Raw.applyMove (rawGame promotionGame) (rawSquare (1, 2))
            (Raw.mkPos (Raw.Text "0") (Raw.Text "1"))).1.
  split_and!; vm_compute; reflexivity.
Qed.

(** * Further properties of the engine *)

(** ** What [isValidMove] accepts *)

(** X1. For a request whose four coordinates are integers or are missing:
    on a well-formed board [isValidMove] returns a boolean whenever the row
    of the destination is an integer, whether the other three coordinates
    are missing, negative or beyond the board: no read throws. *)
Theorem isValidMove_returns_on_integer_row (game : Game) (from to : Pos)
    (color : sym) :
  wfBoard game.(board) → to.(row) ≠ Missing →
  ∃ b, isValidMove game from to color = Ok b.
Proof. apply isValidMove_total. Qed.

Lemma isValidMove_returns_on_integer_row_witness :
  ∃ b, isValidMove startedGame (mkPos Missing (-3)) (mkPos 9 Missing) Sw = Ok b.
Proof.
  apply isValidMove_returns_on_integer_row.
  - apply wfBoardb_spec. vm_compute. reflexivity.
  - discriminate.
Defined.

(** X2. Among the requests whose coordinates are integers or are missing,
    [isValidMove] accepts no malformed one: an accepted move has no missing
    coordinate, goes from a square of the board that holds a piece of the
    player whose turn it is to an empty square of the board, starts at the
    chain square when a chain is active, and is diagonal. *)
Theorem accepted_move_sound (game : Game) (from to : Pos) (color : sym) :
  isValidMove game from to color = Ok true →
  ∃ (fr fc tr tc : Z) (piece : sym),
    from = mkPos fr fc ∧ to = mkPos tr tc ∧
    preconditions game (fr, fc) (tr, tc) color piece ∧
    Z.abs (tr - fr) = Z.abs (tc - fc) ∧ 0 < Z.abs (tr - fr).
Proof.
  intros Hvalid. apply isValidMove_true in Hvalid
    as (fr & fc & tr & tc & piece & isCapture & -> & -> & Hpre & Hcap & _ & Hrules).
  exists fr, fc, tr, tc, piece. split; [done|]. split; [done|]. split; [done|].
  pose proof (moveRules_diagonal _ _ _ _ _ _ _ Hcap Hrules) as Hdiag.
  split; [done|].
  destruct Hpre as (_ & _ & Hne & _).
  destruct (decide (tr = fr)) as [->|?]; [|lia].
  destruct (decide (tc = fc)) as [->|?]; [done|lia].
Qed.

Lemma accepted_move_sound_witness :
  ∃ (fr fc tr tc : Z) (piece : sym),
    mkPos 5 0 = mkPos fr fc ∧ mkPos 4 1 = mkPos tr tc ∧
    preconditions startedGame (fr, fc) (tr, tc) Sw piece ∧
    Z.abs (tr - fr) = Z.abs (tc - fc) ∧ 0 < Z.abs (tr - fr).
Proof.
  apply (accepted_move_sound startedGame (mkPos 5 0) (mkPos 4 1) Sw).
  vm_compute. reflexivity.
Defined.

(** A man's jump over an enemy piece is accepted. *)
Lemma man_capture_accepted (game : Game) (fr fc tr tc : Z) (color piece : sym) :
  preconditions game (fr, fc) (tr, tc) color piece →
  isUpper piece = false →
  manCaptureShape game.(board) piece (fr, fc) (tr, tc) →
  isValidMove game (mkPos fr fc) (mkPos tr tc) color = Ok true ∧
  isCaptureMove game.(board) piece (fr, fc) (tr, tc) = Ok true.
Proof.
  intros Hpre Hk (Hr & Hc & e & He & Hne). cbn [fst snd] in *.
  pose proof Hpre as (_ & _ & _ & [Htr _] & [Hfr _] & _). cbn in Htr, Hfr.
  assert (Hcap : isCaptureMove (board game) piece (fr, fc) (tr, tc) = Ok true).
  { rewrite isCaptureMove_man by done.
    by rewrite !bool_decide_eq_true_2. }
  split; [|done].
  apply isValidMove_true_iff. exists piece, true.
  split; [done|]. split; [done|]. split; [done|].
  unfold moveRules. rewrite Hk. cbn.
  destruct (midpoint fr tr Hr) as (_ & _ & Hmid).
  rewrite getOpt_int, He by (by apply Hmid). cbn.
  by rewrite bool_decide_eq_false_2.
Qed.

(** X3. The legal moves of a man. Under the preconditions, and when
    [playerHasAnyCapture] returns, [isValidMove] accepts the move of a man
    exactly when it is a jump of two rows and two columns over an enemy
    piece (in any direction), or when no capture is available to the
    player, no chain is active and the man takes one diagonal step forward
    (a white man up, a black man down). *)
Theorem man_move_legal_iff (game : Game) (fr fc tr tc : Z) (color piece : sym)
    (any : bool) :
  preconditions game (fr, fc) (tr, tc) color piece →
  isUpper piece = false →
  playerHasAnyCapture game color = Ok any →
  isValidMove game (mkPos fr fc) (mkPos tr tc) color = Ok true ↔
  manCaptureShape game.(board) piece (fr, fc) (tr, tc) ∨
  (any = false ∧ game.(mustContinueFrom) = None ∧ Z.abs (tc - fc) = 1 ∧
   tr - fr = if bool_decide (toLowerCase piece = Sw) then -1 else 1).
Proof.
  intros Hpre Hk Hany. split.
  - intros Hvalid. apply isValidMove_true_iff in Hvalid
      as (piece' & isCapture & Hpre' & Hcap & Hforced & Hrules).
    assert (piece' = piece) as ->.
    { destruct Hpre as (_ & _ & _ & _ & [_ Hp] & _).
      destruct Hpre' as (_ & _ & _ & _ & [_ Hp'] & _). congruence. }
    destruct isCapture.
    + left. pose proof (accepted_capture_shape _ _ _ _ _ _ _ Hpre Hcap Hrules) as H.
      unfold captureShape in H. by rewrite Hk in H.
    + right. rewrite Hforced in Hany by done. injection Hany as <-.
      split; [done|].
      unfold moveRules in Hrules. rewrite Hk in Hrules. cbn [negb andb] in Hrules.
      destruct (bool_decide (Z.abs (tr - fr) = 1)) eqn:E1; [|done].
      destruct (bool_decide (Z.abs (tc - fc) = 1)) eqn:E2; [|done].
      apply bool_decide_eq_true in E1, E2. cbn in Hrules.
      destruct (mustContinueFrom game) as [m|] eqn:Hm.
      { rewrite bool_decide_eq_true_2 in Hrules by eauto. done. }
      rewrite bool_decide_eq_false_2 in Hrules by (by intros [? ?]).
      split; [done|]. split; [done|].
      destruct (bool_decide (toLowerCase piece = Sw)); cbn in Hrules.
      * destruct (bool_decide (0 ≤ tr - fr)) eqn:E; [done|].
        apply bool_decide_eq_false in E. lia.
      * destruct (bool_decide (tr - fr ≤ 0)) eqn:E; [done|].
        apply bool_decide_eq_false in E. lia.
  - intros [Hshape|(-> & Hm & Hc & Hr)].
    + by apply (man_capture_accepted game fr fc tr tc color piece).
    + apply isValidMove_true_iff. exists piece, false.
      split; [done|].
      assert (Z.abs (tr - fr) = 1) as Hr1 by (destruct (bool_decide _); lia).
      split.
      { rewrite isCaptureMove_man by done. f_equal.
        apply andb_false_iff. left. apply bool_decide_eq_false. lia. }
      split; [done|].
      unfold moveRules. rewrite Hk, Hm.
      rewrite !(bool_decide_eq_true_2 (Z.abs (tr - fr) = 1)) by done.
      rewrite !(bool_decide_eq_true_2 (Z.abs (tc - fc) = 1)) by done.
      cbn.
      destruct (bool_decide (toLowerCase piece = Sw)); cbn.
      * rewrite bool_decide_eq_false_2 by lia. done.
      * rewrite bool_decide_eq_false_2 by lia. done.
Qed.

Lemma man_move_legal_iff_witness :
  isValidMove scenarioB (mkPos 4 4) (mkPos 2 2) Sw = Ok true ↔
  manCaptureShape scenarioB.(board) Sw (4, 4) (2, 2) ∨
  (true = false ∧ scenarioB.(mustContinueFrom) = None ∧ Z.abs (2 - 4) = 1 ∧
   2 - 4 = if bool_decide (toLowerCase Sw = Sw) then -1 else 1).
Proof.
  apply (man_move_legal_iff scenarioB 4 4 2 2 Sw Sw true).
  - unfold preconditions, onBoard. cbn [fst snd].
    split_and!; try done; try lia; try (vm_compute; reflexivity).
  - reflexivity.
  - vm_compute. reflexivity.
Defined.

(** X4. The simple moves of a king. Under the preconditions,
    [isValidMove] accepts a king's move and does not classify it as a
    capture exactly when no capture is available to the player, no chain is
    active, the move is diagonal and every traversed square is empty,
    whatever the distance. *)
Theorem king_simple_move_legal_iff (game : Game) (fr fc tr tc : Z)
    (color piece : sym) :
  preconditions game (fr, fc) (tr, tc) color piece →
  isUpper piece = true →
  (isValidMove game (mkPos fr fc) (mkPos tr tc) color = Ok true ∧
   isCaptureMove game.(board) piece (fr, fc) (tr, tc) = Ok false)
  ↔ (playerHasAnyCapture game color = Ok false ∧
     game.(mustContinueFrom) = None ∧
     Z.abs (tr - fr) = Z.abs (tc - fc) ∧
     ∀ sq, sq ∈ traversed (fr, fc) (tr, tc) → game.(board) !! sq = Some Null).
Proof.
  intros Hpre Hk.
  pose proof Hpre as (_ & _ & Hne & [Htr Htc] & [Hfr Hp] & _ & _ & Hd).
  cbn in Htr, Htc, Hfr.
  set (dirR := dirOf (tr - fr)). set (dirC := dirOf (tc - fc)).
  set (dists := range 1 (Z.abs (tr - fr))).
  assert (Hrows : ∀ d, d ∈ dists → 0 ≤ fr + dirR * d < 8).
  { intros d Hin. apply elem_of_range in Hin. by apply between_rows. }
  split.
  - intros [Hvalid Hcap].
    apply isValidMove_true_iff in Hvalid
      as (piece' & isCapture & Hpre' & Hcap' & Hforced & Hrules).
    destruct Hpre' as (_ & _ & _ & _ & [_ Hp'] & _).
    assert (piece' = piece) as -> by congruence.
    assert (isCapture = false) as -> by congruence.
    split; [by apply Hforced|].
    unfold moveRules in Hrules. rewrite Hk in Hrules.
    unfold isValidKingMove in Hrules.
    destruct (bool_decide (Z.abs (tr - fr) = Z.abs (tc - fc))) eqn:Hdiag;
      cbn [negb] in Hrules; [|done].
    apply bool_decide_eq_true in Hdiag.
    destruct (bool_decide (Z.abs (tr - fr) < 1)); [done|].
    fold dirR dirC dists in Hrules.
    destruct (kingPath _ _ _ _ _ _ _ _) as [[found|]| |] eqn:Hpath;
      cbn in Hrules; try done.
    rewrite get_int, Hd in Hrules by done. cbn in Hrules.
    rewrite isCaptureMove_king in Hcap by done. injection Hcap as Hcap.
    fold dirR dirC dists in Hcap.
    destruct found.
    + apply kingPath_true in Hpath
        as (l1 & d0 & l2 & Hsplit & _ & (e & He & Hen) & _); [|done].
      assert (existsb (enemyOnPath (board game) piece fr fc dirR dirC) dists = true);
        [|congruence].
      apply existsb_exists. exists d0. split.
      * apply list_elem_of_In. rewrite Hsplit. apply elem_of_app. right. left.
      * unfold enemyOnPath. unfold pathCell in He. rewrite He. cbn.
        by rewrite bool_decide_eq_false_2.
    + destruct (kingPath_end _ _ _ _ _ _ false false dists Hrows Hpath)
        as [_ Hall]; [by right|].
      destruct (mustContinueFrom game) as [m|] eqn:Hm.
      { rewrite bool_decide_eq_true_2 in Hrules by eauto. done. }
      split; [done|]. split; [done|].
      rewrite traversed_dirOf by done. fold dirR dirC dists.
      intros sq Hsq. apply list_elem_of_fmap in Hsq as (d & -> & Hin).
      by apply Hall.
  - intros (Hany & Hm & Hdiag & Hnull).
    rewrite traversed_dirOf in Hnull by done. fold dirR dirC dists in Hnull.
    assert (Hall : ∀ d, d ∈ dists →
              board game !! (fr + dirR * d, fc + dirC * d) = Some Null).
    { intros d Hin. apply Hnull. apply list_elem_of_fmap. by exists d. }
    assert (Hcap : isCaptureMove (board game) piece (fr, fc) (tr, tc) = Ok false).
    { rewrite isCaptureMove_king by done. f_equal. fold dirR dirC dists.
      apply not_true_is_false. intros Hex.
      apply existsb_exists in Hex as (d & Hin & Hen).
      apply list_elem_of_In in Hin. unfold enemyOnPath in Hen.
      by rewrite (Hall d Hin) in Hen. }
    split; [|done].
    apply isValidMove_true_iff. exists piece, false.
    split; [done|]. split; [done|]. split; [done|].
    unfold moveRules. rewrite Hk. unfold isValidKingMove.
    rewrite (bool_decide_eq_true_2 _ Hdiag). cbn [negb].
    assert (0 < Z.abs (tr - fr)).
    { destruct (decide (tr = fr)) as [->|?]; [|lia].
      destruct (decide (tc = fc)) as [->|?]; [done|lia]. }
    rewrite bool_decide_eq_false_2 by lia.
    fold dirR dirC dists.
    rewrite (kingPath_clear _ _ _ _ _ _ false dists Hrows Hall). cbn.
    rewrite get_int, Hd by done. cbn. rewrite Hm.
    rewrite bool_decide_eq_false_2 by (by intros [? ?]). done.
Qed.

Lemma king_simple_move_legal_iff_witness :
  (isValidMove kingGame (mkPos 4 4) (mkPos 1 1) Sw = Ok true ∧
   isCaptureMove kingGame.(board) SW (4, 4) (1, 1) = Ok false)
  ↔ (playerHasAnyCapture kingGame Sw = Ok false ∧
     kingGame.(mustContinueFrom) = None ∧
     Z.abs (1 - 4) = Z.abs (1 - 4) ∧
     ∀ sq, sq ∈ traversed (4, 4) (1, 1) → kingGame.(board) !! sq = Some Null).
Proof.
  apply (king_simple_move_legal_iff kingGame 4 4 1 1 Sw SW).
  - unfold preconditions, onBoard. cbn [fst snd].
    split_and!; try done; try lia; try (vm_compute; reflexivity).
  - reflexivity.
Defined.

(** ** The capture scanner and the rules agree *)

Lemma anyM_true_inv {A : Type} (f : A → res bool) (l : list A) :
  anyM f l = Ok true → ∃ x, x ∈ l ∧ f x = Ok true.
Proof.
  induction l as [|x l IH]; cbn; [done|].
  destruct (f x) as [[|]| |] eqn:E; cbn; try done.
  - intros _. exists x. split; [left|done].
  - intros H. destruct (IH H) as (y & Hy & Hfy). exists y. split; [by right|done].
Qed.

Lemma anyM_exists {A : Type} (f : A → res bool) (l : list A) (x : A) :
  (∀ y, y ∈ l → ∃ b, f y = Ok b) → x ∈ l → f x = Ok true → anyM f l = Ok true.
Proof.
  induction l as [|y l IH]; intros Htot Hin Hx; [by apply elem_of_nil in Hin|].
  cbn. destruct (Htot y) as [b Hb]; [left|]. rewrite Hb. cbn.
  destruct b; [done|]. apply IH.
  - intros z Hz. apply Htot. by right.
  - apply elem_of_cons in Hin as [->|Hin]; [congruence|done].
  - done.
Qed.

Lemma collectM_flat_map {A B : Type} (f : A → res (list B)) (g : A → list B)
    (l : list A) :
  (∀ x, x ∈ l → f x = Ok (g x)) → collectM f l = Ok (flat_map g l).
Proof.
  induction l as [|x l IH]; intros H; cbn; [done|].
  rewrite (H x) by left. cbn. rewrite IH by (intros y Hy; apply H; by right).
  done.
Qed.

(** [getAllPlayerPieces] does not throw, and lists the pieces of the colour
    on the grid row by row. *)
Lemma getAllPlayerPieces_piecesOf (bd : Board) (color : sym) :
  getAllPlayerPieces bd color = Ok (piecesOf bd color).
Proof.
  unfold getAllPlayerPieces, piecesOf.
  apply collectM_flat_map. intros row Hrow. apply elem_of_range in Hrow.
  apply collectM_flat_map. intros col _.
  rewrite get_int by done. reflexivity.
Qed.

Lemma elem_of_piecesOf (bd : Board) (color : sym) (row col : Z) (p : sym) :
  (row, col, p) ∈ piecesOf bd color ↔
  onBoard (row, col) ∧ bd !! (row, col) = Some (Str p) ∧ toLowerCase p = color.
Proof.
  unfold piecesOf, onBoard. cbn [fst snd].
  rewrite list_elem_of_In, in_flat_map. split.
  - intros (r & Hr & Hin). apply in_flat_map in Hin as (c & Hc & Hin).
    apply list_elem_of_In, elem_of_range in Hr, Hc.
    unfold pieceEntry in Hin.
    destruct (bd !! (r, c)) as [[|q]|] eqn:E; cbn in Hin; try done.
    destruct (bool_decide (toLowerCase q = color)) eqn:Hq; [|done].
    apply bool_decide_eq_true in Hq.
    destruct Hin as [[= <- <- <-]|[]]. done.
  - intros ([Hr Hc] & Hp & Hq). exists row.
    split; [by apply list_elem_of_In, elem_of_range|].
    apply in_flat_map. exists col.
    split; [by apply list_elem_of_In, elem_of_range|].
    unfold pieceEntry. rewrite Hp. cbn. rewrite bool_decide_eq_true_2 by done.
    by left.
Qed.

(** The body of the loop of [hasRegularCaptureFrom] for one direction. *)
Lemma regular_direction (bd : Board) (piece : sym) (row col dr dc : Z) :
  ∃ b : bool,
  (if offBoard (row + 2 * dr) || offBoard (col + 2 * dc)
      || offBoard (row + dr) || offBoard (col + dc)
   then Ok false
   else
     midPiece ← get bd (row + dr) (col + dc);
     landPiece ← get bd (row + 2 * dr) (col + 2 * dc);
     if negb (bool_decide (is_Some (truthy midPiece))) || negb (isNull landPiece)
     then Ok false
     else
       m ← lower midPiece;
       p ← lower (Some (Str piece));
       if bool_decide (m = p) then Ok false else Ok true)
  = Ok b ∧
  (b = true ↔ onBoard (row + 2 * dr, col + 2 * dc) ∧
              onBoard (row + dr, col + dc) ∧
              bd !! (row + 2 * dr, col + 2 * dc) = Some Null ∧
              enemyAt bd piece (row + dr, col + dc)).
Proof.
  unfold onBoard, enemyAt. cbn [fst snd].
  destruct (_ || _) eqn:E.
  { exists false. split; [done|]. split; [done|]. intros ([? ?] & [? ?] & _).
    rewrite !orb_true_iff in E. unfold offBoard in E.
    rewrite !orb_true_iff, !bool_decide_eq_true in E. lia. }
  rewrite !orb_false_iff in E. destruct E as [[[E1 E2] E3] E4].
  apply offBoard_false in E1, E2, E3, E4.
  rewrite !get_int by done. cbn.
  destruct (bd !! (row + dr, col + dc)) as [[|m]|] eqn:Hm; cbn.
  - exists false. split; [done|]. split; [done|]. by intros (_ & _ & _ & e & [=] & _).
  - destruct (isNull (bd !! (row + 2 * dr, col + 2 * dc))) eqn:Hl; cbn.
    + apply bool_decide_eq_true in Hl.
      destruct (bool_decide (toLowerCase m = toLowerCase piece)) eqn:Hc.
      * apply bool_decide_eq_true in Hc. exists false. split; [done|].
        split; [done|]. intros (_ & _ & _ & e & [= <-] & Hne). done.
      * apply bool_decide_eq_false in Hc. exists true. split; [done|].
        split; [|done]. intros _. split_and!; try done; try lia. by exists m.
    + apply bool_decide_eq_false in Hl. exists false. split; [done|].
      split; [done|]. by intros (_ & _ & ? & _).
  - exists false. split; [done|]. split; [done|]. by intros (_ & _ & _ & e & [=] & _).
Qed.

(** For a man, the scanner answers true exactly when some jump over an
    enemy piece to an empty square of the board exists. *)
Lemma hasRegularCaptureFrom_iff (game : Game) (row col : Z) (piece : sym) :
  onBoard (row, col) → game.(board) !! (row, col) = Some (Str piece) →
  hasRegularCaptureFrom game row col = Ok true ↔
  ∃ to, onBoard to ∧ game.(board) !! to = Some Null ∧
        manCaptureShape game.(board) piece (row, col) to.
Proof.
  intros [Hr Hc] Hp. cbn in Hr, Hc.
  unfold hasRegularCaptureFrom. rewrite get_int, Hp by done. cbn -[anyM].
  split.
  - intros H. apply anyM_true_inv in H as ([dr dc] & Hin & H).
    apply in_directions in Hin as [Hdr Hdc].
    destruct (regular_direction (board game) piece row col dr dc) as (b & Hb & Hiff).
    cbn in Hb. rewrite Hb in H. injection H as ->.
    destruct Hiff as [Hiff _]. destruct (Hiff eq_refl) as (Hland & _ & Hnull & Hen).
    exists (row + 2 * dr, col + 2 * dc). split; [done|]. split; [done|].
    unfold manCaptureShape. cbn [fst snd].
    replace (row + 2 * dr - row) with (dr * 2) by lia.
    replace (col + 2 * dc - col) with (dc * 2) by lia.
    rewrite !Z.div_mul by done.
    split_and!; [lia|lia|done].
  - intros ([tr tc] & Hland & Hnull & Hr2 & Hc2 & Hen). cbn [fst snd] in *.
    destruct (midpoint row tr Hr2) as (_ & _ & Hmr).
    destruct (midpoint col tc Hc2) as (_ & _ & Hmc).
    assert (Hdr : tr - row = 2 * ((tr - row) `div` 2)).
    { assert (tr - row = 2 ∨ tr - row = -2) as [E|E] by lia; by rewrite E. }
    assert (Hdc : tc - col = 2 * ((tc - col) `div` 2)).
    { assert (tc - col = 2 ∨ tc - col = -2) as [E|E] by lia; by rewrite E. }
    apply (anyM_exists _ _ ((tr - row) `div` 2, (tc - col) `div` 2)).
    + intros [dr dc] _.
      destruct (regular_direction (board game) piece row col dr dc) as (b & Hb & _).
      by exists b.
    + unfold directions.
      assert (tr - row = 2 ∨ tr - row = -2) as [E1|E1] by lia;
        assert (tc - col = 2 ∨ tc - col = -2) as [E2|E2] by lia;
        rewrite E1, E2; rewrite !elem_of_cons; auto 6.
    + destruct (regular_direction (board game) piece row col
                  ((tr - row) `div` 2) ((tc - col) `div` 2)) as (b & Hb & Hiff).
      cbn in Hb. cbn. rewrite Hb. f_equal. apply Hiff.
      replace (row + 2 * ((tr - row) `div` 2)) with tr by lia.
      replace (col + 2 * ((tc - col) `div` 2)) with tc by lia.
      destruct Hland as [Htr Htc]. cbn in Htr, Htc.
      split_and!; try done. split; cbn; [by apply Hmr|by apply Hmc].
Qed.

(** Once an enemy piece has been met, the scan succeeds exactly when the
    next square is an empty square of the board. *)
Lemma kingScan_after_enemy (n : nat) (bd : Board) (piece : sym)
    (row col dr dc d : Z) :
  kingScan (S n) bd (Some (Str piece)) row col dr dc d true = Ok true ↔
  onBoard (row + dr * d, col + dc * d) ∧
  bd !! (row + dr * d, col + dc * d) = Some Null.
Proof.
  rewrite kingScan_S. cbn zeta. unfold onBoard. cbn [fst snd].
  destruct (offBoard (row + dr * d) || offBoard (col + dc * d)) eqn:E.
  { split; [done|]. intros [[? ?] _].
    apply orb_true_iff in E. unfold offBoard in E.
    rewrite !orb_true_iff, !bool_decide_eq_true in E. lia. }
  apply orb_false_iff in E as [E1 E2]. apply offBoard_false in E1, E2.
  rewrite get_int by done. cbn.
  destruct (bd !! (row + dr * d, col + dc * d)) as [[|c]|]; cbn.
  - done.
  - split; [by destruct (bool_decide _)|by intros [_ [=]]].
  - split; [done|by intros [_ [=]]].
Qed.

(** A scan that succeeds has run over empty squares, then one enemy piece,
    then an empty square, all on the board. *)
Lemma kingScan_true_inv (bd : Board) (piece : sym) (row col dr dc : Z) (n : nat) :
  ∀ d, kingScan n bd (Some (Str piece)) row col dr dc d false = Ok true →
  ∃ e, d ≤ e ∧
    (∀ k, d ≤ k < e → bd !! (row + dr * k, col + dc * k) = Some Null) ∧
    enemyAt bd piece (row + dr * e, col + dc * e) ∧
    onBoard (row + dr * (e + 1), col + dc * (e + 1)) ∧
    bd !! (row + dr * (e + 1), col + dc * (e + 1)) = Some Null.
Proof.
  induction n as [|n IH]; intros d; [done|].
  rewrite kingScan_S. cbn zeta.
  destruct (offBoard (row + dr * d) || offBoard (col + dc * d)) eqn:E; [done|].
  apply orb_false_iff in E as [E1 E2]. apply offBoard_false in E1, E2.
  rewrite get_int by done. cbn.
  destruct (bd !! (row + dr * d, col + dc * d)) as [[|c]|] eqn:Hc; cbn; [| |done].
  - intros H. destruct (IH _ H) as (e & Hle & Hnull & Hrest).
    exists e. split; [lia|]. split; [|done].
    intros k Hk. destruct (decide (k = d)) as [->|]; [done|]. apply Hnull. lia.
  - destruct (bool_decide (toLowerCase c = toLowerCase piece)) eqn:Hcp; [done|].
    apply bool_decide_eq_false in Hcp. intros H.
    destruct n as [|n]; [done|]. apply kingScan_after_enemy in H as [Hon Hnull].
    exists d. split; [lia|]. split; [intros k ?; lia|].
    split; [by exists c|]. done.
Qed.

(** Conversely, over [k] empty squares, one enemy piece and an empty
    square, all on the board, the scan succeeds with [k + 2] iterations. *)
Lemma kingScan_run (bd : Board) (piece : sym) (row col dr dc : Z) (k : nat) :
  ∀ (n : nat) (d : Z),
  (∀ j, d ≤ j < d + Z.of_nat k →
        onBoard (row + dr * j, col + dc * j) ∧
        bd !! (row + dr * j, col + dc * j) = Some Null) →
  onBoard (row + dr * (d + Z.of_nat k), col + dc * (d + Z.of_nat k)) →
  enemyAt bd piece (row + dr * (d + Z.of_nat k), col + dc * (d + Z.of_nat k)) →
  onBoard (row + dr * (d + Z.of_nat k + 1), col + dc * (d + Z.of_nat k + 1)) →
  bd !! (row + dr * (d + Z.of_nat k + 1), col + dc * (d + Z.of_nat k + 1))
    = Some Null →
  (k + 2 ≤ n)%nat →
  kingScan n bd (Some (Str piece)) row col dr dc d false = Ok true.
Proof.
  induction k as [|k IH]; intros n d Hnull Hon (e & He & Hne) Hon' Hnull' Hn.
  - destruct n as [|[|n]]; [lia|lia|].
    replace (d + Z.of_nat 0) with d in * by lia.
    rewrite kingScan_S. cbn zeta. destruct Hon as [H1 H2]. cbn in H1, H2.
    unfold offBoard.
    rewrite !(bool_decide_eq_false_2 (_ < 0)), !(bool_decide_eq_false_2 (8 ≤ _))
      by lia.
    cbn. rewrite get_int, He by done. cbn.
    rewrite bool_decide_eq_false_2 by done.
    by apply kingScan_after_enemy.
  - destruct n as [|n]; [lia|].
    rewrite kingScan_S. cbn zeta.
    destruct (Hnull d) as [[H1 H2] Hd]; [lia|]. cbn in H1, H2.
    unfold offBoard.
    rewrite !(bool_decide_eq_false_2 (_ < 0)), !(bool_decide_eq_false_2 (8 ≤ _))
      by lia.
    cbn. rewrite get_int, Hd by done. cbn.
    replace (d + Z.of_nat (S k)) with (d + 1 + Z.of_nat k) in * by lia.
    apply IH; try done; [|by exists e|lia].
    intros j Hj. apply Hnull. lia.
Qed.

Lemma traversed_ray (row col dr dc m : Z) :
  dr = 1 ∨ dr = -1 → dc = 1 ∨ dc = -1 → 0 < m →
  traversed (row, col) (row + dr * m, col + dc * m) =
    map (λ d, (row + dr * d, col + dc * d)) (range 1 m).
Proof.
  intros Hdr Hdc Hm. unfold traversed. cbn [fst snd].
  replace (Z.sgn (row + dr * m - row)) with dr
    by (destruct Hdr as [->| ->]; lia).
  replace (Z.sgn (col + dc * m - col)) with dc
    by (destruct Hdc as [->| ->]; lia).
  replace (Z.abs (row + dr * m - row)) with m
    by (destruct Hdr as [->| ->]; lia).
  reflexivity.
Qed.

Lemma dirOf_abs (x : Z) : x ≠ 0 → dirOf x * Z.abs x = x.
Proof. intros H. unfold dirOf. case_bool_decide; lia. Qed.

(** For a king, the scanner answers true exactly when some diagonal line
    from the square to an empty square of the board crosses exactly one
    enemy piece and nothing else. *)
Lemma hasKingCaptureFrom_iff (game : Game) (row col : Z) (piece : sym) :
  wfBoard game.(board) → game.(board) !! (row, col) = Some (Str piece) →
  hasKingCaptureFrom game row col = Ok true ↔
  ∃ to, onBoard to ∧ game.(board) !! to = Some Null ∧
        kingCaptureShape game.(board) piece (row, col) to.
Proof.
  intros Hwf Hp. destruct (wfBoard_onBoard _ _ _ _ Hwf Hp) as [Hr Hc].
  unfold hasKingCaptureFrom. rewrite get_int, Hp by done. cbn -[anyM].
  split.
  - intros H. apply anyM_true_inv in H as ([dr dc] & Hin & H).
    apply in_directions in Hin as [Hdr Hdc].
    apply kingScan_true_inv in H as (e & He & Hnull & Hen & Hon & Hland).
    exists (row + dr * (e + 1), col + dc * (e + 1)).
    split; [done|]. split; [done|]. split.
    { cbn [fst snd]. destruct Hdr as [->| ->], Hdc as [->| ->]; lia. }
    rewrite traversed_ray by (done || lia).
    exists (row + dr * e, col + dc * e). split.
    { apply list_elem_of_fmap. exists e. split; [done|]. apply elem_of_range. lia. }
    split; [done|].
    intros sq Hsq Hne. apply list_elem_of_fmap in Hsq as (k & -> & Hk).
    apply elem_of_range in Hk. apply Hnull.
    assert (k ≠ e) by (by intros ->). lia.
  - intros ([tr tc] & [Htr Htc] & Hnull & Hdiag & e & He & Hen & Hrest).
    cbn [fst snd] in *.
    rewrite traversed_dirOf in He, Hrest by done.
    apply list_elem_of_fmap in He as (k & -> & Hk). apply elem_of_range in Hk.
    set (dr := dirOf (tr - row)) in *. set (dc := dirOf (tc - col)) in *.
    assert (Hdr : dr = 1 ∨ dr = -1) by apply dirOf_unit.
    assert (Hdc : dc = 1 ∨ dc = -1) by apply dirOf_unit.
    assert (Htr' : row + dr * Z.abs (tr - row) = tr).
    { unfold dr. rewrite dirOf_abs by lia. lia. }
    assert (Htc' : col + dc * Z.abs (tr - row) = tc).
    { unfold dc. rewrite Hdiag, dirOf_abs by lia. lia. }
    assert (Hon : ∀ j, 1 ≤ j ≤ Z.abs (tr - row) →
                       onBoard (row + dr * j, col + dc * j)).
    { intros j Hj. split; cbn [fst snd];
        [destruct Hdr as [E|E]|destruct Hdc as [E|E]]; rewrite E in *; lia. }
    assert (Hcell : ∀ j, 1 ≤ j ≤ Z.abs (tr - row) → j ≠ k →
                         board game !! (row + dr * j, col + dc * j) = Some Null).
    { intros j Hj Hjk. destruct (decide (j = Z.abs (tr - row))) as [->|Hlt].
      - by rewrite Htr', Htc'.
      - apply Hrest.
        + apply list_elem_of_fmap. exists j. split; [done|]. apply elem_of_range. lia.
        + intros [= E _]. destruct Hdr as [E'|E']; rewrite E' in E; lia. }
    apply (anyM_exists _ _ (dr, dc)).
    + intros [dr' dc'] Hin. apply in_directions in Hin as [Hdr' _].
      apply kingScan_total; try done; cbn; lia.
    + unfold directions. destruct Hdr as [E1|E1], Hdc as [E2|E2]; rewrite E1, E2;
        rewrite !elem_of_cons; auto 6.
    + apply (kingScan_run _ _ _ _ _ _ (Z.to_nat (k - 1))).
      * intros j Hj. split; [apply Hon|apply Hcell]; lia.
      * apply Hon. lia.
      * replace (1 + Z.of_nat (Z.to_nat (k - 1))) with k by lia. done.
      * apply Hon. lia.
      * apply Hcell; lia.
      * unfold scanFuel. lia.
Qed.

(** On a full grid the scanner answers true for an occupied square exactly
    when a capture of the piece's kind leads from it to an empty square of
    the board. *)
Lemma hasCaptureFrom_iff (game : Game) (row col : Z) (piece : sym) :
  wfBoard game.(board) → game.(board) !! (row, col) = Some (Str piece) →
  hasCaptureFrom game row col = Ok true ↔
  ∃ to, onBoard to ∧ game.(board) !! to = Some Null ∧
        captureShape game.(board) piece (row, col) to.
Proof.
  intros Hwf Hp. destruct (wfBoard_onBoard _ _ _ _ Hwf Hp) as [Hr Hc].
  unfold hasCaptureFrom, captureShape.
  rewrite getOpt_int, Hp by done. cbn.
  destruct (isUpper piece).
  - by apply hasKingCaptureFrom_iff.
  - by apply hasRegularCaptureFrom_iff.
Qed.

(** X5. The capture scanner is sound and complete for the capture rules:
    on a full 8x8 grid, [hasCaptureFrom] answers true for an occupied square
    exactly when some empty square of the board can be reached from it by a
    capture of the piece's kind: a jump of two over an enemy piece for a
    man, a diagonal line crossing exactly one enemy piece and nothing else
    for a king. *)
Theorem capture_scan_iff (game : Game) (row col : Z) (piece : sym) :
  wfBoard game.(board) → game.(board) !! (row, col) = Some (Str piece) →
  hasCaptureFrom game row col = Ok true ↔
  ∃ to, onBoard to ∧ game.(board) !! to = Some Null ∧
        captureShape game.(board) piece (row, col) to.
Proof. apply hasCaptureFrom_iff. Qed.

Lemma capture_scan_iff_witness :
  hasCaptureFrom scenarioC 4 4 = Ok true ↔
  ∃ to, onBoard to ∧ scenarioC.(board) !! to = Some Null ∧
        captureShape scenarioC.(board) SW (4, 4) to.
Proof.
  apply capture_scan_iff.
  - apply wfBoardb_spec. vm_compute. reflexivity.
  - vm_compute. reflexivity.
Defined.

(** A move of a capture's shape that satisfies the preconditions is
    accepted, as a capture. *)
Lemma capture_shape_accepted (game : Game) (fr fc tr tc : Z) (color piece : sym) :
  preconditions game (fr, fc) (tr, tc) color piece →
  captureShape game.(board) piece (fr, fc) (tr, tc) →
  isValidMove game (mkPos fr fc) (mkPos tr tc) color = Ok true ∧
  isCaptureMove game.(board) piece (fr, fc) (tr, tc) = Ok true.
Proof.
  intros Hpre Hshape. unfold captureShape in Hshape.
  destruct (isUpper piece) eqn:Hk.
  - by apply (king_capture_iff game fr fc tr tc color piece Hpre Hk).
  - by apply man_capture_accepted.
Qed.

(** X6. A mandatory capture can always be played, and only playable
    captures are mandatory: for the player to move of a game in progress on
    a full grid, [playerHasAnyCapture] answers true exactly when
    [isValidMove] accepts some move of one of the player's pieces that is
    classified as a capture.  (During a chain the chain square is assumed to
    hold a piece of the player, as [applyMove] leaves it.) *)
Theorem mandatory_capture_playable (game : Game) (color : sym) :
  wfBoard game.(board) →
  game.(status) = playing → game.(currentPlayer) = color →
  (∀ m, game.(mustContinueFrom) = Some m →
        ∃ p, game.(board) !! m = Some (Str p) ∧ toLowerCase p = color) →
  playerHasAnyCapture game color = Ok true ↔
  ∃ (fr fc tr tc : Z) (piece : sym),
    game.(board) !! (fr, fc) = Some (Str piece) ∧
    isValidMove game (mkPos fr fc) (mkPos tr tc) color = Ok true ∧
    isCaptureMove game.(board) piece (fr, fc) (tr, tc) = Ok true.
Proof.
  intros Hwf Hst Hcp Hchain.
  assert (Hplay : ∀ fr fc p,
    game.(board) !! (fr, fc) = Some (Str p) → toLowerCase p = color →
    (∀ m, game.(mustContinueFrom) = Some m → m = (fr, fc)) →
    hasCaptureFrom game fr fc = Ok true →
    ∃ (fr fc tr tc : Z) (piece : sym),
      game.(board) !! (fr, fc) = Some (Str piece) ∧
      isValidMove game (mkPos fr fc) (mkPos tr tc) color = Ok true ∧
      isCaptureMove game.(board) piece (fr, fc) (tr, tc) = Ok true).
  { intros fr fc p Hp Hlow Hm Hscan.
    apply (hasCaptureFrom_iff game fr fc p Hwf Hp) in Hscan
      as ([tr tc] & Hon & Hnull & Hshape).
    destruct (wfBoard_onBoard _ _ _ _ Hwf Hp) as [Hfr _].
    exists fr, fc, tr, tc, p. split; [done|].
    apply capture_shape_accepted; [|done].
    unfold preconditions. cbn [fst snd].
    split_and!; try done; try lia. intros [= -> ->]. congruence. }
  unfold playerHasAnyCapture. split.
  - destruct (mustContinueFrom game) as [[r c]|] eqn:Hm.
    + intros Hscan. destruct (Hchain _ eq_refl) as (p & Hp & Hlow).
      apply (Hplay r c p); try done. by intros m [= <-].
    + rewrite getAllPlayerPieces_piecesOf. cbn -[anyM]. intros Hany.
      apply anyM_true_inv in Hany as ([[r c] p] & Hin & Hscan).
      apply elem_of_piecesOf in Hin as (_ & Hp & Hlow).
      by apply (Hplay r c p).
  - intros (fr & fc & tr & tc & piece & Hp & Hvalid & Hcap).
    apply isValidMove_true_iff in Hvalid
      as (piece' & isCapture & Hpre & Hcap' & _ & Hrules).
    pose proof Hpre as (_ & _ & _ & Hon & [Hfr Hp'] & Hlow & Hm & Hnull).
    cbn [fst snd] in *. rewrite Hp in Hp'. injection Hp' as <-.
    rewrite Hcap in Hcap'. injection Hcap' as <-.
    assert (Hscan : hasCaptureFrom game fr fc = Ok true).
    { apply (hasCaptureFrom_iff game fr fc piece Hwf Hp).
      exists (tr, tc). split; [done|]. split; [done|].
      by apply (accepted_capture_shape game fr fc tr tc color piece). }
    destruct (mustContinueFrom game) as [[r c]|] eqn:Hmc.
    + specialize (Hm _ eq_refl). by injection Hm as -> ->.
    + rewrite getAllPlayerPieces_piecesOf. cbn -[anyM].
      apply (anyM_exists _ _ (fr, fc, piece)); [| |done].
      * intros [[r c] p] _. apply hasCaptureFrom_total, Hwf.
      * apply elem_of_piecesOf. split; [|done].
        by destruct (wfBoard_onBoard _ _ _ _ Hwf Hp).
Qed.

Lemma mandatory_capture_playable_witness :
  playerHasAnyCapture scenarioB Sw = Ok true ↔
  ∃ (fr fc tr tc : Z) (piece : sym),
    scenarioB.(board) !! (fr, fc) = Some (Str piece) ∧
    isValidMove scenarioB (mkPos fr fc) (mkPos tr tc) Sw = Ok true ∧
    isCaptureMove scenarioB.(board) piece (fr, fc) (tr, tc) = Ok true.
Proof.
  apply mandatory_capture_playable.
  - apply wfBoardb_spec. vm_compute. reflexivity.
  - reflexivity.
  - reflexivity.
  - intros m Hm. vm_compute in Hm. discriminate Hm.
Defined.

(** ** Invariants of the games that are played *)

Lemma lower_landed (piece : sym) (tr : Z) :
  toLowerCase (landed piece tr) = toLowerCase piece.
Proof. unfold landed. destruct piece; repeat case_match; done. Qed.

(** The chain square of a reachable game holds a piece of the player to
    move, and a capture is available from it. *)
Lemma reachable_chain (game : Game) :
  reachable game →
  ∀ r c, game.(mustContinueFrom) = Some (r, c) →
    (∃ p, game.(board) !! (r, c) = Some (Str p) ∧
          toLowerCase p = game.(currentPlayer)) ∧
    hasCaptureFrom game r c = Ok true.
Proof.
  induction 1 as [|g _ IH|g from to color f t g' Hreach IH Hvalid Hf Ht Happly].
  - done.
  - intros r c Hm. destruct (IH r c Hm) as [Hp Hscan]. split; [done|].
    by rewrite <- Hscan.
  - apply isValidMove_true in Hvalid as Hints.
    destruct Hints as (fr & fc & tr & tc & _ & _ & -> & -> & _).
    cbn in Hf, Ht. injection Hf as <-. injection Ht as <-.
    destruct (applyMove_valid _ _ _ _ _ _ (reachable_wf _ Hreach) Hvalid)
      as (piece & bd1 & didCapture & b & Hpre & _ & _ & Hb & Happly').
    rewrite Happly' in Happly. injection Happly as <-. cbn.
    destruct Hpre as (_ & Hcp & _ & _ & _ & Hlow & _).
    intros r c Hm. destruct (didCapture && b) eqn:E; [|done].
    injection Hm as <- <-. apply andb_true_iff in E as [_ ->].
    split.
    + exists (landed piece tr). rewrite lookup_insert_eq. split; [done|].
      rewrite lower_landed. congruence.
    + rewrite <- Hb. by apply hasCaptureFrom_board.
Qed.

(** X7. The capture chain is an invariant of play: in every game reached
    from a fresh game by accepted moves, when [mustContinueFrom] is set the
    square it names holds a piece of the player to move and
    [hasCaptureFrom] answers true for it, so that the player always has a
    move to continue with. *)
Theorem chain_square_invariant (game : Game) (r c : Z) :
  reachable game → game.(mustContinueFrom) = Some (r, c) →
  (∃ p, game.(board) !! (r, c) = Some (Str p) ∧
        toLowerCase p = game.(currentPlayer)) ∧
  hasCaptureFrom game r c = Ok true.
Proof. intros Hreach. by apply reachable_chain. Qed.

(** A man never stands on its far row in a reachable game. *)
Lemma reachable_men (game : Game) :
  reachable game →
  ∀ r c, (game.(board) !! (r, c) = Some (Str Sw) → r ≠ 0) ∧
         (game.(board) !! (r, c) = Some (Str Sb) → r ≠ 7).
Proof.
  induction 1 as [|g _ IH|g from to color f t g' Hreach IH Hvalid Hf Ht Happly].
  - assert (Hrows : Forall (λ c, createInitialBoard !! (0, c) ≠ Some (Str Sw) ∧
                                 createInitialBoard !! (7, c) ≠ Some (Str Sb))
                      (range 0 8)).
    { replace (range 0 8) with [0; 1; 2; 3; 4; 5; 6; 7] by reflexivity.
      repeat (apply Forall_cons; split; [vm_compute; split; discriminate|]).
      apply Forall_nil_2. }
    rewrite Forall_forall in Hrows.
    intros r c. split; intros H ->.
    + destruct (wfBoard_onBoard _ _ _ _ createInitialBoard_wf H) as [_ Hc].
      by destruct (Hrows c); [apply elem_of_range|].
    + destruct (wfBoard_onBoard _ _ _ _ createInitialBoard_wf H) as [_ Hc].
      by destruct (Hrows c); [apply elem_of_range|].
  - exact IH.
  - apply isValidMove_true in Hvalid as Hints.
    destruct Hints as (fr & fc & tr & tc & _ & _ & -> & -> & _).
    cbn in Hf, Ht. injection Hf as <-. injection Ht as <-.
    destruct (applyMove_valid _ _ _ _ _ _ (reachable_wf _ Hreach) Hvalid)
      as (piece & bd1 & didCapture & b & Hpre & _ & _ & _ & Happly').
    destruct Hpre as (_ & _ & _ & _ & [_ Hp] & _). cbn [fst snd] in Hp.
    assert (Hland : g'.(board) !! (tr, tc) = Some (Str (landed piece tr))).
    { rewrite Happly' in Happly. injection Happly as <-. cbn.
      by rewrite lookup_insert_eq. }
    assert (Hg' : g' = (applyMove g (fr, fc) (tr, tc)).1) by (by rewrite Happly).
    intros r c. split; intros H.
    + pose proof H as H0. rewrite Hg' in H0.
      apply applyMove_no_demotion in H0 as [H0|[[= -> ->] H0]]; [| |done].
      * by apply (IH r c).
      * rewrite Hp in H0. injection H0 as ->. intros ->.
        rewrite Hland in H. vm_compute in H. discriminate H.
    + pose proof H as H0. rewrite Hg' in H0.
      apply applyMove_no_demotion in H0 as [H0|[[= -> ->] H0]]; [| |done].
      * by apply (IH r c).
      * rewrite Hp in H0. injection H0 as ->. intros ->.
        rewrite Hland in H. vm_compute in H. discriminate H.
Qed.

(** X8. No man stands on its far row: in every game reached from a fresh
    game by accepted moves between squares given by integer coordinates,
    no square of row 0 holds a white man and no square of row 7 a black
    man (a man that arrives there has become a king). *)
Theorem men_never_on_far_row (game : Game) (c : Z) :
  reachable game →
  game.(board) !! (0, c) ≠ Some (Str Sw) ∧
  game.(board) !! (7, c) ≠ Some (Str Sb).
Proof.
  intros Hreach. split; intros H.
  - by destruct (proj1 (reachable_men game Hreach 0 c) H).
  - by destruct (proj2 (reachable_men game Hreach 7 c) H).
Qed.

Lemma playAll_reachable (moves : list ((Z * Z) * (Z * Z))) :
  ∀ game game', reachable game → playAll game moves = Some game' → reachable game'.
Proof.
  induction moves as [|[f t] rest IH]; intros game game' Hreach; cbn.
  - by intros [= <-].
  - destruct (isValidMove _ _ _ _) as [[|]| |] eqn:Hvalid; try done.
    destruct (applyMove game f t) as [g1 [[]| |]] eqn:Happly; try done.
    apply IH.
    apply (reach_move game (mkPos f.1 f.2) (mkPos t.1 t.2) game.(currentPlayer) f t);
      try done; by destruct f, t.
Qed.

Lemma chainGame_reachable : reachable chainGame.
Proof.
  apply (playAll_reachable
           [((5, 6), (4, 5)); ((2, 1), (3, 2)); ((6, 7), (5, 6));
            ((2, 3), (3, 4)); ((4, 5), (2, 3))] startedGame).
  - apply (reach_join createNewGame), reach_new.
  - vm_compute. reflexivity.
Qed.

Lemma chain_square_invariant_witness :
  (∃ p, chainGame.(board) !! (2, 3) = Some (Str p) ∧
        toLowerCase p = chainGame.(currentPlayer)) ∧
  hasCaptureFrom chainGame 2 3 = Ok true.
Proof.
  apply chain_square_invariant.
  - apply chainGame_reachable.
  - vm_compute. reflexivity.
Defined.

(** The white man that reaches (0,5) in [crownedGame] is a king there. *)
Lemma crownedGame_reachable : reachable crownedGame.
Proof.
  apply (playAll_reachable
           [((5, 6), (4, 5)); ((2, 3), (3, 4)); ((4, 5), (2, 3)); ((1, 4), (3, 2));
            ((5, 2), (4, 1)); ((0, 5), (1, 4)); ((4, 1), (2, 3)); ((2, 3), (0, 5))]
           startedGame).
  - apply (reach_join createNewGame), reach_new.
  - vm_compute. reflexivity.
Qed.

Lemma men_never_on_far_row_witness :
  crownedGame.(board) !! (0, 5) = Some (Str SW) ∧
  crownedGame.(board) !! (0, 5) ≠ Some (Str Sw) ∧
  crownedGame.(board) !! (7, 5) ≠ Some (Str Sb).
Proof.
  split; [vm_compute; reflexivity|].
  apply men_never_on_far_row, crownedGame_reachable.
Defined.

(** ** The handler on a full grid *)




(** ** Counting the pieces *)

Lemma length_flat_map_ext {A B : Type} (F G : A → list B) (l : list A) :
  (∀ y, y ∈ l → length (F y) = length (G y)) →
  length (flat_map F l) = length (flat_map G l).
Proof.
  induction l as [|a l IH]; intros H; cbn; [done|].
  rewrite !length_app, (H a) by left. f_equal. apply IH.
  intros y Hy. apply H. by right.
Qed.

Lemma length_flat_map_update {A B : Type} (F G : A → list B) (l : list A) (x : A) :
  NoDup l → x ∈ l →
  (∀ y, y ∈ l → y ≠ x → length (F y) = length (G y)) →
  (length (flat_map F l) + length (G x) = length (flat_map G l) + length (F x))%nat.
Proof.
  induction l as [|a l IH]; intros Hnd Hin H; [by apply elem_of_nil in Hin|].
  apply NoDup_cons in Hnd as [Ha Hnd]. cbn. rewrite !length_app.
  apply elem_of_cons in Hin as [->|Hx].
  - rewrite (length_flat_map_ext F G l); [lia|].
    intros y Hy. apply H; [by right|]. by intros ->.
  - assert (a ≠ x) by (by intros ->).
    rewrite (H a) by (done || left).
    specialize (IH Hnd Hx). lapply IH; [lia|].
    intros y Hy. apply H. by right.
Qed.

Lemma length_pieceEntry (bd : Board) (color : sym) (r c : Z) :
  length (pieceEntry bd color r c) = Nat.b2n (holds color (bd !! (r, c))).
Proof.
  unfold pieceEntry, holds. destruct (truthy _); [|done].
  by destruct (bool_decide _).
Qed.

(** Writing one square of the grid changes the count by what the square
    held and what it holds. *)
Lemma countPieces_insert (bd : Board) (color : sym) (sq : Z * Z) (v : cell) :
  onBoard sq →
  (countPieces (<[sq := v]> bd) color + Nat.b2n (holds color (bd !! sq))
   = countPieces bd color + Nat.b2n (holds color (Some v)))%nat.
Proof.
  destruct sq as [r c]. intros [Hr Hc]. cbn in Hr, Hc.
  unfold countPieces, piecesOf.
  pose proof (length_flat_map_update
    (λ row, flat_map (λ col, pieceEntry (<[(r, c) := v]> bd) color row col) (range 0 8))
    (λ row, flat_map (λ col, pieceEntry bd color row col) (range 0 8))
    (range 0 8) r) as Hrows.
  pose proof (length_flat_map_update
    (λ col, pieceEntry (<[(r, c) := v]> bd) color r col)
    (λ col, pieceEntry bd color r col) (range 0 8) c) as Hcols.
  cbn beta in Hrows, Hcols.
  rewrite !length_pieceEntry, lookup_insert_eq in Hcols.
  lapply Hrows; [clear Hrows; intros Hrows|apply NoDup_range].
  lapply Hrows; [clear Hrows; intros Hrows|by apply elem_of_range].
  lapply Hrows; [clear Hrows; intros Hrows|].
  - lapply Hcols; [clear Hcols; intros Hcols|apply NoDup_range].
    lapply Hcols; [clear Hcols; intros Hcols|by apply elem_of_range].
    lapply Hcols; [clear Hcols; intros Hcols|].
    + lia.
    + intros y _ Hy. rewrite !length_pieceEntry, lookup_insert_ne; [done|].
      by intros [= ?].
  - intros y _ Hy. apply length_flat_map_ext. intros x _.
    rewrite !length_pieceEntry, lookup_insert_ne; [done|]. by intros [= ?].
Qed.

Lemma holds_own (p : sym) : holds (toLowerCase p) (Some (Str p)) = true.
Proof. by destruct p. Qed.

Lemma holds_own_other (p : sym) :
  holds (otherColor (toLowerCase p)) (Some (Str p)) = false.
Proof. by destruct p. Qed.

Lemma holds_enemy (p e : sym) :
  toLowerCase e ≠ toLowerCase p →
  holds (toLowerCase p) (Some (Str e)) = false ∧
  holds (otherColor (toLowerCase p)) (Some (Str e)) = true.
Proof. by destruct p, e. Qed.

(** An accepted move keeps the number of pieces of the mover and takes at
    most one piece of the other colour, exactly when it captures. *)
Lemma applyMove_counts (game : Game) (fr fc tr tc : Z) (color : sym) :
  wfBoard game.(board) →
  isValidMove game (mkPos fr fc) (mkPos tr tc) color = Ok true →
  ∃ game',
    applyMove game (fr, fc) (tr, tc) = (game', Ok ()) ∧
    countPieces game'.(board) color = countPieces game.(board) color ∧
    ((capturedPiece game game' ∧
      S (countPieces game'.(board) (otherColor color))
        = countPieces game.(board) (otherColor color)) ∨
     (¬ capturedPiece game game' ∧
      countPieces game'.(board) (otherColor color)
        = countPieces game.(board) (otherColor color))).
Proof.
  intros Hwf Hvalid.
  destruct (applyMove_valid _ _ _ _ _ _ Hwf Hvalid)
    as (piece & bd1 & didCapture & b & Hpre & Hbd1 & Hwf' & _ & Happly).
  destruct Hpre as (_ & Hcp & Hne & Hto & [_ Hp] & Hlow & _ & Hd).
  cbn [fst snd] in *.
  eexists. split; [exact Happly|]. cbn [board].
  rewrite <- Hlow in Hcp |- *. clear Hlow color Hvalid.
  assert (Hfrom : onBoard (fr, fc)) by (by apply (wfBoard_onBoard _ _ _ _ Hwf Hp)).
  pose proof (lower_landed piece tr) as Hland.
  assert (Hl1 : holds (toLowerCase piece) (Some (Str (landed piece tr))) = true).
  { rewrite <- Hland. apply holds_own. }
  assert (Hl2 : holds (otherColor (toLowerCase piece))
                  (Some (Str (landed piece tr))) = false).
  { rewrite <- Hland. apply holds_own_other. }
  pose proof (holds_own piece) as Ho1. pose proof (holds_own_other piece) as Ho2.
  set (bd := board game) in *. set (bd0 := <[(fr, fc) := Null]> bd) in *.
  assert (E0 : ∀ c, (countPieces bd0 c + Nat.b2n (holds c (Some (Str piece)))
                     = countPieces bd c)%nat).
  { intros c. pose proof (countPieces_insert bd c (fr, fc) Null Hfrom) as E.
    rewrite Hp in E. fold bd0 in E. cbn in E |- *. lia. }
  destruct Hbd1 as [(-> & [er ec] & (en & Hen & Henemy) & He1 & He2 & ->)|[-> ->]].
  - assert (He : onBoard (er, ec)) by (by apply (wfBoard_onBoard _ _ _ _ Hwf Hen)).
    destruct (holds_enemy piece en Henemy) as [Hh1 Hh2].
    assert (E1 : ∀ c, (countPieces (<[(er, ec) := Null]> bd0) c
                       + Nat.b2n (holds c (Some (Str en)))
                       = countPieces bd0 c)%nat).
    { intros c. pose proof (countPieces_insert bd0 c (er, ec) Null He) as E.
      unfold bd0 in E at 2. rewrite lookup_insert_ne, Hen in E by done.
      cbn in E |- *. lia. }
    assert (E2 : ∀ c, (countPieces (<[(tr, tc) := Str (landed piece tr)]>
                                      (<[(er, ec) := Null]> bd0)) c
                       = countPieces (<[(er, ec) := Null]> bd0) c
                         + Nat.b2n (holds c (Some (Str (landed piece tr)))))%nat).
    { intros c.
      pose proof (countPieces_insert (<[(er, ec) := Null]> bd0) c (tr, tc)
                    (Str (landed piece tr)) Hto) as E.
      unfold bd0 in E at 2. rewrite !lookup_insert_ne, Hd in E by done.
      cbn in E |- *. lia. }
    split.
    + specialize (E0 (toLowerCase piece)). specialize (E1 (toLowerCase piece)).
      specialize (E2 (toLowerCase piece)).
      rewrite Ho1 in E0. rewrite Hh1 in E1. rewrite Hl1 in E2. cbn in *. lia.
    + left. split.
      * exists (er, ec), en. split; [done|]. split; [congruence|].
        cbn. by rewrite lookup_insert_ne, lookup_insert_eq.
      * specialize (E0 (otherColor (toLowerCase piece))).
        specialize (E1 (otherColor (toLowerCase piece))).
        specialize (E2 (otherColor (toLowerCase piece))).
        rewrite Ho2 in E0. rewrite Hh2 in E1. rewrite Hl2 in E2. cbn in *. lia.
  - assert (E2 : ∀ c, (countPieces (<[(tr, tc) := Str (landed piece tr)]> bd0) c
                       = countPieces bd0 c
                         + Nat.b2n (holds c (Some (Str (landed piece tr)))))%nat).
    { intros c.
      pose proof (countPieces_insert bd0 c (tr, tc)
                    (Str (landed piece tr)) Hto) as E.
      unfold bd0 in E at 2. rewrite !lookup_insert_ne, Hd in E by done.
      cbn in E |- *. lia. }
    split.
    + specialize (E0 (toLowerCase piece)). specialize (E2 (toLowerCase piece)).
      rewrite Ho1 in E0. rewrite Hl1 in E2. cbn in *. lia.
    + right. split.
      * intros (sq & en & Hen & Henemy & Hnull). cbn in Hnull.
        destruct (decide ((tr, tc) = sq)) as [<-|Hsq].
        { by rewrite lookup_insert_eq in Hnull. }
        rewrite lookup_insert_ne in Hnull by done.
        destruct (decide ((fr, fc) = sq)) as [<-|Hsq'].
        { fold bd in Hen. rewrite Hp in Hen. injection Hen as <-. congruence. }
        unfold bd0 in Hnull. rewrite lookup_insert_ne in Hnull by done.
        fold bd in Hen. congruence.
      * specialize (E0 (otherColor (toLowerCase piece))).
        specialize (E2 (otherColor (toLowerCase piece))).
        rewrite Ho2 in E0. rewrite Hl2 in E2. cbn in *. lia.
Qed.

(** X10. Pieces are conserved by moves between squares: for a move with
    integer coordinates that [isValidMove] accepts on a full grid,
    [applyMove] returns, the mover has as many pieces afterwards as before,
    and the other colour has exactly one piece fewer when the move captured
    a piece and as many as before when it did not. *)
Theorem piece_conservation (game : Game) (fr fc tr tc : Z) (color : sym) :
  wfBoard game.(board) →
  isValidMove game (mkPos fr fc) (mkPos tr tc) color = Ok true →
  ∃ game',
    applyMove game (fr, fc) (tr, tc) = (game', Ok ()) ∧
    countPieces game'.(board) color = countPieces game.(board) color ∧
    ((capturedPiece game game' ∧
      S (countPieces game'.(board) (otherColor color))
        = countPieces game.(board) (otherColor color)) ∨
     (¬ capturedPiece game game' ∧
      countPieces game'.(board) (otherColor color)
        = countPieces game.(board) (otherColor color))).
Proof. apply applyMove_counts. Qed.

Lemma piece_conservation_witness :
  ∃ game',
    applyMove scenarioB (4, 4) (2, 2) = (game', Ok ()) ∧
    countPieces game'.(board) Sw = countPieces scenarioB.(board) Sw ∧
    ((capturedPiece scenarioB game' ∧
      S (countPieces game'.(board) (otherColor Sw))
        = countPieces scenarioB.(board) (otherColor Sw)) ∨
     (¬ capturedPiece scenarioB game' ∧
      countPieces game'.(board) (otherColor Sw)
        = countPieces scenarioB.(board) (otherColor Sw))).
Proof.
  apply piece_conservation.
  - apply wfBoardb_spec. vm_compute. reflexivity.
  - vm_compute. reflexivity.
Defined.

Lemma reachable_counts (game : Game) :
  reachable game →
  (countPieces game.(board) Sw ≤ 12)%nat ∧ (countPieces game.(board) Sb ≤ 12)%nat.
Proof.
  induction 1 as [|g _ IH|g from to color f t g' Hreach IH Hvalid Hf Ht Happly].
  - split; vm_compute; lia.
  - exact IH.
  - apply isValidMove_true in Hvalid as Hints.
    destruct Hints as (fr & fc & tr & tc & piece & _ & -> & -> & Hpre & _).
    cbn in Hf, Ht. injection Hf as <-. injection Ht as <-.
    destruct Hpre as (_ & _ & _ & _ & _ & Hlow & _).
    destruct (applyMove_counts _ _ _ _ _ _ (reachable_wf _ Hreach) Hvalid)
      as (g'' & Happly' & Hown & Hother).
    rewrite Happly' in Happly. injection Happly as ->.
    destruct IH as [IHw IHb].
    destruct (lower_idem piece) as [E|E]; rewrite E in Hlow; subst color;
      cbn in Hother; destruct Hother as [[_ Hother]|[_ Hother]]; lia.
Qed.

(** X11. No colour ever has more than twelve pieces: in every game reached
    from a fresh game by accepted moves, [getAllPlayerPieces] lists at most
    twelve pieces for white and at most twelve for black. *)
Theorem at_most_twelve_pieces (game : Game) :
  reachable game →
  ∃ ws bs, getAllPlayerPieces game.(board) Sw = Ok ws ∧
           getAllPlayerPieces game.(board) Sb = Ok bs ∧
           (length ws ≤ 12)%nat ∧ (length bs ≤ 12)%nat.
Proof.
  intros Hreach. exists (piecesOf game.(board) Sw), (piecesOf game.(board) Sb).
  rewrite !getAllPlayerPieces_piecesOf.
  destruct (reachable_counts game Hreach). done.
Qed.

Lemma at_most_twelve_pieces_witness :
  ∃ ws bs, getAllPlayerPieces chainGame.(board) Sw = Ok ws ∧
           getAllPlayerPieces chainGame.(board) Sb = Ok bs ∧
           (length ws ≤ 12)%nat ∧ (length bs ≤ 12)%nat.
Proof. apply at_most_twelve_pieces, chainGame_reachable. Defined.

(** X12. [getAllPlayerPieces] never throws, and lists exactly the squares
    of the 8 by 8 grid that hold a piece of the colour, man or king, each
    with the piece it holds; what the board holds outside the grid is not
    read. *)
Theorem getAllPlayerPieces_spec (bd : Board) (color : sym) :
  ∃ pieces, getAllPlayerPieces bd color = Ok pieces ∧
    ∀ (r c : Z) (p : sym),
      (r, c, p) ∈ pieces ↔
      onBoard (r, c) ∧ bd !! (r, c) = Some (Str p) ∧ toLowerCase p = color.
Proof.
  exists (piecesOf bd color). split; [apply getAllPlayerPieces_piecesOf|].
  intros r c p. apply elem_of_piecesOf.
Qed.

(** ** The executor of the predecessor *)

(** On a square that holds a man, or nothing, the scanner of the
    predecessor and that of the complete engine agree. *)
Lemma predecessor_hasCaptureFrom_man (game : Game) (row col : Z) :
  (∀ p, truthy (getOpt game.(board) row col) = Some p → isUpper p = false) →
  Predecessor.hasCaptureFrom game row col = hasCaptureFrom game row col.
Proof.
  intros Hman. unfold Predecessor.hasCaptureFrom, hasCaptureFrom.
  destruct (truthy (getOpt (board game) row col)) as [piece|] eqn:Hp; [|done].
  rewrite (Hman piece eq_refl).
  apply getOpt_truthy in Hp as (zr & zc & [= <-] & [= <-] & Hr & Hp).
  unfold hasRegularCaptureFrom. rewrite get_int, Hp by done. reflexivity.
Qed.

(** X13. The executor of the predecessor and that of the complete engine
    leave the same game and end in the same way for every move of a man
    that is not promoted on landing, whether the move is legal or not.
    (Kings, which the predecessor moves like men, and men promoted on
    landing, whose next capture it looks for as a man's, are left out.) *)
Theorem predecessor_applyMove_agrees (game : Game) (fr fc tr tc : Z) (piece : sym) :
  0 ≤ fr < 8 → game.(board) !! (fr, fc) = Some (Str piece) →
  isUpper piece = false → landed piece tr = piece →
  Predecessor.applyMove game (fr, fc) (tr, tc) = applyMove game (fr, fc) (tr, tc).
Proof.
  intros Hfr Hp Hk Hland.
  unfold Predecessor.applyMove, applyMove. rewrite get_int, Hp, Hk by done.
  cbn zeta.
  assert (Hw : bool_decide (piece = Sw) && bool_decide (tr = 0) = false).
  { unfold landed in Hland. destruct (bool_decide (piece = Sw) && _) eqn:E; [|done].
    apply andb_true_iff in E as [E _]. apply bool_decide_eq_true in E.
    by subst piece. }
  assert (Hb : bool_decide (piece = Sb) && bool_decide (tr = 7) = false).
  { unfold landed in Hland. rewrite Hw in Hland.
    destruct (bool_decide (piece = Sb) && _) eqn:E; [|done].
    apply andb_true_iff in E as [E _]. apply bool_decide_eq_true in E.
    by subst piece. }
  assert (Hw' : bool_decide (Some (Str piece) = Some (Str Sw)) && bool_decide (tr = 0)
                = false).
  { rewrite <- Hw. f_equal. apply bool_decide_ext. split; [by intros [= ->]|by intros ->]. }
  assert (Hb' : bool_decide (Some (Str piece) = Some (Str Sb)) && bool_decide (tr = 7)
                = false).
  { rewrite <- Hb. f_equal. apply bool_decide_ext. split; [by intros [= ->]|by intros ->]. }
  rewrite Hw, Hb, Hw', Hb'.
  assert (Hscan : ∀ bd,
    Predecessor.hasCaptureFrom (withBoard game (<[(tr, tc) := Str piece]> bd)) tr tc
    = hasCaptureFrom (withBoard game (<[(tr, tc) := Str piece]> bd)) tr tc).
  { intros bd. apply predecessor_hasCaptureFrom_man. intros p Hq.
    apply getOpt_truthy in Hq as (zr & zc & [= <-] & [= <-] & _ & Hq). cbn in Hq.
    rewrite lookup_insert_eq in Hq. by injection Hq as <-. }
  unfold Predecessor.setValue, setCell.
  destruct (bool_decide (Z.abs (tr - fr) = 2) && bool_decide (Z.abs (tc - fc) = 2)).
  - destruct (hasRow (fr + (tr - fr) `div` 2)); [|done].
    destruct (hasRow tr); [|done]. by rewrite Hscan.
  - by destruct (hasRow tr).
Qed.

Lemma predecessor_applyMove_agrees_witness :
  Predecessor.applyMove scenarioB (4, 4) (2, 2) = applyMove scenarioB (4, 4) (2, 2).
Proof.
  apply (predecessor_applyMove_agrees scenarioB 4 4 2 2 Sw).
  - lia.
  - vm_compute. reflexivity.
  - reflexivity.
  - reflexivity.
Defined.

(** * The session layer *)

(** ** Reading and writing [rooms] *)

Lemma lookupRoom_own (st : Session.Server) (key : string) (room : Session.Room) :
  Session.lookupRoom st key = Session.own room ↔ Session.rooms st !! key = Some room.
Proof.
  unfold Session.lookupRoom. destruct (Session.rooms st !! key) as [r|].
  - split; by intros [= ->].
  - by destruct (Session.isInherited st key).
Qed.

Lemma lookupRoom_not_own (st : Session.Server) (key : string) :
  (∀ room, Session.lookupRoom st key ≠ Session.own room) ↔
  Session.rooms st !! key = None.
Proof.
  unfold Session.lookupRoom. destruct (Session.rooms st !! key) as [r|].
  - split; [|done]. intros H. by destruct (H r).
  - split; [done|]. intros _ room. by destruct (Session.isInherited st key).
Qed.

Lemma withRoom_same (st : Session.Server) (key : string) (room : Session.Room) :
  Session.rooms st !! key = Some room →
  Session.withRoom st key
    (Session.mkRoom (Session.game room) (Session.players room)) = st.
Proof.
  intros H. destruct st as [rs p], room as [g ps]. unfold Session.withRoom. cbn in *.
  by rewrite insert_id.
Qed.

(** ** Moves that are refused at once *)

Lemma isValidMove_not_turn (game : Game) (from to : Pos) (color : sym) :
  game.(status) ≠ playing ∨ game.(currentPlayer) ≠ color →
  isValidMove game from to color = Ok false.
Proof.
  intros H. unfold isValidMove.
  destruct (bool_decide (status game = playing)) eqn:E1; cbn [negb]; [|done].
  destruct (bool_decide (currentPlayer game = color)) eqn:E2; cbn [negb]; [|done].
  apply bool_decide_eq_true in E1, E2. by destruct H.
Qed.

Lemma makeMove_not_turn (game : Game) (from to : Pos) (color : sym) :
  game.(status) ≠ playing ∨ game.(currentPlayer) ≠ color →
  (makeMove game from to color).1 = game.
Proof.
  intros H. apply makeMove_reject_unchanged.
  by rewrite isValidMove_not_turn.
Qed.

Lemma makeMove_reachable (game : Game) (from to : Pos) (color : sym) :
  reachable game → reachable (makeMove game from to color).1.
Proof.
  intros Hreach.
  destruct (isValidMove game from to color) as [[|]| |] eqn:Hvalid;
    [|by rewrite makeMove_reject_unchanged by (by rewrite Hvalid)..].
  destruct (makeMove_applies _ _ _ _ Hvalid) as (f & t & Hf & Ht & ->).
  destruct (reachable_step _ _ _ _ Hreach Hvalid)
    as (f' & t' & g' & Hf' & Ht' & Ha & Hr).
  rewrite Hf in Hf'. rewrite Ht in Ht'. injection Hf' as <-. injection Ht' as <-.
  by rewrite Ha.
Qed.

(** ** The invariant of the rooms *)

(** The room that [joinRoom] leaves, from a new room or from a room of the
    invariant that is not full. *)
Lemma roomInv_joined (room : Session.Room) (socket : nat) (nm : string) :
  room = Session.mkRoom createNewGame ∅ ∨ Session.roomInv room →
  ¬ (2 ≤ Session.countPlayers room)%nat →
  Session.roomInv
    (Session.mkRoom
       (if bool_decide
             (size (<[socket := Session.mkPlayer nm
                       (if bool_decide (Session.countPlayers room = 0%nat)
                        then Sw else Sb)]> (Session.players room)) = 2%nat)
        then startPlaying (Session.game room) else Session.game room)
       (<[socket := Session.mkPlayer nm
            (if bool_decide (Session.countPlayers room = 0%nat) then Sw else Sb)]>
          (Session.players room))).
Proof.
  intros [->|Hinv] Hcount.
  - unfold Session.countPlayers. cbn [Session.players Session.game].
    rewrite map_size_empty, (bool_decide_eq_true_2 (0%nat = 0%nat)) by done.
    assert (Hsize : size (<[socket := Session.mkPlayer nm Sw]>
                            (∅ : gmap nat Session.Player)) = 1%nat).
    { rewrite map_size_insert_None by apply lookup_empty.
      by rewrite map_size_empty. }
    rewrite Hsize, bool_decide_eq_false_2 by lia.
    unfold Session.roomInv, Session.countPlayers, Session.allBlack.
    cbn [Session.players Session.game]. rewrite Hsize.
    split_and!; try done; try lia.
    + apply reach_new.
    + intros s p H. apply lookup_insert_Some in H as [[<- <-]|[_ H]]; [by left|].
      by rewrite lookup_empty in H.
    + intros s1 s2 p1 p2 H1 H2 _ _.
      apply lookup_insert_Some in H1 as [[<- _]|[_ H1]];
        [|by rewrite lookup_empty in H1].
      apply lookup_insert_Some in H2 as [[<- _]|[_ H2]];
        [done|by rewrite lookup_empty in H2].
    + intros _. by left.
  - destruct Hinv as (Hreach & Hsize & Hst & Hone & Hcol & Hwhite & Hblack).
    unfold Session.countPlayers in *.
    assert (H1 : size (Session.players room) = 1%nat) by lia.
    specialize (Hone H1).
    rewrite (bool_decide_eq_false_2 (size (Session.players room) = 0%nat)) by lia.
    assert (Hcol' : ∀ s p,
      <[socket := Session.mkPlayer nm Sb]> (Session.players room) !! s = Some p →
      Session.color p = Sw ∨ Session.color p = Sb).
    { intros s p H. apply lookup_insert_Some in H as [[<- <-]|[_ H]]; [by right|].
      by apply (Hcol s). }
    assert (Hwhite' : ∀ s1 s2 p1 p2,
      <[socket := Session.mkPlayer nm Sb]> (Session.players room) !! s1 = Some p1 →
      <[socket := Session.mkPlayer nm Sb]> (Session.players room) !! s2 = Some p2 →
      Session.color p1 = Sw → Session.color p2 = Sw → s1 = s2).
    { intros s1 s2 p1 p2 Hp1 Hp2 Hw1 Hw2.
      apply lookup_insert_Some in Hp1 as [[<- <-]|[_ Hp1]]; [done|].
      apply lookup_insert_Some in Hp2 as [[<- <-]|[_ Hp2]]; [done|].
      by apply (Hwhite s1 s2 p1 p2). }
    destruct (Session.players room !! socket) as [p0|] eqn:Hs.
    + assert (Hsize' : size (<[socket := Session.mkPlayer nm Sb]>
                               (Session.players room)) = 1%nat).
      { by rewrite map_size_insert_Some. }
      rewrite Hsize', bool_decide_eq_false_2 by lia.
      unfold Session.roomInv, Session.countPlayers, Session.allBlack.
      cbn [Session.players Session.game]. rewrite Hsize', Hone.
      split_and!; try done; try lia.
      * apply reach_new.
      * intros _. by left.
    + assert (Hsize' : size (<[socket := Session.mkPlayer nm Sb]>
                               (Session.players room)) = 2%nat).
      { rewrite map_size_insert_None by done. lia. }
      rewrite Hsize', bool_decide_eq_true_2 by lia.
      unfold Session.roomInv, Session.countPlayers, Session.allBlack.
      cbn [Session.players Session.game]. rewrite Hsize', Hone.
      split_and!; try done; try lia.
      * apply reach_join, reach_new.
      * intros _. by right.
Qed.

(** The room that [makeMove] leaves in a room of the invariant. *)
Lemma roomInv_moved (room : Session.Room) (socket : nat) (from to : Pos)
    (playerColor : sym) :
  Session.roomInv room →
  Session.getPlayerColor room socket = Some playerColor →
  Session.roomInv
    (Session.mkRoom (makeMove (Session.game room) from to playerColor).1
       (Session.players room)).
Proof.
  intros (Hreach & Hsize & Hst & Hone & Hcol & Hwhite & Hblack) Hpc.
  unfold Session.roomInv, Session.countPlayers, Session.allBlack in *.
  cbn [Session.players Session.game].
  destruct (makeMove_status_winner (Session.game room) from to playerColor)
    as [Hstatus _].
  split_and!; try done; try lia.
  - by apply makeMove_reachable.
  - by rewrite Hstatus.
  - intros H1. rewrite makeMove_not_turn; [by apply Hone|].
    left. rewrite (Hone H1). done.
  - intros Hall.
    assert (Hb : playerColor = Sb).
    { unfold Session.getPlayerColor in Hpc.
      destruct (Session.players room !! socket) as [p|] eqn:Hp; [|done].
      injection Hpc as <-. by apply (Hall socket). }
    rewrite makeMove_not_turn; [by apply Hblack|].
    right. rewrite Hb. by destruct (Hblack Hall) as [-> | ->].
Qed.

(** The room that an accepted [resetResponse] leaves. *)
Lemma roomInv_reset (room : Session.Room) :
  Session.roomInv room →
  Session.roomInv
    (Session.mkRoom
       (if bool_decide (Session.countPlayers room = 2%nat)
        then startPlaying createNewGame else createNewGame)
       (Session.players room)).
Proof.
  intros (Hreach & Hsize & Hst & Hone & Hcol & Hwhite & Hblack).
  unfold Session.roomInv, Session.countPlayers, Session.allBlack in *.
  cbn [Session.players Session.game].
  destruct (bool_decide (size (Session.players room) = 2%nat)) eqn:E.
  - apply bool_decide_eq_true in E.
    split_and!; try done; try lia.
    + apply reach_join, reach_new.
    + intros _. by right.
  - apply bool_decide_eq_false in E.
    split_and!; try done; try lia.
    + apply reach_new.
    + intros _. by left.
Qed.

(** The room that [disconnect] leaves, when it leaves one. *)
Lemma roomInv_left (room room' : Session.Room) (socket : nat) :
  Session.roomInv room →
  (Session.leave socket room).1 = Some room' →
  Session.roomInv room' ∧ Session.players room' !! socket = None.
Proof.
  intros Hinv. unfold Session.leave.
  destruct (Session.players room !! socket) as [p|] eqn:Hp; cbn.
  - destruct (bool_decide _) eqn:E; cbn; [done|].
    apply bool_decide_eq_false in E. intros [= <-].
    destruct Hinv as (Hreach & Hsize & Hst & Hone & Hcol & Hwhite & Hblack).
    unfold Session.roomInv, Session.countPlayers, Session.allBlack in *.
    cbn [Session.players Session.game].
    rewrite map_size_delete_Some in * by done.
    split; [|apply lookup_delete_eq].
    split_and!; try done; try lia.
    + apply reach_new.
    + split; [done|lia].
    + intros s q H. apply lookup_delete_Some in H as [_ H]. by apply (Hcol s).
    + intros s1 s2 p1 p2 H1 H2.
      apply lookup_delete_Some in H1 as [_ H1], H2 as [_ H2].
      by apply (Hwhite s1 s2).
    + intros _. by left.
  - by intros [= <-].
Qed.

Lemma serverInv_withRoom (st : Session.Server) (key : string) (room : Session.Room) :
  Session.serverInv st → key ≠ EmptyString → ¬ (key ∈ Session.prototypeKeys) →
  Session.roomInv room → Session.serverInv (Session.withRoom st key room).
Proof.
  intros Hinv Hk1 Hk2 Hroom k r. unfold Session.withRoom. cbn.
  intros H. apply lookup_insert_Some in H as [[<- <-]|[_ H]]; [done|].
  by apply Hinv.
Qed.

Lemma lookupRoom_absent (st : Session.Server) (key : string) :
  Session.lookupRoom st key = Session.absent →
  Session.rooms st !! key = None ∧ ¬ (key ∈ Session.prototypeKeys).
Proof.
  unfold Session.lookupRoom, Session.isInherited.
  destruct (Session.rooms st !! key); [done|].
  destruct (bool_decide (key ∈ Session.prototypeKeys)) eqn:E; [done|].
  apply bool_decide_eq_false in E. by destruct (_ && _).
Qed.

Lemma withRoom_withRoom (st : Session.Server) (key : string) (r1 r2 : Session.Room) :
  Session.withRoom (Session.withRoom st key r1) key r2 = Session.withRoom st key r2.
Proof. unfold Session.withRoom. cbn. by rewrite insert_insert_eq. Qed.

(** Every state of the server satisfies the invariant. *)
Lemma served_inv (st : Session.Server) : Session.served st → Session.serverInv st.
Proof.
  induction 1 as [|st socket roomId nm _ IH|st socket roomId from to _ IH
                  |st socket roomId _ IH|st socket roomId accepted req _ IH
                  |st socket _ IH].
  - intros key room H. unfold Session.initial in H. cbn [Session.rooms] in H.
    by rewrite lookup_empty in H.
  - unfold Session.onJoinRoom. destruct roomId as [id|]; [|done].
    destruct (bool_decide (id = EmptyString)) eqn:Hid; [done|].
    apply bool_decide_eq_false in Hid.
    unfold Session.getRoom.
    destruct (Session.lookupRoom st id) as [room| |] eqn:Hl; [| done |].
    + apply lookupRoom_own in Hl. destruct (IH id room Hl) as (_ & Hk & Hroom).
      destruct (bool_decide (2 ≤ Session.countPlayers room)%nat) eqn:Hfull; [done|].
      apply bool_decide_eq_false in Hfull. cbn [fst].
      apply serverInv_withRoom; try done.
      apply roomInv_joined; [by right|done].
    + apply lookupRoom_absent in Hl as [Hnone Hk].
      set (room := Session.mkRoom createNewGame ∅).
      assert (Hfull : ¬ (2 ≤ Session.countPlayers room)%nat).
      { unfold room, Session.countPlayers. cbn [Session.players].
        rewrite map_size_empty. lia. }
      rewrite (bool_decide_eq_false_2 _ Hfull). cbn [fst].
      rewrite withRoom_withRoom.
      apply serverInv_withRoom; try done.
      apply roomInv_joined; [by left|done].
  - unfold Session.onMakeMove.
    destruct (Session.lookupRoom st (Session.keyOf roomId)) as [room| |] eqn:Hl;
      [|done|done].
    apply lookupRoom_own in Hl. destruct (IH _ room Hl) as (Hk1 & Hk2 & Hroom).
    destruct (Session.getPlayerColor room socket) as [playerColor|] eqn:Hpc; [|done].
    pose proof (roomInv_moved room socket from to playerColor Hroom Hpc) as Hmoved.
    destruct (makeMove (Session.game room) from to playerColor) as [game' r].
    cbn [fst] in *. by apply serverInv_withRoom.
  - unfold Session.onResetGame.
    destruct (Session.lookupRoom st (Session.keyOf roomId)) as [room| |];
      [|done|done].
    by destruct (Session.getPlayerColor room socket).
  - unfold Session.onResetResponse.
    destruct (Session.lookupRoom st (Session.keyOf roomId)) as [room| |] eqn:Hl;
      [| |done].
    + apply lookupRoom_own in Hl. destruct (IH _ room Hl) as (Hk1 & Hk2 & Hroom).
      destruct accepted; [|done]. cbn [fst].
      apply serverInv_withRoom; try done. by apply roomInv_reset.
    + by destruct accepted.
  - intros key room' H. cbn in H.
    apply lookup_omap_Some in H as (room & Hleave & Hroom).
    destruct (IH key room Hroom) as (Hk1 & Hk2 & Hinv).
    split; [done|]. split; [done|].
    by destruct (roomInv_left room room' socket Hinv Hleave).
Qed.

Lemma twoBlack_served : Session.served Session.twoBlack.
Proof.
  unfold Session.twoBlack. cbv zeta.
  apply Session.served_joinRoom, Session.served_disconnect,
    Session.served_joinRoom, Session.served_joinRoom, Session.served_initial.
Qed.

Lemma twoBlack_room :
  Session.rooms Session.twoBlack !! "r"%string = Some twoBlackRoom.
Proof. vm_compute. reflexivity. Qed.

Lemma twoBlackRoom_allBlack : Session.allBlack twoBlackRoom.
Proof.
  intros s p H. unfold twoBlackRoom in H. cbn [Session.players] in H.
  apply lookup_insert_Some in H as [[_ <-]|[_ H]]; [done|].
  apply lookup_insert_Some in H as [[_ <-]|[_ H]]; [done|].
  by rewrite lookup_empty in H.
Qed.

(** X14. The rooms of the server: in every state that the five handlers
    can leave, whoever calls them and with whatever payload, every room has
    one or two players; its game is in progress exactly when it has two
    players and waiting exactly when it has one; a room with one player
    holds a fresh game; every player is white or black and at most one is
    white; and the game has been reached from a fresh game by accepted
    moves, so that the invariants of the engine hold of it. *)
Theorem rooms_invariant (st : Session.Server) (key : string) (room : Session.Room) :
  Session.served st → Session.rooms st !! key = Some room →
  (1 ≤ Session.countPlayers room ≤ 2)%nat ∧
  ((Session.game room).(status) = playing ↔ Session.countPlayers room = 2%nat) ∧
  ((Session.game room).(status) = waiting ↔ Session.countPlayers room = 1%nat) ∧
  (Session.countPlayers room = 1%nat → Session.game room = createNewGame) ∧
  (∀ s p, Session.players room !! s = Some p →
          Session.color p = Sw ∨ Session.color p = Sb) ∧
  (∀ s1 s2 p1 p2,
     Session.players room !! s1 = Some p1 → Session.players room !! s2 = Some p2 →
     Session.color p1 = Sw → Session.color p2 = Sw → s1 = s2) ∧
  reachable (Session.game room).
Proof.
  intros Hserved Hroom.
  destruct (served_inv st Hserved key room Hroom)
    as (_ & _ & Hreach & Hsize & Hst & Hone & Hcol & Hwhite & _).
  split_and!; try done; try lia.
  split.
  - intros Hw. destruct (decide (Session.countPlayers room = 2%nat)) as [E|E]; [|lia].
    apply Hst in E. congruence.
  - intros E. by rewrite (Hone E).
Qed.

Lemma rooms_invariant_witness :
  (1 ≤ Session.countPlayers twoBlackRoom ≤ 2)%nat ∧
  ((Session.game twoBlackRoom).(status) = playing
   ↔ Session.countPlayers twoBlackRoom = 2%nat) ∧
  ((Session.game twoBlackRoom).(status) = waiting
   ↔ Session.countPlayers twoBlackRoom = 1%nat) ∧
  (Session.countPlayers twoBlackRoom = 1%nat
   → Session.game twoBlackRoom = createNewGame) ∧
  (∀ s p, Session.players twoBlackRoom !! s = Some p →
          Session.color p = Sw ∨ Session.color p = Sb) ∧
  (∀ s1 s2 p1 p2,
     Session.players twoBlackRoom !! s1 = Some p1 →
     Session.players twoBlackRoom !! s2 = Some p2 →
     Session.color p1 = Sw → Session.color p2 = Sw → s1 = s2) ∧
  reachable (Session.game twoBlackRoom).
Proof.
  apply (rooms_invariant Session.twoBlack "r").
  - apply twoBlack_served.
  - vm_compute. reflexivity.
Defined.

(** ** When the handlers throw *)

Lemma prototypeKeys_nonempty (key : string) :
  key ∈ Session.prototypeKeys → key ≠ EmptyString.
Proof.
  intros H ->.
  apply (bool_decide_eq_false_1 (EmptyString ∈ Session.prototypeKeys)); [|done].
  vm_compute. reflexivity.
Qed.

Lemma lookupRoom_inherited (st : Session.Server) (key : string) :
  Session.served st → key ∈ Session.prototypeKeys →
  Session.lookupRoom st key = Session.inherited.
Proof.
  intros Hserved Hkey. unfold Session.lookupRoom, Session.isInherited.
  destruct (Session.rooms st !! key) as [room|] eqn:Hroom.
  - by destruct (served_inv st Hserved key room Hroom) as (_ & Hno & _).
  - by rewrite bool_decide_eq_true_2.
Qed.

(** X15. A room id that names a property of [Object.prototype] makes the
    handlers throw: in every state of the server, for each of the twelve
    names, [joinRoom], [makeMove] and [resetGame] end in a [TypeError] and
    leave the state as it was, and an accepted [resetResponse] ends in a
    [TypeError] as well; no room of such a name is ever created. *)
Theorem inherited_room_id_throws (st : Session.Server) (socket : nat)
    (key : string) (name requesterId : option string) (from to : Pos) :
  Session.served st → key ∈ Session.prototypeKeys →
  Session.onJoinRoom st socket (Some key) name = (st, TypeError) ∧
  Session.onMakeMove st socket (Some key) from to = (st, TypeError) ∧
  Session.onResetGame st socket (Some key) = (st, TypeError) ∧
  (Session.onResetResponse st socket (Some key) true requesterId).2 = TypeError ∧
  Session.rooms st !! key = None.
Proof.
  intros Hserved Hkey.
  pose proof (lookupRoom_inherited st key Hserved Hkey) as Hl.
  pose proof (prototypeKeys_nonempty key Hkey) as Hne.
  unfold Session.onJoinRoom, Session.getRoom, Session.onMakeMove,
    Session.onResetGame, Session.onResetResponse.
  change (Session.keyOf (Some key)) with key. rewrite Hl.
  rewrite (bool_decide_eq_false_2 (key = EmptyString)) by done.
  split_and!; try done.
  destruct (Session.rooms st !! key) as [room|] eqn:Hroom; [|done].
  by destruct (served_inv st Hserved key room Hroom) as (_ & Hno & _).
Qed.

Lemma inherited_room_id_throws_witness :
  Session.onJoinRoom Session.twoBlack 4%nat (Some "constructor"%string) None
    = (Session.twoBlack, TypeError) ∧
  Session.onMakeMove Session.twoBlack 4%nat (Some "constructor"%string)
      (mkPos 5 0) (mkPos 4 1) = (Session.twoBlack, TypeError) ∧
  Session.onResetGame Session.twoBlack 4%nat (Some "constructor"%string)
    = (Session.twoBlack, TypeError) ∧
  (Session.onResetResponse Session.twoBlack 4%nat (Some "constructor"%string)
     true None).2 = TypeError ∧
  Session.rooms Session.twoBlack !! "constructor"%string = None.
Proof.
  apply inherited_room_id_throws.
  - apply twoBlack_served.
  - unfold Session.prototypeKeys. constructor.
Defined.



(** ** Rooms without a white player *)

(** Black cannot move in a fresh game, started or not. *)
Lemma makeMove_black_first (game : Game) (from to : Pos) :
  game = createNewGame ∨ game = startPlaying createNewGame →
  makeMove game from to Sb = (game, Ok invalidMove).
Proof.
  intros Hgame.
  assert (Hvalid : isValidMove game from to Sb = Ok false).
  { apply isValidMove_not_turn. right. by destruct Hgame as [-> | ->]. }
  assert (Hcap : playerHasAnyCapture game Sb = Ok false).
  { destruct Hgame as [-> | ->]; vm_compute; reflexivity. }
  unfold makeMove. rewrite Hvalid, Hcap.
  destruct (truthy (getOpt _ _ _)) as [piece|]; [|done].
  destruct (bool_decide _); [|done].
  by destruct (isSimpleMoveAttempt _ _ _ _).
Qed.

(** X17. A room without a white player is stuck: in every state of the
    server, in a room all of whose players are black, [makeMove] changes
    nothing, whoever sends it and whatever the move; it sends nothing to a
    socket that is no player of the room, and [invalidMove] to a player.
    (Such a room arises when the white player of a room leaves and another
    socket joins: the handler [joinRoom] gives black to every player but
    the first of a room.) *)
Theorem all_black_room_is_stuck (st : Session.Server) (socket : nat)
    (roomId : option string) (from to : Pos) (room : Session.Room) :
  Session.served st →
  Session.rooms st !! Session.keyOf roomId = Some room →
  Session.allBlack room →
  Session.onMakeMove st socket roomId from to =
    (st, Ok (match Session.players room !! socket with
             | Some _ => [Session.emit Session.toSocket Session.invalidMove]
             | None => []
             end)).
Proof.
  intros Hserved Hroom Hblack.
  destruct (served_inv st Hserved _ room Hroom) as (_ & _ & Hinv).
  destruct Hinv as (_ & _ & _ & _ & _ & _ & Hgame). specialize (Hgame Hblack).
  unfold Session.onMakeMove. apply lookupRoom_own in Hroom as Hl. rewrite Hl.
  unfold Session.getPlayerColor.
  destruct (Session.players room !! socket) as [p|] eqn:Hp; [|done].
  cbn [fmap option_fmap option_map]. rewrite (Hblack socket p Hp).
  rewrite (makeMove_black_first _ from to Hgame). cbn.
  by rewrite withRoom_same.
Qed.

Lemma all_black_room_is_stuck_witness :
  Session.onMakeMove Session.twoBlack 3%nat (Some "r"%string) (mkPos 2 1) (mkPos 3 2) =
    (Session.twoBlack,
     Ok (match Session.players twoBlackRoom !! 3%nat with
         | Some _ => [Session.emit Session.toSocket Session.invalidMove]
         | None => []
         end)).
Proof.
  apply all_black_room_is_stuck.
  - apply twoBlack_served.
  - vm_compute. reflexivity.
  - apply twoBlackRoom_allBlack.
Defined.

(** X18. The colour of a player depends on the head count alone: in every
    state of the server, a socket that joins a room with one player is
    given black, whatever the colour of the player who is there, and also
    when the socket is that player and joins again.  When the socket is new
    to the room, the room has two players afterwards and holds a fresh game
    in progress with white to move; when the socket is the player who is
    there, the room still has one player, who is black now, and the game
    stays a fresh game that waits. *)
Theorem second_player_is_black (st : Session.Server) (socket : nat)
    (id : string) (name : option string) (room : Session.Room) :
  Session.served st →
  Session.rooms st !! id = Some room →
  Session.countPlayers room = 1%nat →
  Session.rooms (Session.onJoinRoom st socket (Some id) name).1 !! id =
    Some (Session.mkRoom
            (if bool_decide (is_Some (Session.players room !! socket))
             then createNewGame else startPlaying createNewGame)
            (<[socket := Session.mkPlayer (Session.playerName name) Sb]>
               (Session.players room))).
Proof.
  intros Hserved Hroom Hone.
  destruct (served_inv st Hserved _ room Hroom) as (Hne & _ & Hinv).
  destruct Hinv as (_ & _ & _ & Hgame & _). specialize (Hgame Hone).
  unfold Session.onJoinRoom, Session.getRoom.
  rewrite (bool_decide_eq_false_2 (id = EmptyString)) by done.
  apply lookupRoom_own in Hroom as Hl. rewrite Hl.
  rewrite (bool_decide_eq_false_2 (2 ≤ _)%nat) by lia.
  rewrite (bool_decide_eq_false_2 (Session.countPlayers room = 0%nat)) by lia.
  unfold Session.countPlayers in Hone.
  destruct (Session.players room !! socket) as [player|] eqn:Hsocket.
  - rewrite (bool_decide_eq_true_2 (is_Some (Some player))) by done.
    rewrite bool_decide_eq_false_2
      by (unfold Session.countPlayers; cbn [Session.players];
          rewrite map_size_insert_Some by done; lia).
    cbn [fst Session.withRoom Session.rooms]. rewrite lookup_insert_eq.
    by rewrite Hgame.
  - rewrite (bool_decide_eq_false_2 (is_Some None)) by (by intros [? ?]).
    rewrite bool_decide_eq_true_2
      by (unfold Session.countPlayers; cbn [Session.players];
          rewrite map_size_insert_None by done; lia).
    cbn [fst Session.withRoom Session.rooms]. rewrite lookup_insert_eq.
    by rewrite Hgame.
Qed.

(** The first player of the room ["r"] is white; it turns black when it
    joins again, and a second socket is black as well. *)
Lemma second_player_is_black_witness :
  Session.rooms
    (Session.onJoinRoom (Session.onJoinRoom Session.initial 1%nat (Some "r"%string) None).1
       1%nat (Some "r"%string) None).1 !! "r"%string =
    Some (Session.mkRoom
            (if bool_decide
                  (is_Some
                     (Session.players
                        (Session.mkRoom createNewGame
                           (<[1%nat := Session.mkPlayer "Player" Sw]> ∅)) !! 1%nat))
             then createNewGame else startPlaying createNewGame)
            (<[1%nat := Session.mkPlayer (Session.playerName None) Sb]>
               (Session.players
                  (Session.mkRoom createNewGame
                     (<[1%nat := Session.mkPlayer "Player" Sw]> ∅))))) ∧
  Session.rooms
    (Session.onJoinRoom (Session.onJoinRoom Session.initial 1%nat (Some "r"%string) None).1
       2%nat (Some "r"%string) None).1 !! "r"%string =
    Some (Session.mkRoom
            (if bool_decide
                  (is_Some
                     (Session.players
                        (Session.mkRoom createNewGame
                           (<[1%nat := Session.mkPlayer "Player" Sw]> ∅)) !! 2%nat))
             then createNewGame else startPlaying createNewGame)
            (<[2%nat := Session.mkPlayer (Session.playerName None) Sb]>
               (Session.players
                  (Session.mkRoom createNewGame
                     (<[1%nat := Session.mkPlayer "Player" Sw]> ∅))))).
Proof.
  split; apply second_player_is_black;
    first [apply Session.served_joinRoom, Session.served_initial
          |vm_compute; reflexivity].
Defined.

(** ** Sockets that are no players of a room *)

(** X19. What a socket can do to a room it has not joined: its [makeMove]
    and its [resetGame] change nothing and send nothing, but its
    [resetResponse] with [accepted] replaces the game of the room by a fresh
    one (started when the room has two players), as that of a player
    does: the handler does not look at the sender. *)
Theorem calls_of_a_stranger (st : Session.Server) (socket : nat)
    (roomId requesterId : option string) (from to : Pos) (room : Session.Room) :
  Session.rooms st !! Session.keyOf roomId = Some room →
  Session.players room !! socket = None →
  Session.onMakeMove st socket roomId from to = (st, Ok []) ∧
  Session.onResetGame st socket roomId = (st, Ok []) ∧
  Session.rooms (Session.onResetResponse st socket roomId true requesterId).1
    !! Session.keyOf roomId =
    Some (Session.mkRoom
            (if bool_decide (Session.countPlayers room = 2%nat)
             then startPlaying createNewGame else createNewGame)
            (Session.players room)).
Proof.
  intros Hroom Hs. apply lookupRoom_own in Hroom as Hl.
  unfold Session.onMakeMove, Session.onResetGame, Session.onResetResponse,
    Session.getPlayerColor.
  rewrite Hl, Hs. cbn [fmap option_fmap option_map].
  split_and!; try done.
  cbn [fst Session.withRoom Session.rooms]. by rewrite lookup_insert_eq.
Qed.

Lemma calls_of_a_stranger_witness :
  Session.onMakeMove Session.twoBlack 9%nat (Some "r"%string) (mkPos 5 0) (mkPos 4 1)
    = (Session.twoBlack, Ok []) ∧
  Session.onResetGame Session.twoBlack 9%nat (Some "r"%string)
    = (Session.twoBlack, Ok []) ∧
  Session.rooms (Session.onResetResponse Session.twoBlack 9%nat (Some "r"%string)
                   true None).1 !! Session.keyOf (Some "r"%string) =
    Some (Session.mkRoom
            (if bool_decide (Session.countPlayers twoBlackRoom = 2%nat)
             then startPlaying createNewGame else createNewGame)
            (Session.players twoBlackRoom)).
Proof.
  apply calls_of_a_stranger.
  - vm_compute. reflexivity.
  - vm_compute. reflexivity.
Defined.

(** ** Leaving *)

(** X20. What [disconnect] leaves: the socket is a player of no room
    afterwards; a room it was not a player of is as it was; a room of
    which it was the only player is deleted; and a room in which it leaves
    another player holds that player and a fresh game, which waits. *)
Theorem disconnect_leaves (st : Session.Server) (socket : nat) (key : string) :
  (∀ room', Session.rooms (Session.onDisconnect st socket).1 !! key = Some room' →
            Session.players room' !! socket = None) ∧
  (Session.rooms st !! key = None →
   Session.rooms (Session.onDisconnect st socket).1 !! key = None) ∧
  (∀ room, Session.rooms st !! key = Some room →
     Session.rooms (Session.onDisconnect st socket).1 !! key =
       match Session.players room !! socket with
       | None => Some room
       | Some _ =>
           if bool_decide (Session.countPlayers room = 1%nat) then None
           else Some (Session.mkRoom createNewGame
                        (delete socket (Session.players room)))
       end).
Proof.
  assert (Hlook : ∀ room, Session.rooms st !! key = Some room →
    Session.rooms (Session.onDisconnect st socket).1 !! key =
      match Session.players room !! socket with
      | None => Some room
      | Some _ =>
          if bool_decide (Session.countPlayers room = 1%nat) then None
          else Some (Session.mkRoom createNewGame
                       (delete socket (Session.players room)))
      end).
  { intros room Hroom. cbn [fst Session.onDisconnect Session.rooms].
    rewrite lookup_omap, Hroom. cbn [mbind option_bind]. unfold Session.leave.
    destruct (Session.players room !! socket) as [p|] eqn:Hp; [|done].
    unfold Session.countPlayers.
    rewrite map_size_delete_Some by done.
    assert (size (Session.players room) ≠ 0%nat)
      by (by apply (map_size_ne_0_lookup_2 _ socket)).
    destruct (decide (size (Session.players room) = 1%nat)) as [E|E].
    - by rewrite !bool_decide_eq_true_2 by lia.
    - by rewrite !bool_decide_eq_false_2 by lia. }
  split_and!; [| |done].
  - intros room' H. cbn [fst Session.onDisconnect Session.rooms] in H.
    apply lookup_omap_Some in H as (room & Hleave & Hroom).
    unfold Session.leave in Hleave.
    destruct (Session.players room !! socket) as [p|] eqn:Hp.
    + destruct (bool_decide _); [done|]. injection Hleave as <-.
      apply lookup_delete_eq.
    + by injection Hleave as <-.
  - intros Hnone. cbn [fst Session.onDisconnect Session.rooms].
    by rewrite lookup_omap, Hnone.
Qed.

(** ** The loops end *)



(** ** What an accepted move changes *)

(** X22. The frame of an accepted move between squares: for a move with
    integer coordinates that [isValidMove] accepts on a full grid,
    [applyMove] returns and changes at most three squares: [from] becomes
    empty, [to] receives the piece (or its king when a man lands on its far
    row), at most one other square, which held an enemy piece, becomes
    empty, and every other square holds what it held. *)
Theorem accepted_move_frame (game : Game) (fr fc tr tc : Z) (color : sym) :
  wfBoard game.(board) →
  isValidMove game (mkPos fr fc) (mkPos tr tc) color = Ok true →
  ∃ (game' : Game) (piece : sym) (captured : option (Z * Z)),
    applyMove game (fr, fc) (tr, tc) = (game', Ok ()) ∧
    game.(board) !! (fr, fc) = Some (Str piece) ∧
    game'.(board) !! (fr, fc) = Some Null ∧
    game'.(board) !! (tr, tc) = Some (Str (landed piece tr)) ∧
    (∀ e, captured = Some e →
          e ≠ (fr, fc) ∧ e ≠ (tr, tc) ∧ enemyAt game.(board) piece e ∧
          game'.(board) !! e = Some Null) ∧
    (∀ sq, sq ≠ (fr, fc) → sq ≠ (tr, tc) → captured ≠ Some sq →
           game'.(board) !! sq = game.(board) !! sq).
Proof.
  intros Hwf Hvalid.
  destruct (applyMove_valid _ _ _ _ _ _ Hwf Hvalid)
    as (piece & bd1 & didCapture & b & Hpre & Hbd1 & _ & _ & Happly).
  destruct Hpre as (_ & _ & Hne & _ & [_ Hp] & _). cbn [fst snd] in *.
  destruct Hbd1 as [(_ & e & Hen & He1 & He2 & ->)|[_ ->]].
  - eexists _, piece, (Some e). split; [exact Happly|]. cbn [board].
    split_and!; try done.
    + rewrite lookup_insert_ne by done.
      destruct (decide (e = (fr, fc))) as [->|]; [done|].
      by rewrite lookup_insert_ne, lookup_insert_eq.
    + by rewrite lookup_insert_eq.
    + intros e' [= <-]. split_and!; try done.
      by rewrite lookup_insert_ne, lookup_insert_eq.
    + intros sq H1 H2 H3.
      rewrite !lookup_insert_ne; try done. by intros ->.
  - eexists _, piece, None. split; [exact Happly|]. cbn [board].
    split_and!; try done.
    + by rewrite lookup_insert_ne, lookup_insert_eq.
    + by rewrite lookup_insert_eq.
    + intros sq H1 H2 _. by rewrite !lookup_insert_ne.
Qed.

Lemma accepted_move_frame_witness :
  ∃ (game' : Game) (piece : sym) (captured : option (Z * Z)),
    applyMove scenarioC (4, 4) (1, 1) = (game', Ok ()) ∧
    scenarioC.(board) !! (4, 4) = Some (Str piece) ∧
    game'.(board) !! (4, 4) = Some Null ∧
    game'.(board) !! (1, 1) = Some (Str (landed piece 1)) ∧
    (∀ e, captured = Some e →
          e ≠ (4, 4) ∧ e ≠ (1, 1) ∧ enemyAt scenarioC.(board) piece e ∧
          game'.(board) !! e = Some Null) ∧
    (∀ sq, sq ≠ (4, 4) → sq ≠ (1, 1) → captured ≠ Some sq →
           game'.(board) !! sq = scenarioC.(board) !! sq).
Proof.
  apply (accepted_move_frame scenarioC 4 4 1 1 Sw).
  - apply wfBoardb_spec. vm_compute. reflexivity.
  - vm_compute. reflexivity.
Defined.
